(** * Mesh construction of pyembree: lowering of meshes to triangle buffers

    A shallow embedding of [pyembree/mesh_construction.pyx] and the proofs of
    its lowering rules: the flat and the indexed construction of
    [TriangleMesh], the hexahedral and the tetrahedral decomposition of
    [ElementMesh], and the buffer protocol they follow on the scene. *)

From Stdlib Require Import ZArith List Lia Bool.
From stdpp Require Import base list.
Import ListNotations.
Open Scope Z_scope.

(** ** C integer types

    The loop counters and counts of the source are [cdef int]; the arguments
    of the engine's allocation call are [size_t]; a field of a triangle is
    assigned an [int], and the engine reads its 32 bits as an
    [unsigned int].  Each is a [Z] with the wrap-around of its width
    (32, 64 and 32 bits). *)

Module C.

Definition INT_MIN : Z := -2147483648.
Definition INT_MAX : Z := 2147483647.

Definition to_int (z : Z) : Z := (z + 2147483648) mod 4294967296 - 2147483648.
Definition to_unsigned_int (z : Z) : Z := z mod 4294967296.
Definition to_size_t (z : Z) : Z := z mod 18446744073709551616.

Definition int_add (a b : Z) : Z := to_int (a + b).
Definition int_mul (a b : Z) : Z := to_int (a * b).

End C.

(** ** Outcomes

    A Python exception raised while the construction runs, or a fault: an
    access outside an object at the C level (a dimension that the array does
    not have, a buffer slot outside the mapped buffer, a stale handle),
    whose behaviour C leaves undefined. *)

Inductive exn : Type :=
  | IndexError
  | TypeError
  | OverflowError
  | NotImplementedError.

Inductive result (A : Type) : Type :=
  | Ok (a : A)
  | Raise (e : exn)
  | Fault.

Arguments Ok {A} a.
Arguments Raise {A} e.
Arguments Fault {A}.

Definition rbind {A B} (r : result A) (f : A -> result B) : result B :=
  match r with
  | Ok a => f a
  | Raise e => Raise e
  | Fault => Fault
  end.

(** ** NumPy arrays

    An array is its shape and its elements, reached through an index tuple
    (the source never looks at strides or at the memory of an array). *)

Record ndarray (A : Type) : Type := mk_ndarray {
  shape : list Z;
  item : list Z -> A
}.

Arguments mk_ndarray {A} shape item.
Arguments shape {A} n.
Arguments item {A} n idx.

(** One index against one dimension: a negative index counts from the end,
    and the result has to fall inside the dimension. *)
Definition norm_index (n i : Z) : option Z :=
  let i' := if i <? 0 then i + n else i in
  if (0 <=? i') && (i' <? n) then Some i' else None.

(** An index tuple against the shape; more indices than dimensions fail. *)
Fixpoint locate (dims idx : list Z) : option (list Z) :=
  match idx with
  | [] => Some []
  | i :: idx' =>
      match dims with
      | [] => None
      | n :: dims' =>
          match norm_index n i with
          | Some i' => option_map (cons i') (locate dims' idx')
          | None => None
          end
      end
  end.

(** [a[idx]]: the sub-array at an index tuple, of rank 0 when the tuple is
    as long as the shape. *)
Definition getitem {A} (a : ndarray A) (idx : list Z) : result (ndarray A) :=
  match locate (shape a) idx with
  | Some p =>
      Ok {| shape := drop (length idx) (shape a);
            item := fun rest => item a (p ++ rest) |}
  | None => Raise IndexError
  end.

(** Conversion of the object an indexing returns to a C number needs a
    scalar, an array of rank 0.  (Some NumPy versions also convert an array
    of one element; no array of the documented shapes yields one.) *)
Definition scalar_of {A} (a : ndarray A) : result A :=
  match shape a with
  | [] => Ok (item a [])
  | _ :: _ => Raise TypeError
  end.

(** Conversion of a Python integer to [int], the type that an entry of an
    index array is converted to on its way into a [Triangle]: Cython
    raises [OverflowError] outside the range of the type, and takes a
    negative entry as it is. *)
Definition as_int (z : Z) : result Z :=
  if (C.INT_MIN <=? z) && (z <=? C.INT_MAX) then Ok z
  else Raise OverflowError.

(** ** The engine's geometry *)

Inductive RTCBufferType : Type :=
  | RTC_INDEX_BUFFER
  | RTC_VERTEX_BUFFER.

Inductive RTCGeometryFlags : Type :=
  | RTC_GEOMETRY_STATIC
  | RTC_GEOMETRY_DEFORMABLE
  | RTC_GEOMETRY_DYNAMIC.

(** Modelled from the spec: the [Triangle] struct that [rtcore.pxd]
    declares, three unsigned integer indices.  A field holds the 32 bits
    of the [int] assigned to it, as the unsigned integer that the engine
    reads; a field that has not been written holds [None]. *)
Record Triangle : Type := mkTriangle {
  v0 : option Z;
  v1 : option Z;
  v2 : option Z
}.

(** A buffer, as the pointer the engine hands out for it. *)
Record pointer : Type := mkPointer {
  p_mesh : nat;
  p_kind : RTCBufferType
}.

(** The fields of [cdef class TriangleMesh]. *)
Record TriangleMesh : Type := mkTriangleMesh {
  vertices : pointer;
  indices : pointer;
  mesh : nat
}.

(** The name of a field of a slot, for the log of stores. *)
Inductive field : Type := f_x | f_y | f_z | f_v0 | f_v1 | f_v2.

(** What the construction does to the scene, in order. *)
Inductive event : Type :=
  | EvNewTriangleMesh (m : nat) (numTriangles numVertices : Z)
  | EvMapBuffer (m : nat) (k : RTCBufferType)
  | EvStore (m : nat) (k : RTCBufferType) (slot : Z) (f : field)
  | EvUnmapBuffer (m : nat) (k : RTCBufferType).

Section Construction.

(** The element type of the caller's vertex arrays, the single-precision
    float of a [Vertex], and the conversion between them. *)
Context {scalar coord : Type} (to_float : scalar -> coord).

(** Modelled from the spec: the [Vertex] struct that [rtcore.pxd] declares,
    three single-precision coordinates.  A field that has not been written
    holds [None]. *)
Record Vertex : Type := mkVertex {
  x : option coord;
  y : option coord;
  z : option coord
}.

Record geometry : Type := mkGeometry {
  flags : RTCGeometryFlags;
  numTriangles : Z;
  numVertices : Z;
  vertex_buffer : list Vertex;
  index_buffer : list Triangle;
  vertex_mapped : bool;
  index_mapped : bool
}.

(** The world a construction runs in: the caller's arrays, which the
    constructors receive by reference, the geometries of the scene (a
    geometry's handle is its position), and the log of the calls made on
    the scene.  The scene that a constructor receives is the scene of the
    world. *)
Record world : Type := mkWorld {
  vertex_arrays : list (ndarray scalar);
  index_arrays : list (ndarray Z);
  geoms : list geometry;
  log : list event
}.

(** The construction is a computation on the world that ends in a value,
    an exception or a fault; the world changed so far is kept in all three
    cases.  The builders are [cdef void] functions: whether an exception
    raised inside one reaches the caller of [__init__] or is only reported
    depends on the Cython that compiles them; the builder stops at the
    exception either way, which is what the outcome records. *)
Definition M (A : Type) : Type := world -> world * result A.

Definition ret {A} (a : A) : M A := fun w => (w, Ok a).
Definition raise {A} (e : exn) : M A := fun w => (w, Raise e).

Definition bind {A B} (m : M A) (f : A -> M B) : M B :=
  fun w =>
    match m w with
    | (w', Ok a) => f a w'
    | (w', Raise e) => (w', Raise e)
    | (w', Fault) => (w', Fault)
    end.

Notation "'let*' x ':=' m 'in' k" := (bind m (fun x => k))
  (at level 10, x name, m at level 100, k at level 200, only parsing).
Notation "m '>>' k" := (bind m (fun _ => k))
  (at level 100, k at level 200, right associativity, only parsing).

(** [for i in range(n): body], with [n] a C [int]. *)
Fixpoint for_from (i : Z) (count : nat) (body : Z -> M unit) : M unit :=
  match count with
  | O => ret tt
  | S c => body i >> for_from (i + 1) c body
  end.

Definition for_range (n : Z) (body : Z -> M unit) : M unit :=
  for_from 0 (Z.to_nat n) body.

(** *** Reading the caller's arrays *)

Definition vshape (vas : list (ndarray scalar)) (r : nat) (k : nat)
  : result Z :=
  match vas !! r with
  | Some a => match shape a !! k with Some d => Ok d | None => Fault end
  | None => Fault
  end.

Definition ishape (ias : list (ndarray Z)) (r : nat) (k : nat) : result Z :=
  match ias !! r with
  | Some a => match shape a !! k with Some d => Ok d | None => Fault end
  | None => Fault
  end.

(** [<float> a[idx]] *)
Definition vitem (vas : list (ndarray scalar)) (r : nat) (idx : list Z)
  : result coord :=
  match vas !! r with
  | Some a =>
      rbind (getitem a idx) (fun e =>
      rbind (scalar_of e) (fun s => Ok (to_float s)))
  | None => Fault
  end.

(** [<int> a[i][k]] *)
Definition iitem (ias : list (ndarray Z)) (r : nat) (i k : Z) : result Z :=
  match ias !! r with
  | Some a =>
      rbind (getitem a [i]) (fun row =>
      rbind (getitem row [k]) (fun e =>
      rbind (scalar_of e) as_int))
  | None => Fault
  end.

Definition shape_of_vertices (r : nat) (k : nat) : M Z :=
  fun w => (w, vshape (vertex_arrays w) r k).
Definition shape_of_indices (r : nat) (k : nat) : M Z :=
  fun w => (w, ishape (index_arrays w) r k).
Definition read_vertices (r : nat) (idx : list Z) : M coord :=
  fun w => (w, vitem (vertex_arrays w) r idx).
Definition read_indices (r : nat) (i k : Z) : M Z :=
  fun w => (w, iitem (index_arrays w) r i k).

(** *** The scene *)

Definition blank_vertex : Vertex := mkVertex None None None.
Definition blank_triangle : Triangle := mkTriangle None None None.

Definition set_buffers (g : geometry) (vb : list Vertex) (ib : list Triangle)
  : geometry :=
  mkGeometry (flags g) (numTriangles g) (numVertices g) vb ib
             (vertex_mapped g) (index_mapped g).

Definition set_mapped (g : geometry) (k : RTCBufferType) (b : bool)
  : geometry :=
  match k with
  | RTC_VERTEX_BUFFER =>
      mkGeometry (flags g) (numTriangles g) (numVertices g)
                 (vertex_buffer g) (index_buffer g) b (index_mapped g)
  | RTC_INDEX_BUFFER =>
      mkGeometry (flags g) (numTriangles g) (numVertices g)
                 (vertex_buffer g) (index_buffer g) (vertex_mapped g) b
  end.

Definition set_scene (w : world) (gs : list geometry) (ev : event) : world :=
  mkWorld (vertex_arrays w) (index_arrays w) gs (log w ++ [ev]).

(** Modelled from the spec: [allocateTriangleGeometry], the engine's
    [rtcNewTriangleMesh].  It creates a geometry slot with buffers of the
    declared counts, nothing written and nothing mapped, and returns its
    handle. *)
Definition rtcNewTriangleMesh (fl : RTCGeometryFlags)
    (nTriangles nVertices : Z) (numTimeSteps : Z) : M nat :=
  fun w =>
    let m := length (geoms w) in
    let g := mkGeometry fl nTriangles nVertices
               (replicate (Z.to_nat nVertices) blank_vertex)
               (replicate (Z.to_nat nTriangles) blank_triangle)
               false false in
    (set_scene w (geoms w ++ [g]) (EvNewTriangleMesh m nTriangles nVertices),
     Ok m).

(** Modelled from the spec: [acquireBufferForWrite], the engine's
    [rtcMapBuffer]. *)
Definition rtcMapBuffer (m : nat) (k : RTCBufferType) : M pointer :=
  fun w =>
    match geoms w !! m with
    | Some g =>
        (set_scene w (<[m := set_mapped g k true]> (geoms w))
                   (EvMapBuffer m k),
         Ok (mkPointer m k))
    | None => (w, Fault)
    end.

(** Modelled from the spec: [releaseBuffer], the engine's
    [rtcUnmapBuffer]. *)
Definition rtcUnmapBuffer (m : nat) (k : RTCBufferType) : M unit :=
  fun w =>
    match geoms w !! m with
    | Some g =>
        (set_scene w (<[m := set_mapped g k false]> (geoms w))
                   (EvUnmapBuffer m k),
         Ok tt)
    | None => (w, Fault)
    end.

(** A store through a raw pointer: slot [slot] of the buffer is updated in
    place; outside the buffer the store is a fault. *)
Definition poke {A} (slot : Z) (f : A -> A) (l : list A) : option (list A) :=
  if 0 <=? slot then
    match l !! Z.to_nat slot with
    | Some c => Some (<[Z.to_nat slot := f c]> l)
    | None => None
    end
  else None.

Definition store_vertex (p : pointer) (slot : Z) (fld : field)
    (f : Vertex -> Vertex) : M unit :=
  fun w =>
    match p_kind p, geoms w !! p_mesh p with
    | RTC_VERTEX_BUFFER, Some g =>
        match poke slot f (vertex_buffer g) with
        | Some vb =>
            (set_scene w
               (<[p_mesh p := set_buffers g vb (index_buffer g)]> (geoms w))
               (EvStore (p_mesh p) RTC_VERTEX_BUFFER slot fld),
             Ok tt)
        | None => (w, Fault)
        end
    | _, _ => (w, Fault)
    end.

Definition store_triangle (p : pointer) (slot : Z) (fld : field)
    (f : Triangle -> Triangle) : M unit :=
  fun w =>
    match p_kind p, geoms w !! p_mesh p with
    | RTC_INDEX_BUFFER, Some g =>
        match poke slot f (index_buffer g) with
        | Some ib =>
            (set_scene w
               (<[p_mesh p := set_buffers g (vertex_buffer g) ib]> (geoms w))
               (EvStore (p_mesh p) RTC_INDEX_BUFFER slot fld),
             Ok tt)
        | None => (w, Fault)
        end
    | _, _ => (w, Fault)
    end.

(** [p[slot].x = c] and the like. *)
Definition store_x (p : pointer) (slot : Z) (c : coord) : M unit :=
  store_vertex p slot f_x (fun v => mkVertex (Some c) (y v) (z v)).
Definition store_y (p : pointer) (slot : Z) (c : coord) : M unit :=
  store_vertex p slot f_y (fun v => mkVertex (x v) (Some c) (z v)).
Definition store_z (p : pointer) (slot : Z) (c : coord) : M unit :=
  store_vertex p slot f_z (fun v => mkVertex (x v) (y v) (Some c)).

Definition store_v0 (p : pointer) (slot : Z) (i : Z) : M unit :=
  store_triangle p slot f_v0 (fun t => mkTriangle (Some i) (v1 t) (v2 t)).
Definition store_v1 (p : pointer) (slot : Z) (i : Z) : M unit :=
  store_triangle p slot f_v1 (fun t => mkTriangle (v0 t) (Some i) (v2 t)).
Definition store_v2 (p : pointer) (slot : Z) (i : Z) : M unit :=
  store_triangle p slot f_v2 (fun t => mkTriangle (v0 t) (v1 t) (Some i)).

(** ** TriangleMesh *)

Definition _build_from_flat (tri_vertices : nat) : M TriangleMesh :=
  let* d := shape_of_vertices tri_vertices 0 in
  let nt := C.to_int d in
  let* mesh := rtcNewTriangleMesh RTC_GEOMETRY_STATIC
            (C.to_size_t nt) (C.to_size_t (C.int_mul nt 3)) 1 in
  let* vertices := rtcMapBuffer mesh RTC_VERTEX_BUFFER in
  for_range nt (fun i =>
    for_range 3 (fun j =>
      let* c := read_vertices tri_vertices [i; j; 0] in
      store_x vertices (C.int_add (C.int_mul i 3) j) c >>
      let* c := read_vertices tri_vertices [i; j; 1] in
      store_y vertices (C.int_add (C.int_mul i 3) j) c >>
      let* c := read_vertices tri_vertices [i; j; 2] in
      store_z vertices (C.int_add (C.int_mul i 3) j) c)) >>
  rtcUnmapBuffer mesh RTC_VERTEX_BUFFER >>
  let* triangles := rtcMapBuffer mesh RTC_INDEX_BUFFER in
  for_range nt (fun i =>
    store_v0 triangles i (C.to_unsigned_int (C.int_add (C.int_mul i 3) 0)) >>
    store_v1 triangles i (C.to_unsigned_int (C.int_add (C.int_mul i 3) 1)) >>
    store_v2 triangles i (C.to_unsigned_int (C.int_add (C.int_mul i 3) 2))) >>
  rtcUnmapBuffer mesh RTC_INDEX_BUFFER >>
  ret (mkTriangleMesh vertices triangles mesh).

(** The copy of a [(numVertices, 3)] array into the vertex buffer: the
    loop that the indexed path and both element paths write out alike. *)
Definition copy_vertices (src : nat) (vertices : pointer) (nv : Z) : M unit :=
  for_range nv (fun i =>
    let* c := read_vertices src [i; 0] in
    store_x vertices i c >>
    let* c := read_vertices src [i; 1] in
    store_y vertices i c >>
    let* c := read_vertices src [i; 2] in
    store_z vertices i c).

(** [triangles[slot]] from entries [a], [b], [c] of row [i] of an index
    array: the three assignments that the source writes out for each
    triangle. *)
Definition store_face (src : nat) (triangles : pointer) (slot : Z)
    (i : Z) (a b c : Z) : M unit :=
  let* e := read_indices src i a in
  store_v0 triangles slot (C.to_unsigned_int e) >>
  let* e := read_indices src i b in
  store_v1 triangles slot (C.to_unsigned_int e) >>
  let* e := read_indices src i c in
  store_v2 triangles slot (C.to_unsigned_int e).

Definition _build_from_indices (tri_vertices tri_indices : nat)
  : M TriangleMesh :=
  let* d := shape_of_vertices tri_vertices 0 in
  let nv := C.to_int d in
  let* d := shape_of_indices tri_indices 0 in
  let nt := C.to_int d in
  let* mesh := rtcNewTriangleMesh RTC_GEOMETRY_STATIC
            (C.to_size_t nt) (C.to_size_t nv) 1 in
  let* vertices := rtcMapBuffer mesh RTC_VERTEX_BUFFER in
  copy_vertices tri_vertices vertices nv >>
  rtcUnmapBuffer mesh RTC_VERTEX_BUFFER >>
  let* triangles := rtcMapBuffer mesh RTC_INDEX_BUFFER in
  for_range nt (fun i => store_face tri_indices triangles i i 0 1 2) >>
  rtcUnmapBuffer mesh RTC_INDEX_BUFFER >>
  ret (mkTriangleMesh vertices triangles mesh).

Definition TriangleMesh_init (vertices : nat) (indices : option nat)
  : M TriangleMesh :=
  match indices with
  | None => _build_from_flat vertices
  | Some indices => _build_from_indices vertices indices
  end.

(** ** ElementMesh *)

Definition _build_from_quads (quad_vertices quad_indices : nat)
  : M TriangleMesh :=
  let* d := shape_of_vertices quad_vertices 0 in
  let nv := C.to_int d in
  let* d := shape_of_indices quad_indices 0 in
  let ne := C.to_int d in
  let nt := C.int_mul (C.int_mul 6 2) ne in
  let* mesh := rtcNewTriangleMesh RTC_GEOMETRY_STATIC
            (C.to_size_t nt) (C.to_size_t nv) 1 in
  let* vertices := rtcMapBuffer mesh RTC_VERTEX_BUFFER in
  copy_vertices quad_vertices vertices nv >>
  rtcUnmapBuffer mesh RTC_VERTEX_BUFFER >>
  let* triangles := rtcMapBuffer mesh RTC_INDEX_BUFFER in
  for_range ne (fun i =>
    let j := C.int_mul 12 i in
    store_face quad_indices triangles j i 0 1 2 >>
    store_face quad_indices triangles (C.int_add j 1) i 0 2 3 >>
    store_face quad_indices triangles (C.int_add j 2) i 4 5 6 >>
    store_face quad_indices triangles (C.int_add j 3) i 4 6 7 >>
    store_face quad_indices triangles (C.int_add j 4) i 0 1 5 >>
    store_face quad_indices triangles (C.int_add j 5) i 0 5 4 >>
    store_face quad_indices triangles (C.int_add j 6) i 1 2 6 >>
    store_face quad_indices triangles (C.int_add j 7) i 1 6 5 >>
    store_face quad_indices triangles (C.int_add j 8) i 0 3 7 >>
    store_face quad_indices triangles (C.int_add j 9) i 0 7 4 >>
    store_face quad_indices triangles (C.int_add j 10) i 3 2 6 >>
    store_face quad_indices triangles (C.int_add j 11) i 3 6 7) >>
  rtcUnmapBuffer mesh RTC_INDEX_BUFFER >>
  ret (mkTriangleMesh vertices triangles mesh).

Definition _build_from_triangles (tetra_vertices tetra_indices : nat)
  : M TriangleMesh :=
  let* d := shape_of_vertices tetra_vertices 0 in
  let nv := C.to_int d in
  let* d := shape_of_indices tetra_indices 0 in
  let ne := C.to_int d in
  let nt := C.int_mul 4 ne in
  let* mesh := rtcNewTriangleMesh RTC_GEOMETRY_STATIC
            (C.to_size_t nt) (C.to_size_t nv) 1 in
  let* vertices := rtcMapBuffer mesh RTC_VERTEX_BUFFER in
  copy_vertices tetra_vertices vertices nv >>
  rtcUnmapBuffer mesh RTC_VERTEX_BUFFER >>
  let* triangles := rtcMapBuffer mesh RTC_INDEX_BUFFER in
  for_range ne (fun i =>
    let j := C.int_mul 4 i in
    store_face tetra_indices triangles j i 0 1 2 >>
    store_face tetra_indices triangles (C.int_add j 1) i 0 1 3 >>
    store_face tetra_indices triangles (C.int_add j 2) i 0 2 3 >>
    store_face tetra_indices triangles (C.int_add j 3) i 1 2 3) >>
  rtcUnmapBuffer mesh RTC_INDEX_BUFFER >>
  ret (mkTriangleMesh vertices triangles mesh).

Definition ElementMesh_init (vertices indices : nat) : M TriangleMesh :=
  let* d := shape_of_indices indices 1 in
  if d =? 8 then _build_from_quads vertices indices
  else if d =? 4 then _build_from_triangles vertices indices
  else raise NotImplementedError.

End Construction.

Arguments world : clear implicits.
Arguments geometry : clear implicits.
Arguments M : clear implicits.

(** ** Vocabulary of the statements *)

(** The outcome is a value; the value of an outcome, if it is one. *)
Definition is_ok {A} (r : result A) : Prop :=
  match r with Ok _ => True | _ => False end.

Definition to_opt {A} (r : result A) : option A :=
  match r with Ok a => Some a | _ => None end.

(** The mesh object of geometry [m]: its two buffers and its handle. *)
Definition mesh_of (m : nat) : TriangleMesh :=
  mkTriangleMesh (mkPointer m RTC_VERTEX_BUFFER)
                 (mkPointer m RTC_INDEX_BUFFER) m.

(** Two outcomes are the same, up to [RA] on the values. *)
Definition res_rel {A} (RA : A -> A -> Prop) (r1 r2 : result A) : Prop :=
  match r1, r2 with
  | Ok a, Ok b => RA a b
  | Raise e1, Raise e2 => e1 = e2
  | Fault, Fault => True
  | _, _ => False
  end.

(** Pointers into the same buffer, and mesh objects, of the geometries
    [m1] and [m2] of two runs. *)
Definition ptr_rel (m1 m2 : nat) (k : RTCBufferType) (p q : pointer) : Prop :=
  p = mkPointer m1 k /\ q = mkPointer m2 k.

Definition mesh_rel (m1 m2 : nat) (a b : TriangleMesh) : Prop :=
  a = mesh_of m1 /\ b = mesh_of m2.

Section Vocabulary.

Context {scalar coord : Type} (to_float : scalar -> coord).

Local Abbreviation world := (world scalar coord).
Local Abbreviation geometry := (geometry coord).
Local Abbreviation M := (M scalar coord).

(** The world and the outcome of running [m] from [w] satisfy [Q]. *)
Definition wp {A} (m : M A) (w : world) (Q : world -> result A -> Prop)
  : Prop :=
  Q (fst (m w)) (snd (m w)).

(** [Q] accepts every run that does not end in a value. *)
Definition lenient {A} (Q : world -> result A -> Prop) : Prop :=
  forall w r, ~ is_ok r -> Q w r.

(** The postcondition of the first half of a [bind]. *)
Definition on_ok {A B} (K : world -> A -> Prop)
    (Q : world -> result B -> Prop) : world -> result A -> Prop :=
  fun w r =>
    match r with
    | Ok a => K w a
    | Raise e => Q w (Raise e)
    | Fault => Q w Fault
    end.

(** [m] keeps [P], however it ends. *)
Definition keeps (P : world -> Prop) {A} (m : M A) : Prop :=
  forall w, P w -> P (fst (m w)).

(** [P] survives a change of the scene that keeps the caller's arrays and
    the number of geometries, and the creation of a geometry. *)
Definition stable (P : world -> Prop) : Prop :=
  forall w gs ev, length gs = length (geoms w) -> P w -> P (set_scene w gs ev).

Definition grows (P : world -> Prop) : Prop :=
  forall w g ev, P w -> P (set_scene w (geoms w ++ [g]) ev).

(** The two constructors, by the references they receive. *)
Inductive construction : Type :=
  | NewTriangleMesh (vertices : nat) (indices : option nat)
  | NewElementMesh (vertices indices : nat).

Definition construct (c : construction) : M TriangleMesh :=
  match c with
  | NewTriangleMesh v i => TriangleMesh_init to_float v i
  | NewElementMesh v i => ElementMesh_init to_float v i
  end.

(** In [w'] a geometry has been allocated and its vertex buffer acquired
    since [w]. *)
Definition allocated_since (w w' : world) : Prop :=
  exists nt nv rest,
    log w' = log w ++ EvNewTriangleMesh (length (geoms w)) nt nv
                   :: EvMapBuffer (length (geoms w)) RTC_VERTEX_BUFFER
                   :: rest
    /\ length (geoms w') = S (length (geoms w)).

(** Geometry [m] of [w] is declared with [nv] vertices and its vertex
    buffer is [vb]. *)
Definition has_vertices (m : nat) (nv : Z) (vb : list Vertex) (w : world)
  : Prop :=
  exists g, geoms w !! m = Some g /\ numVertices g = nv
            /\ vertex_buffer g = vb.

(** The numbers of rows of the arrays of a construction, times the
    triangles it makes of a row, fit a C [int]. *)
Definition counts_fit (w : world) (c : construction) : Prop :=
  match c with
  | NewTriangleMesh v None =>
      forall n, vshape (vertex_arrays w) v 0 = Ok n ->
        0 <= n /\ 3 * n <= C.INT_MAX
  | NewTriangleMesh v (Some i) =>
      forall nv nt,
        vshape (vertex_arrays w) v 0 = Ok nv ->
        ishape (index_arrays w) i 0 = Ok nt ->
        0 <= nv <= C.INT_MAX /\ 0 <= nt <= C.INT_MAX
  | NewElementMesh v i =>
      forall nv ne,
        vshape (vertex_arrays w) v 0 = Ok nv ->
        ishape (index_arrays w) i 0 = Ok ne ->
        0 <= nv <= C.INT_MAX /\ 0 <= ne /\ 12 * ne <= C.INT_MAX
  end.

(** Two constructions are the same constructor on equal arrays. *)
Definition same_inputs (w1 w2 : world) (c1 c2 : construction) : Prop :=
  match c1, c2 with
  | NewTriangleMesh v1 (Some i1), NewTriangleMesh v2 (Some i2) =>
      vertex_arrays w1 !! v1 = vertex_arrays w2 !! v2
      /\ index_arrays w1 !! i1 = index_arrays w2 !! i2
  | NewTriangleMesh v1 None, NewTriangleMesh v2 None =>
      vertex_arrays w1 !! v1 = vertex_arrays w2 !! v2
  | NewElementMesh v1 i1, NewElementMesh v2 i2 =>
      vertex_arrays w1 !! v1 = vertex_arrays w2 !! v2
      /\ index_arrays w1 !! i1 = index_arrays w2 !! i2
  | _, _ => False
  end.

(** What a construction from [w] owes when it ends: an exception other
    than the arity test's comes after the allocation. *)
Definition after_allocation (w : world)
  : world -> result TriangleMesh -> Prop :=
  fun w' r =>
    match r with
    | Raise e => e <> NotImplementedError -> allocated_since w w'
    | _ => True
    end.

(** Two runs, side by side.  [v1], [v2] are their vertex arrays, [i1],
    [i2] their index arrays (when the construction has one) and [m1], [m2]
    the handles of the geometries they create.  The two worlds are alike
    when they hold equal arrays at those references and equal geometries at
    those handles; two computations are similar when they take alike worlds
    to alike worlds and end the same way. *)
Definition alike (v1 v2 : nat) (i1 i2 : option nat) (m1 m2 : nat)
    (w1 w2 : world) : Prop :=
  vertex_arrays w1 !! v1 = vertex_arrays w2 !! v2
  /\ match i1, i2 with
     | Some a, Some b => index_arrays w1 !! a = index_arrays w2 !! b
     | None, None => True
     | _, _ => False
     end
  /\ geoms w1 !! m1 = geoms w2 !! m2.

Definition sim (v1 v2 : nat) (i1 i2 : option nat) (m1 m2 : nat) {A}
    (RA : A -> A -> Prop) (c1 c2 : M A) : Prop :=
  forall w1 w2, alike v1 v2 i1 i2 m1 m2 w1 w2 ->
    alike v1 v2 i1 i2 m1 m2 (fst (c1 w1)) (fst (c2 w2))
    /\ res_rel RA (snd (c1 w1)) (snd (c2 w2)).

Definition end_alike (v1 v2 : nat) (i1 i2 : option nat) (m1 m2 : nat)
    (r1 r2 : world * result TriangleMesh) : Prop :=
  alike v1 v2 i1 i2 m1 m2 (fst r1) (fst r2)
  /\ res_rel (mesh_rel m1 m2) (snd r1) (snd r2).

(** A world whose newest geometry is [g]. *)
Definition Wg (vas : list (ndarray scalar)) (ias : list (ndarray Z))
    (gs : list geometry) (g : geometry) (lg : list event) : world :=
  mkWorld vas ias (gs ++ [g]) lg.

(** Row [i] of a [(numVertices, 3)] array as a vertex, corner [j] of
    triangle [i] of a [(numTriangles, 3, 3)] array as a vertex, and three
    entries of row [i] of an index array as a triangle. *)
Definition vertex_of_row (vas : list (ndarray scalar)) (r : nat) (i : Z)
  : Vertex :=
  mkVertex (to_opt (vitem to_float vas r [i; 0]))
           (to_opt (vitem to_float vas r [i; 1]))
           (to_opt (vitem to_float vas r [i; 2])).

Definition vertex_of_corner (vas : list (ndarray scalar)) (r : nat) (i j : Z)
  : Vertex :=
  mkVertex (to_opt (vitem to_float vas r [i; j; 0]))
           (to_opt (vitem to_float vas r [i; j; 1]))
           (to_opt (vitem to_float vas r [i; j; 2])).

(** What a field of a triangle holds once the entry read as [r] has been
    assigned to it. *)
Definition index_word (r : result Z) : option Z :=
  option_map C.to_unsigned_int (to_opt r).

Definition triangle_of_face (ias : list (ndarray Z)) (r : nat) (i : Z)
    (f : Z * Z * Z) : Triangle :=
  let '(a, b, c) := f in
  mkTriangle (index_word (iitem ias r i a)) (index_word (iitem ias r i b))
             (index_word (iitem ias r i c)).

(** The reads that fill one slot all return a value. *)
Definition row_ok (vas : list (ndarray scalar)) (r : nat) (i : Z) : Prop :=
  is_ok (vitem to_float vas r [i; 0]) /\ is_ok (vitem to_float vas r [i; 1])
  /\ is_ok (vitem to_float vas r [i; 2]).

Definition corner_ok (vas : list (ndarray scalar)) (r : nat) (i j : Z)
  : Prop :=
  is_ok (vitem to_float vas r [i; j; 0])
  /\ is_ok (vitem to_float vas r [i; j; 1])
  /\ is_ok (vitem to_float vas r [i; j; 2]).

Definition face_ok (ias : list (ndarray Z)) (r : nat) (i : Z)
    (f : Z * Z * Z) : Prop :=
  let '(a, b, c) := f in
  is_ok (iitem ias r i a) /\ is_ok (iitem ias r i b)
  /\ is_ok (iitem ias r i c).

(** The world once a construction is through: the scene has one more
    geometry, with both buffers written and released, and the log has the
    calls in the order of the source. *)
Definition built (vas : list (ndarray scalar)) (ias : list (ndarray Z))
    (gs : list geometry) (lg : list event) (ntri nvert : Z)
    (vb : list Vertex) (ib : list Triangle) (vev iev : list event) : world :=
  Wg vas ias gs
    (mkGeometry RTC_GEOMETRY_STATIC ntri nvert vb ib false false)
    (lg ++ [EvNewTriangleMesh (length gs) ntri nvert;
            EvMapBuffer (length gs) RTC_VERTEX_BUFFER] ++ vev
        ++ [EvUnmapBuffer (length gs) RTC_VERTEX_BUFFER;
            EvMapBuffer (length gs) RTC_INDEX_BUFFER] ++ iev
        ++ [EvUnmapBuffer (length gs) RTC_INDEX_BUFFER]).

(** What iteration [k] of each fill loop writes, and the reads it needs. *)
Definition row_chunk (vas : list (ndarray scalar)) (r : nat) (k : nat)
  : list Vertex :=
  [vertex_of_row vas r (Z.of_nat k)].

Definition rows_ok (vas : list (ndarray scalar)) (r : nat) (n : nat) : Prop :=
  forall k, (k < n)%nat -> row_ok vas r (Z.of_nat k).

Definition corner_chunk (vas : list (ndarray scalar)) (r : nat) (k : nat)
  : list Vertex :=
  [vertex_of_corner vas r (Z.of_nat k) 0; vertex_of_corner vas r (Z.of_nat k) 1;
   vertex_of_corner vas r (Z.of_nat k) 2].

Definition corners_ok (vas : list (ndarray scalar)) (r : nat) (n : nat)
  : Prop :=
  forall k, (k < n)%nat ->
    corner_ok vas r (Z.of_nat k) 0 /\ corner_ok vas r (Z.of_nat k) 1
    /\ corner_ok vas r (Z.of_nat k) 2.

Definition faces_chunk (faces : list (Z * Z * Z)) (ias : list (ndarray Z))
    (r : nat) (k : nat) : list Triangle :=
  map (triangle_of_face ias r (Z.of_nat k)) faces.

Definition faces_ok (faces : list (Z * Z * Z)) (ias : list (ndarray Z))
    (r : nat) (n : nat) : Prop :=
  forall k, (k < n)%nat ->
    forall f, In f faces -> face_ok ias r (Z.of_nat k) f.

End Vocabulary.

(** The face tables of the two decompositions, as the spec lists them. *)
Definition hex_faces : list (Z * Z * Z) :=
  [(0, 1, 2); (0, 2, 3); (4, 5, 6); (4, 6, 7); (0, 1, 5); (0, 5, 4);
   (1, 2, 6); (1, 6, 5); (0, 3, 7); (0, 7, 4); (3, 2, 6); (3, 6, 7)].

Definition tet_faces : list (Z * Z * Z) :=
  [(0, 1, 2); (0, 1, 3); (0, 2, 3); (1, 2, 3)].

(** The stores of one slot, in the order the source makes them. *)
Definition vertex_stores (m : nat) (slot : Z) : list event :=
  [EvStore m RTC_VERTEX_BUFFER slot f_x; EvStore m RTC_VERTEX_BUFFER slot f_y;
   EvStore m RTC_VERTEX_BUFFER slot f_z].

Definition triangle_stores (m : nat) (slot : Z) : list event :=
  [EvStore m RTC_INDEX_BUFFER slot f_v0; EvStore m RTC_INDEX_BUFFER slot f_v1;
   EvStore m RTC_INDEX_BUFFER slot f_v2].

(** ** The buffer protocol, on the log *)

Definition same_buffer (m : nat) (k : RTCBufferType) (m' : nat)
    (k' : RTCBufferType) : bool :=
  Nat.eqb m m' &&
  match k, k' with
  | RTC_INDEX_BUFFER, RTC_INDEX_BUFFER => true
  | RTC_VERTEX_BUFFER, RTC_VERTEX_BUFFER => true
  | _, _ => false
  end.

Definition is_acquire (m : nat) (k : RTCBufferType) (ev : event) : bool :=
  match ev with
  | EvMapBuffer m' k' => same_buffer m k m' k'
  | _ => false
  end.

Definition is_release (m : nat) (k : RTCBufferType) (ev : event) : bool :=
  match ev with
  | EvUnmapBuffer m' k' => same_buffer m k m' k'
  | _ => false
  end.

Definition is_store (m : nat) (k : RTCBufferType) (ev : event) : bool :=
  match ev with
  | EvStore m' k' _ _ => same_buffer m k m' k'
  | _ => false
  end.

Definition touches (m : nat) (k : RTCBufferType) (ev : event) : bool :=
  is_acquire m k ev || is_release m k ev || is_store m k ev.

Fixpoint count_events (p : event -> bool) (evs : list event) : nat :=
  match evs with
  | [] => 0
  | ev :: evs' => ((if p ev then 1 else 0) + count_events p evs')%nat
  end.

Definition fields_of (k : RTCBufferType) : list field :=
  match k with
  | RTC_VERTEX_BUFFER => [f_x; f_y; f_z]
  | RTC_INDEX_BUFFER => [f_v0; f_v1; f_v2]
  end.

(** The events [evs] treat buffer [k] of geometry [m], of [size] slots, by
    the protocol: one acquisition and one release; before the acquisition
    and after the release nothing touches the buffer; in between there are
    only stores to it, and every field of every slot is stored. *)
Definition buffer_protocol (m : nat) (k : RTCBufferType) (size : Z)
    (evs : list event) : Prop :=
  count_events (is_acquire m k) evs = 1%nat
  /\ count_events (is_release m k) evs = 1%nat
  /\ exists pre mid post,
       evs = pre ++ EvMapBuffer m k :: mid ++ EvUnmapBuffer m k :: post
       /\ Forall (fun ev => touches m k ev = false) pre
       /\ Forall (fun ev => is_store m k ev = true) mid
       /\ Forall (fun ev => touches m k ev = false) post
       /\ forall slot fld, 0 <= slot < size -> In fld (fields_of k) ->
            In (EvStore m k slot fld) mid.

(** The stores of iteration [k] of a loop that fills [c] slots a turn. *)
Definition slot_events (stores : Z -> list event) (c : nat) (k : nat)
  : list event :=
  flat_map (fun t => stores (Z.of_nat c * Z.of_nat k + Z.of_nat t)) (seq 0 c).

(** Slot [k] of the index buffer of a triangle soup. *)
Definition soup_chunk (k : nat) : list Triangle :=
  [mkTriangle (Some (3 * Z.of_nat k)) (Some (3 * Z.of_nat k + 1))
              (Some (3 * Z.of_nat k + 2))].

(** ** Vocabulary of the further properties *)

(** The geometry an event is about. *)
Definition event_mesh (ev : event) : nat :=
  match ev with
  | EvNewTriangleMesh m _ _ => m
  | EvMapBuffer m _ => m
  | EvStore m _ _ _ => m
  | EvUnmapBuffer m _ => m
  end.

Section FurtherVocabulary.

Context {scalar coord : Type} (to_float : scalar -> coord).

Local Abbreviation world := (world scalar coord).
Local Abbreviation geometry := (geometry coord).
Local Abbreviation M := (M scalar coord).

(** The arrays of a construction have no rows (and, for an element mesh,
    the index array has four or eight columns). *)
Definition no_rows (w : world) (c : construction) : Prop :=
  match c with
  | NewTriangleMesh v None => vshape (vertex_arrays w) v 0 = Ok 0
  | NewTriangleMesh v (Some i) =>
      vshape (vertex_arrays w) v 0 = Ok 0
      /\ ishape (index_arrays w) i 0 = Ok 0
  | NewElementMesh v i =>
      vshape (vertex_arrays w) v 0 = Ok 0
      /\ ishape (index_arrays w) i 0 = Ok 0
      /\ (ishape (index_arrays w) i 1 = Ok 4
          \/ ishape (index_arrays w) i 1 = Ok 8)
  end.

(** The arrays of a construction are there and have a first dimension
    (and a second one, for the index array of an element mesh). *)
Definition has_rows (w : world) (c : construction) : Prop :=
  match c with
  | NewTriangleMesh v None => is_ok (vshape (vertex_arrays w) v 0)
  | NewTriangleMesh v (Some i) =>
      is_ok (vshape (vertex_arrays w) v 0)
      /\ is_ok (ishape (index_arrays w) i 0)
  | NewElementMesh v i =>
      is_ok (vshape (vertex_arrays w) v 0)
      /\ is_ok (ishape (index_arrays w) i 0)
      /\ is_ok (ishape (index_arrays w) i 1)
  end.

(** The world of a construction under way: the caller's arrays are [vas]
    and [ias]; the scene is [gs0] and the geometry the construction has
    allocated, whose buffers have [nvn] and [ntn] slots; the log is [lg0]
    and events about that geometry. *)
Definition in_slot (vas : list (ndarray scalar)) (ias : list (ndarray Z))
    (gs0 : list geometry) (lg0 : list event) (nvn ntn : nat) (w : world)
  : Prop :=
  vertex_arrays w = vas /\ index_arrays w = ias
  /\ (exists g, geoms w = gs0 ++ [g]
                /\ length (vertex_buffer g) = nvn
                /\ length (index_buffer g) = ntn)
  /\ exists evs, log w = lg0 ++ evs
                 /\ Forall (fun ev => event_mesh ev = length gs0) evs.

(** [m] keeps [I], returns values in [RA], and faults only if [F]. *)
Definition obeys (F : Prop) (I : world -> Prop) {A} (RA : A -> Prop)
    (m : M A) : Prop :=
  forall w, I w ->
    I (fst (m w))
    /\ match snd (m w) with
       | Ok a => RA a
       | Raise _ => True
       | Fault => F
       end.

(** What a construction from [w] that ended as [r] has done: it has added
    at most one geometry to the scene and left the others as they were;
    what it has logged is about that geometry; if it ran to its end, it
    has added one geometry, the first thing it logged is the allocation,
    and its value is the mesh of that geometry; and it has faulted only
    if [F]. *)
Definition confined (F : Prop) (w : world)
    (r : world * result TriangleMesh) : Prop :=
  (exists rest evs,
      geoms (fst r) = geoms w ++ rest /\ (length rest <= 1)%nat
      /\ (is_ok (snd r) ->
          length rest = 1%nat
          /\ exists nt nv evs',
               evs = EvNewTriangleMesh (length (geoms w)) nt nv :: evs')
      /\ log (fst r) = log w ++ evs
      /\ Forall (fun ev => event_mesh ev = length (geoms w)) evs)
  /\ match snd r with
     | Ok a => a = mesh_of (length (geoms w))
     | Raise _ => True
     | Fault => F
     end.

(** Geometry [m] of [w] has its vertex buffer acquired iff [a] and its
    index buffer acquired iff [b]. *)
Definition held (m : nat) (a b : bool) (w : world) : Prop :=
  exists g, geoms w !! m = Some g
            /\ vertex_mapped g = a /\ index_mapped g = b.

(** From a world in [P], [m] returns in a world in [Q] or raises [e] in a
    world in [E e]. *)
Definition hoare {A} (P : world -> Prop) (m : M A) (Q : world -> Prop)
    (E : exn -> world -> Prop) : Prop :=
  forall w, P w ->
    match snd (m w) with
    | Ok _ => Q (fst (m w))
    | Raise e => E e (fst (m w))
    | Fault => True
    end.

(** An exception of a builder: raised by a read, with one buffer of
    geometry [m] acquired. *)
Definition one_acquired (m : nat) (e : exn) (w : world) : Prop :=
  e <> NotImplementedError
  /\ (held m true false w \/ held m false true w).

(** While the caller's arrays are [vas] and [ias], [m] leaves them so, and
    it returns [a] only if [req a]. *)
Definition demands (vas : list (ndarray scalar)) (ias : list (ndarray Z))
    {A} (req : A -> Prop) (m : M A) : Prop :=
  forall w, vertex_arrays w = vas -> index_arrays w = ias ->
    (vertex_arrays (fst (m w)) = vas /\ index_arrays (fst (m w)) = ias)
    /\ forall a, snd (m w) = Ok a -> req a.

End FurtherVocabulary.

(** ** Sample inputs

    The scenarios of the spec, with integer coordinates; a single-precision
    float holds each of them as it is. *)

Definition to_single (c : Z) : Z := c.

(** A two-dimensional array from its rows. *)
Definition of_rows (width : Z) (rows : list (list Z)) : ndarray Z :=
  mk_ndarray [Z.of_nat (length rows); width]
    (fun idx =>
       match idx with
       | [i; k] => nth (Z.to_nat k) (nth (Z.to_nat i) rows []) 0
       | _ => 0
       end).

(** The unit cube as one hexahedron. *)
Definition cube_vertices : ndarray Z :=
  of_rows 3 [[0; 0; 0]; [1; 0; 0]; [1; 1; 0]; [0; 1; 0];
             [0; 0; 1]; [1; 0; 1]; [1; 1; 1]; [0; 1; 1]].

Definition cube_elements : ndarray Z := of_rows 8 [[0; 1; 2; 3; 4; 5; 6; 7]].

Definition cube_world : world Z Z :=
  mkWorld [cube_vertices] [cube_elements] [] [].




(** Two triangles that share an edge, indexed. *)
Definition quad_vertices : ndarray Z :=
  of_rows 3 [[0; 0; 0]; [1; 0; 0]; [1; 1; 0]; [0; 1; 0]].

Definition quad_triangles : ndarray Z := of_rows 3 [[0; 1; 2]; [0; 2; 3]].

Definition quad_world : world Z Z :=
  mkWorld [quad_vertices] [quad_triangles] [] [].

(** The same two triangles as a soup of shape [(2, 3, 3)]. *)
Definition soup_vertices : ndarray Z :=
  mk_ndarray [2; 3; 3]
    (fun idx =>
       match idx with
       | [i; j; c] =>
           item quad_vertices [item quad_triangles [i; j]; c]
       | _ => 0
       end).

Definition soup_world : world Z Z := mkWorld [soup_vertices] [] [] [].

(** A scene that already has a geometry, and holds the cube at other
    references. *)
Definition busy_world : world Z Z :=
  mkWorld [soup_vertices; cube_vertices] [quad_triangles; cube_elements]
    [mkGeometry RTC_GEOMETRY_STATIC 0 0 [] [] false false]
    [EvNewTriangleMesh 0 0 0].

(** A vertex array whose rows are one coordinate short. *)
Definition short_vertices : ndarray Z := of_rows 2 [[0; 0]; [1; 0]; [1; 1]].

Definition short_world : world Z Z :=
  mkWorld [short_vertices] [of_rows 3 [[0; 1; 2]]] [] [].

(** A vertex array whose rows have two coordinates too many. *)
Definition wide_vertices : ndarray Z :=
  of_rows 5 [[0; 0; 0; 7; 7]; [1; 0; 0; 7; 7]; [1; 1; 0; 7; 7]].

Definition wide_world : world Z Z :=
  mkWorld [wide_vertices] [of_rows 3 [[0; 1; 2]]] [] [].

(** A mesh without vertices and without elements. *)
Definition empty_world : world Z Z :=
  mkWorld [of_rows 3 []] [of_rows 8 []] [] [].

(** One triangle as a soup of shape [(1, 4, 4)]: a corner and a coordinate
    too many; coordinate [c] of corner [j] is [10 * j + c]. *)
Definition wide_soup_vertices : ndarray Z :=
  mk_ndarray [1; 4; 4]
    (fun idx =>
       match idx with
       | [i; j; c] => 10 * j + c
       | _ => 0
       end).

Definition wide_soup_world : world Z Z :=
  mkWorld [wide_soup_vertices] [] [] [].

(** * Proofs *)

(** ** C integers in range *)

Lemma to_int_id (z : Z) :
  -2147483648 <= z <= C.INT_MAX -> C.to_int z = z.
Proof.
  unfold C.to_int, C.INT_MAX. intros H.
  rewrite Z.mod_small by lia. lia.
Qed.

Lemma int_add_id (a b : Z) :
  -2147483648 <= a + b <= C.INT_MAX -> C.int_add a b = a + b.
Proof. apply to_int_id. Qed.

Lemma int_mul_id (a b : Z) :
  -2147483648 <= a * b <= C.INT_MAX -> C.int_mul a b = a * b.
Proof. apply to_int_id. Qed.

Lemma to_size_t_id (z : Z) : 0 <= z <= C.INT_MAX -> C.to_size_t z = z.
Proof.
  unfold C.to_size_t, C.INT_MAX. intros H. apply Z.mod_small. lia.
Qed.

Lemma to_unsigned_int_id (z : Z) :
  0 <= z <= C.INT_MAX -> C.to_unsigned_int z = z.
Proof.
  unfold C.to_unsigned_int, C.INT_MAX. intros H. apply Z.mod_small. lia.
Qed.

(** ** Stores into a buffer *)

Lemma poke_middle {A} (slot : Z) (f : A -> A) (done rest : list A) (c : A) :
  Z.of_nat (length done) = slot ->
  poke slot f (done ++ c :: rest) = Some ((done ++ [f c]) ++ rest).
Proof.
  intros <-. unfold poke.
  rewrite (proj2 (Z.leb_le _ _)) by lia.
  rewrite Nat2Z.id, list_lookup_middle by reflexivity.
  rewrite <- (Nat.add_0_r (length done)) at 1.
  rewrite insert_app_r. simpl. now rewrite <- app_assoc.
Qed.

Lemma poke_last {A} (slot : Z) (f : A -> A) (done rest : list A) (c : A) :
  Z.of_nat (length done) = slot ->
  poke slot f ((done ++ [c]) ++ rest) = Some ((done ++ [f c]) ++ rest).
Proof.
  intros H. rewrite <- app_assoc. simpl. now apply poke_middle.
Qed.

Lemma lookup_chunks {A} (f : nat -> list A) (c n i j : nat) :
  (forall k, length (f k) = c) ->
  (i < n)%nat -> (j < c)%nat ->
  flat_map f (seq 0 n) !! (c * i + j)%nat = f i !! j.
Proof.
  intros Hc. induction n as [|n IH]; intros Hi Hj; [lia|].
  assert (Hlen : forall m, length (flat_map f (seq 0 m)) = (c * m)%nat).
  { induction m as [|m IHm]; [simpl; lia|].
    rewrite seq_S, flat_map_app, length_app, IHm. simpl.
    rewrite app_nil_r, Hc. lia. }
  rewrite seq_S, flat_map_app. simpl. rewrite app_nil_r.
  destruct (decide (i = n)) as [->|Hne].
  - rewrite lookup_app_r by (rewrite Hlen; lia).
    rewrite Hlen. f_equal. lia.
  - assert (Hle : (c * S i <= c * n)%nat) by (apply Nat.mul_le_mono_l; lia).
    rewrite Nat.mul_succ_r in Hle.
    rewrite lookup_app_l by (rewrite Hlen; lia).
    apply IH; lia.
Qed.

Lemma length_chunks {A} (f : nat -> list A) (c n : nat) :
  (forall k, length (f k) = c) ->
  length (flat_map f (seq 0 n)) = (c * n)%nat.
Proof.
  intros Hc. induction n as [|n IH]; [simpl; lia|].
  rewrite seq_S, flat_map_app, length_app, IH. simpl.
  rewrite app_nil_r, Hc. lia.
Qed.

Section Lowering.

Context {scalar coord : Type} (to_float : scalar -> coord).

Local Abbreviation world := (world scalar coord).
Local Abbreviation geometry := (geometry coord).
Local Abbreviation M := (M scalar coord).

(** ** Rules of the construction monad *)

Lemma wp_bind {A B} (m : M A) (f : A -> M B) (w : world)
    (Q : world -> result B -> Prop) :
  wp m w (on_ok (fun w' a => wp (f a) w' Q) Q) -> wp (bind m f) w Q.
Proof.
  unfold wp, bind, on_ok. destruct (m w) as [w' [a|e|]]; simpl; auto.
Qed.

Lemma wp_ret {A} (a : A) (w : world) (Q : world -> result A -> Prop) :
  Q w (Ok a) -> wp (ret a) w Q.
Proof. auto. Qed.

Lemma wp_run {A} (m : M A) (w w' : world) (r : result A)
    (Q : world -> result A -> Prop) :
  m w = (w', r) -> Q w' r -> wp m w Q.
Proof. unfold wp. now intros ->. Qed.

Lemma lenient_on_ok {A B} (K : world -> A -> Prop)
    (Q : world -> result B -> Prop) :
  lenient Q -> lenient (on_ok K Q).
Proof.
  intros HQ w [a|e|] Hr; simpl in *; [tauto | apply HQ; auto ..].
Qed.

(** ** The scene calls on the newest geometry *)

Lemma rtcNewTriangleMesh_run fl nt nv ts
    (vas : list (ndarray scalar)) (ias : list (ndarray Z))
    (gs : list geometry) lg :
  rtcNewTriangleMesh fl nt nv ts (mkWorld vas ias gs lg)
  = (Wg vas ias gs
       (mkGeometry fl nt nv (replicate (Z.to_nat nv) blank_vertex)
          (replicate (Z.to_nat nt) blank_triangle) false false)
       (lg ++ [EvNewTriangleMesh (length gs) nt nv]),
     Ok (length gs)).
Proof. reflexivity. Qed.

Lemma lookup_newest (gs : list geometry) (g : geometry) :
  (gs ++ [g]) !! length gs = Some g.
Proof. now apply list_lookup_middle. Qed.

Lemma insert_newest (gs : list geometry) (g g' : geometry) :
  <[length gs := g']> (gs ++ [g]) = gs ++ [g'].
Proof.
  rewrite <- (Nat.add_0_r (length gs)). now rewrite insert_app_r.
Qed.

Lemma rtcMapBuffer_run k (vas : list (ndarray scalar)) (ias : list (ndarray Z))
    (gs : list geometry) g lg :
  rtcMapBuffer (length gs) k (Wg vas ias gs g lg)
  = (Wg vas ias gs (set_mapped g k true) (lg ++ [EvMapBuffer (length gs) k]),
     Ok (mkPointer (length gs) k)).
Proof.
  unfold rtcMapBuffer, Wg, set_scene. simpl.
  now rewrite lookup_newest, insert_newest.
Qed.

Lemma rtcUnmapBuffer_run k
    (vas : list (ndarray scalar)) (ias : list (ndarray Z))
    (gs : list geometry) g lg :
  rtcUnmapBuffer (length gs) k (Wg vas ias gs g lg)
  = (Wg vas ias gs (set_mapped g k false)
       (lg ++ [EvUnmapBuffer (length gs) k]),
     Ok tt).
Proof.
  unfold rtcUnmapBuffer, Wg, set_scene. simpl.
  now rewrite lookup_newest, insert_newest.
Qed.

Lemma store_vertex_run slot fld f vb
    (vas : list (ndarray scalar)) (ias : list (ndarray Z))
    (gs : list geometry) g lg :
  poke slot f (vertex_buffer g) = Some vb ->
  store_vertex (mkPointer (length gs) RTC_VERTEX_BUFFER) slot fld f
    (Wg vas ias gs g lg)
  = (Wg vas ias gs (set_buffers g vb (index_buffer g))
       (lg ++ [EvStore (length gs) RTC_VERTEX_BUFFER slot fld]),
     Ok tt).
Proof.
  intros Hp. unfold store_vertex, Wg, set_scene. simpl.
  now rewrite lookup_newest, Hp, insert_newest.
Qed.

Lemma store_triangle_run slot fld f ib
    (vas : list (ndarray scalar)) (ias : list (ndarray Z))
    (gs : list geometry) g lg :
  poke slot f (index_buffer g) = Some ib ->
  store_triangle (mkPointer (length gs) RTC_INDEX_BUFFER) slot fld f
    (Wg vas ias gs g lg)
  = (Wg vas ias gs (set_buffers g (vertex_buffer g) ib)
       (lg ++ [EvStore (length gs) RTC_INDEX_BUFFER slot fld]),
     Ok tt).
Proof.
  intros Hp. unfold store_triangle, Wg, set_scene. simpl.
  now rewrite lookup_newest, Hp, insert_newest.
Qed.

(** ** Filling a buffer chunk by chunk

    A loop whose iteration [k] turns the [c] blank slots after the first
    [c * k] into [chunk k] fills the whole buffer, unless a read fails on
    the way. *)

Lemma fill_loop_wp {T} (Wc : list T -> list event -> world) (blank : T)
    (c : nat) (body : Z -> M unit) (ok : nat -> Prop)
    (chunk : nat -> list T) (evs : nat -> list event) (n : nat)
    (Q : world -> result unit -> Prop) (lg : list event) :
  (forall k, length (chunk k) = c) ->
  (forall k done rest lg' (Q' : world -> result unit -> Prop),
      (k < n)%nat -> length done = (c * k)%nat ->
      (ok k -> Q' (Wc (done ++ chunk k ++ rest) (lg' ++ evs k)) (Ok tt)) ->
      (~ ok k -> lenient Q') ->
      wp (body (Z.of_nat k)) (Wc (done ++ replicate c blank ++ rest) lg') Q') ->
  ((forall k, (k < n)%nat -> ok k) ->
     Q (Wc (flat_map chunk (seq 0 n)) (lg ++ flat_map evs (seq 0 n)))
       (Ok tt)) ->
  (~ (forall k, (k < n)%nat -> ok k) -> lenient Q) ->
  wp (for_from 0 n body) (Wc (replicate (c * n) blank) lg) Q.
Proof.
  intros Hlen Hbody Hdone Hfail.
  assert (Hgen : forall m k0, (k0 + m = n)%nat ->
            (forall k, (k < k0)%nat -> ok k) ->
            wp (for_from (Z.of_nat k0) m body)
               (Wc (flat_map chunk (seq 0 k0) ++ replicate (c * m) blank)
                   (lg ++ flat_map evs (seq 0 k0))) Q).
  { induction m as [|m IH]; intros k0 Hk Hok.
    - simpl. apply wp_ret. rewrite Nat.mul_0_r. simpl. rewrite app_nil_r.
      replace k0 with n by lia. apply Hdone.
      intros k Hlt. apply Hok. lia.
    - simpl for_from. apply wp_bind.
      replace (c * S m)%nat with (c + c * m)%nat by lia.
      rewrite replicate_add.
      apply Hbody; [lia | now apply length_chunks | |].
      + intros Hk0. simpl.
        replace (Z.of_nat k0 + 1) with (Z.of_nat (S k0)) by lia.
        specialize (IH (S k0)).
        rewrite seq_S, !flat_map_app in IH. simpl in IH.
        rewrite !app_nil_r, <- !app_assoc in IH.
        rewrite <- !app_assoc.
        apply IH; [lia|].
        intros k Hlt. destruct (decide (k = k0)) as [->|]; [auto|].
        apply Hok. lia.
      + intros Hk0. apply lenient_on_ok, Hfail.
        intros Hall. apply Hk0, Hall. lia. }
  specialize (Hgen n 0%nat). simpl in Hgen. rewrite app_nil_r in Hgen.
  apply Hgen; [lia|]. intros k Hlt. lia.
Qed.

Lemma wp_read_indices r i k (vas : list (ndarray scalar))
    (ias : list (ndarray Z)) (gs : list geometry) g lg
    (Q : world -> result Z -> Prop) :
  Q (Wg vas ias gs g lg) (iitem ias r i k) ->
  wp (read_indices r i k) (Wg vas ias gs g lg) Q.
Proof. auto. Qed.

Lemma wp_read_vertices r idx (vas : list (ndarray scalar))
    (ias : list (ndarray Z)) (gs : list geometry) g lg
    (Q : world -> result coord -> Prop) :
  Q (Wg vas ias gs g lg) (vitem to_float vas r idx) ->
  wp (read_vertices to_float r idx) (Wg vas ias gs g lg) Q.
Proof. auto. Qed.

(** ** One slot *)

Lemma store_face_wp src slot i a b c (vas : list (ndarray scalar))
    (ias : list (ndarray Z)) (gs : list geometry) fl nt nv vb done rest
    mv mi lg (Q : world -> result unit -> Prop) :
  Z.of_nat (length done) = slot ->
  (face_ok ias src i (a, b, c) ->
   Q (Wg vas ias gs
        (mkGeometry fl nt nv vb
           ((done ++ [triangle_of_face ias src i (a, b, c)]) ++ rest) mv mi)
        (lg ++ triangle_stores (length gs) slot)) (Ok tt)) ->
  (~ face_ok ias src i (a, b, c) -> lenient Q) ->
  wp (store_face src (mkPointer (length gs) RTC_INDEX_BUFFER) slot i a b c)
     (Wg vas ias gs
        (mkGeometry fl nt nv vb (done ++ blank_triangle :: rest) mv mi) lg)
     Q.
Proof.
  intros Hslot Hok Hfail. unfold store_face, face_ok, triangle_of_face in *.
  apply wp_bind, wp_read_indices.
  destruct (iitem ias src i a) as [ea| |] eqn:Ha; simpl;
    [|apply Hfail; simpl; tauto ..].
  apply wp_bind. eapply wp_run;
    [apply store_triangle_run; simpl; now apply poke_middle|]. simpl.
  apply wp_bind, wp_read_indices.
  destruct (iitem ias src i b) as [eb| |] eqn:Hb; simpl;
    [|apply Hfail; simpl; tauto ..].
  apply wp_bind. eapply wp_run;
    [apply store_triangle_run; simpl; now apply poke_last|]. simpl.
  apply wp_bind, wp_read_indices.
  destruct (iitem ias src i c) as [ec| |] eqn:Hc; simpl;
    [|apply Hfail; simpl; tauto ..].
  eapply wp_run;
    [apply store_triangle_run; simpl; now apply poke_last|]. simpl.
  unfold triangle_stores in Hok. rewrite <- !app_assoc. simpl.
  rewrite <- !app_assoc in Hok. simpl in Hok. apply Hok. tauto.
Qed.

Lemma store_row_wp src slot ix iy iz (vas : list (ndarray scalar))
    (ias : list (ndarray Z)) (gs : list geometry) fl nt nv ib done rest
    mv mi lg (Q : world -> result unit -> Prop) :
  let p := mkPointer (length gs) RTC_VERTEX_BUFFER in
  let oks := is_ok (vitem to_float vas src ix)
             /\ is_ok (vitem to_float vas src iy)
             /\ is_ok (vitem to_float vas src iz) in
  Z.of_nat (length done) = slot ->
  (oks ->
   Q (Wg vas ias gs
        (mkGeometry fl nt nv
           ((done ++ [mkVertex (to_opt (vitem to_float vas src ix))
                        (to_opt (vitem to_float vas src iy))
                        (to_opt (vitem to_float vas src iz))]) ++ rest)
           ib mv mi)
        (lg ++ vertex_stores (length gs) slot)) (Ok tt)) ->
  (~ oks -> lenient Q) ->
  wp (bind (read_vertices to_float src ix) (fun c =>
      bind (store_x p slot c) (fun _ =>
      bind (read_vertices to_float src iy) (fun c =>
      bind (store_y p slot c) (fun _ =>
      bind (read_vertices to_float src iz) (fun c =>
      store_z p slot c))))))
     (Wg vas ias gs
        (mkGeometry fl nt nv (done ++ blank_vertex :: rest) ib mv mi) lg)
     Q.
Proof.
  intros p oks Hslot Hok Hfail. subst p oks.
  apply wp_bind, wp_read_vertices.
  destruct (vitem to_float vas src ix) as [cx| |] eqn:Hx; simpl;
    [|apply Hfail; simpl; tauto ..].
  apply wp_bind. eapply wp_run;
    [apply store_vertex_run; simpl; now apply poke_middle|]. simpl.
  apply wp_bind, wp_read_vertices.
  destruct (vitem to_float vas src iy) as [cy| |] eqn:Hy; simpl;
    [|apply Hfail; simpl; tauto ..].
  apply wp_bind. eapply wp_run;
    [apply store_vertex_run; simpl; now apply poke_last|]. simpl.
  apply wp_bind, wp_read_vertices.
  destruct (vitem to_float vas src iz) as [cz| |] eqn:Hz; simpl;
    [|apply Hfail; simpl; tauto ..].
  eapply wp_run;
    [apply store_vertex_run; simpl; now apply poke_last|]. simpl.
  unfold vertex_stores in Hok. rewrite <- !app_assoc. simpl.
  rewrite <- !app_assoc in Hok. simpl in Hok. apply Hok. simpl. tauto.
Qed.

(** ** The loops *)

Ltac eval_of_nat H :=
  repeat match type of H with
         | context [Z.of_nat O] => change (Z.of_nat O) with 0 in H
         | context [Z.of_nat (S ?n)] =>
             let v := eval compute in (Z.of_nat (S n)) in
             change (Z.of_nat (S n)) with v in H
         end.

Ltac face_step Hfail :=
  apply store_face_wp;
  [ rewrite ?length_app; cbn [length]; lia
  | intros ?
  | let Hn := fresh "Hn" in
    let Hall := fresh "Hall" in
    intros Hn; try apply lenient_on_ok; apply Hfail;
    intros Hall; apply Hn, Hall; cbn [In hex_faces tet_faces];
    repeat (first [left; reflexivity | right]) ].

Ltac run_with lem := eapply wp_run; [apply lem|]; cbn [on_ok].

Lemma copy_vertices_wp src nv (vas : list (ndarray scalar))
    (ias : list (ndarray Z)) (gs : list geometry) fl nt nvd ib mv mi lg
    (Q : world -> result unit -> Prop) :
  (rows_ok to_float vas src (Z.to_nat nv) ->
   Q (Wg vas ias gs
        (mkGeometry fl nt nvd
           (flat_map (row_chunk to_float vas src) (seq 0 (Z.to_nat nv)))
           ib mv mi)
        (lg ++ flat_map (slot_events (vertex_stores (length gs)) 1)
                 (seq 0 (Z.to_nat nv))))
     (Ok tt)) ->
  (~ rows_ok to_float vas src (Z.to_nat nv) -> lenient Q) ->
  wp (copy_vertices to_float src (mkPointer (length gs) RTC_VERTEX_BUFFER) nv)
     (Wg vas ias gs
        (mkGeometry fl nt nvd (replicate (Z.to_nat nv) blank_vertex)
           ib mv mi) lg)
     Q.
Proof.
  intros Hok Hfail. unfold copy_vertices, for_range.
  replace (replicate (Z.to_nat nv) (@blank_vertex coord))
    with (replicate (1 * Z.to_nat nv) (@blank_vertex coord))
    by now rewrite Nat.mul_1_l.
  apply (fill_loop_wp
           (fun vb lg' => Wg vas ias gs (mkGeometry fl nt nvd vb ib mv mi) lg')
           blank_vertex 1
           _ (fun k => row_ok to_float vas src (Z.of_nat k))
           (row_chunk to_float vas src)
           (slot_events (vertex_stores (length gs)) 1));
    [reflexivity | | exact Hok | exact Hfail].
  intros k done rest lg' Q' Hk Hdone HQ' HF. cbn [replicate app].
  apply store_row_wp; [lia | | exact HF].
  unfold slot_events in HQ'. cbn [flat_map seq] in HQ'.
  rewrite app_nil_r in HQ'. eval_of_nat HQ'.
  replace (1 * Z.of_nat k + 0) with (Z.of_nat k) in HQ' by lia.
  rewrite <- app_assoc. exact HQ'.
Qed.

Lemma _build_from_quads_wp rv ri nv ne (vas : list (ndarray scalar))
    (ias : list (ndarray Z)) (gs : list geometry) lg
    (Q : world -> result TriangleMesh -> Prop) :
  vshape vas rv 0 = Ok nv -> ishape ias ri 0 = Ok ne ->
  0 <= nv <= C.INT_MAX -> 0 <= ne -> 12 * ne <= C.INT_MAX ->
  (rows_ok to_float vas rv (Z.to_nat nv)
   /\ faces_ok hex_faces ias ri (Z.to_nat ne) ->
   Q (built vas ias gs lg (12 * ne) nv
        (flat_map (row_chunk to_float vas rv) (seq 0 (Z.to_nat nv)))
        (flat_map (faces_chunk hex_faces ias ri) (seq 0 (Z.to_nat ne)))
        (flat_map (slot_events (vertex_stores (length gs)) 1)
           (seq 0 (Z.to_nat nv)))
        (flat_map (slot_events (triangle_stores (length gs)) 12)
           (seq 0 (Z.to_nat ne))))
     (Ok (mesh_of (length gs)))) ->
  (~ (rows_ok to_float vas rv (Z.to_nat nv)
      /\ faces_ok hex_faces ias ri (Z.to_nat ne)) -> lenient Q) ->
  wp (_build_from_quads to_float rv ri) (mkWorld vas ias gs lg) Q.
Proof.
  intros Hv Hi Hnv Hne Hfit Hok Hfail. unfold _build_from_quads.
  unfold C.INT_MAX in *.
  apply wp_bind. eapply wp_run;
    [unfold shape_of_vertices; cbn [vertex_arrays]; now rewrite Hv|].
  cbn [on_ok]. apply wp_bind. eapply wp_run;
    [unfold shape_of_indices; cbn [index_arrays]; now rewrite Hi|].
  cbn [on_ok]. cbv zeta.
  rewrite (to_int_id nv), (to_int_id ne) by (unfold C.INT_MAX; lia).
  change (C.int_mul 6 2) with 12.
  rewrite (int_mul_id 12 ne) by (unfold C.INT_MAX; lia).
  rewrite !to_size_t_id by (unfold C.INT_MAX; lia).
  apply wp_bind. run_with rtcNewTriangleMesh_run.
  apply wp_bind. run_with rtcMapBuffer_run. cbn [set_mapped].
  apply wp_bind. apply copy_vertices_wp;
    [intros Hrows; cbn [on_ok]
    |intros Hn; apply lenient_on_ok, Hfail; tauto].
  apply wp_bind. run_with rtcUnmapBuffer_run. cbn [set_mapped].
  apply wp_bind. run_with rtcMapBuffer_run. cbn [set_mapped].
  apply wp_bind. unfold for_range.
  rewrite Z2Nat.inj_mul by lia. change (Z.to_nat 12) with 12%nat.
  apply (fill_loop_wp
           (fun ib lg' =>
              Wg vas ias gs
                (mkGeometry RTC_GEOMETRY_STATIC (12 * ne) nv
                   (flat_map (row_chunk to_float vas rv)
                      (seq 0 (Z.to_nat nv))) ib false true) lg')
           blank_triangle 12
           _ (fun k => forall f, In f hex_faces ->
                       face_ok ias ri (Z.of_nat k) f)
           (faces_chunk hex_faces ias ri)
           (slot_events (triangle_stores (length gs)) 12));
    [reflexivity | | |].
  - intros k done rest lg' Q' Hk Hdone HQ' HF. cbv beta zeta.
    rewrite int_mul_id by (unfold C.INT_MAX; lia).
    rewrite !int_add_id by (unfold C.INT_MAX; lia).
    cbn [replicate app].
    do 11 (apply wp_bind; face_step HF; cbn [on_ok]).
    face_step HF.
    unfold faces_chunk, slot_events in HQ'.
    cbn [map hex_faces flat_map seq app] in HQ'. rewrite app_nil_r in HQ'.
    rewrite <- !app_assoc. cbn [app].
    eval_of_nat HQ'.
    replace (12 * Z.of_nat k + 0) with (12 * Z.of_nat k) in HQ' by lia.
    apply HQ'. intros f Hin. simpl in Hin.
    repeat (destruct Hin as [<-|Hin]; [assumption|]). contradiction.
  - intros Hhex. cbn [on_ok].
    apply wp_bind. run_with rtcUnmapBuffer_run. cbn [set_mapped].
    apply wp_ret. unfold built in Hok. rewrite <- !app_assoc. cbn [app].
    cbn [app] in Hok. apply Hok. tauto.
  - intros Hn. apply lenient_on_ok, Hfail. tauto.
Qed.

Lemma _build_from_triangles_wp rv ri nv ne (vas : list (ndarray scalar))
    (ias : list (ndarray Z)) (gs : list geometry) lg
    (Q : world -> result TriangleMesh -> Prop) :
  vshape vas rv 0 = Ok nv -> ishape ias ri 0 = Ok ne ->
  0 <= nv <= C.INT_MAX -> 0 <= ne -> 4 * ne <= C.INT_MAX ->
  (rows_ok to_float vas rv (Z.to_nat nv)
   /\ faces_ok tet_faces ias ri (Z.to_nat ne) ->
   Q (built vas ias gs lg (4 * ne) nv
        (flat_map (row_chunk to_float vas rv) (seq 0 (Z.to_nat nv)))
        (flat_map (faces_chunk tet_faces ias ri) (seq 0 (Z.to_nat ne)))
        (flat_map (slot_events (vertex_stores (length gs)) 1)
           (seq 0 (Z.to_nat nv)))
        (flat_map (slot_events (triangle_stores (length gs)) 4)
           (seq 0 (Z.to_nat ne))))
     (Ok (mesh_of (length gs)))) ->
  (~ (rows_ok to_float vas rv (Z.to_nat nv)
      /\ faces_ok tet_faces ias ri (Z.to_nat ne)) -> lenient Q) ->
  wp (_build_from_triangles to_float rv ri) (mkWorld vas ias gs lg) Q.
Proof.
  intros Hv Hi Hnv Hne Hfit Hok Hfail. unfold _build_from_triangles.
  unfold C.INT_MAX in *.
  apply wp_bind. eapply wp_run;
    [unfold shape_of_vertices; cbn [vertex_arrays]; now rewrite Hv|].
  cbn [on_ok]. apply wp_bind. eapply wp_run;
    [unfold shape_of_indices; cbn [index_arrays]; now rewrite Hi|].
  cbn [on_ok]. cbv zeta.
  rewrite (to_int_id nv), (to_int_id ne) by (unfold C.INT_MAX; lia).
  rewrite (int_mul_id 4 ne) by (unfold C.INT_MAX; lia).
  rewrite !to_size_t_id by (unfold C.INT_MAX; lia).
  apply wp_bind. run_with rtcNewTriangleMesh_run.
  apply wp_bind. run_with rtcMapBuffer_run. cbn [set_mapped].
  apply wp_bind. apply copy_vertices_wp;
    [intros Hrows; cbn [on_ok]
    |intros Hn; apply lenient_on_ok, Hfail; tauto].
  apply wp_bind. run_with rtcUnmapBuffer_run. cbn [set_mapped].
  apply wp_bind. run_with rtcMapBuffer_run. cbn [set_mapped].
  apply wp_bind. unfold for_range.
  rewrite Z2Nat.inj_mul by lia. change (Z.to_nat 4) with 4%nat.
  apply (fill_loop_wp
           (fun ib lg' =>
              Wg vas ias gs
                (mkGeometry RTC_GEOMETRY_STATIC (4 * ne) nv
                   (flat_map (row_chunk to_float vas rv)
                      (seq 0 (Z.to_nat nv))) ib false true) lg')
           blank_triangle 4
           _ (fun k => forall f, In f tet_faces ->
                       face_ok ias ri (Z.of_nat k) f)
           (faces_chunk tet_faces ias ri)
           (slot_events (triangle_stores (length gs)) 4));
    [reflexivity | | |].
  - intros k done rest lg' Q' Hk Hdone HQ' HF. cbv beta zeta.
    rewrite int_mul_id by (unfold C.INT_MAX; lia).
    rewrite !int_add_id by (unfold C.INT_MAX; lia).
    cbn [replicate app].
    do 3 (apply wp_bind; face_step HF; cbn [on_ok]).
    face_step HF.
    unfold faces_chunk, slot_events in HQ'.
    cbn [map tet_faces flat_map seq app] in HQ'. rewrite app_nil_r in HQ'.
    rewrite <- !app_assoc. cbn [app].
    eval_of_nat HQ'.
    replace (4 * Z.of_nat k + 0) with (4 * Z.of_nat k) in HQ' by lia.
    apply HQ'. intros f Hin. simpl in Hin.
    repeat (destruct Hin as [<-|Hin]; [assumption|]). contradiction.
  - intros Hhex. cbn [on_ok].
    apply wp_bind. run_with rtcUnmapBuffer_run. cbn [set_mapped].
    apply wp_ret. unfold built in Hok. rewrite <- !app_assoc. cbn [app].
    cbn [app] in Hok. apply Hok. tauto.
  - intros Hn. apply lenient_on_ok, Hfail. tauto.
Qed.

Lemma _build_from_indices_wp rv ri nv nt (vas : list (ndarray scalar))
    (ias : list (ndarray Z)) (gs : list geometry) lg
    (Q : world -> result TriangleMesh -> Prop) :
  vshape vas rv 0 = Ok nv -> ishape ias ri 0 = Ok nt ->
  0 <= nv <= C.INT_MAX -> 0 <= nt <= C.INT_MAX ->
  (rows_ok to_float vas rv (Z.to_nat nv)
   /\ faces_ok [(0, 1, 2)] ias ri (Z.to_nat nt) ->
   Q (built vas ias gs lg nt nv
        (flat_map (row_chunk to_float vas rv) (seq 0 (Z.to_nat nv)))
        (flat_map (faces_chunk [(0, 1, 2)] ias ri) (seq 0 (Z.to_nat nt)))
        (flat_map (slot_events (vertex_stores (length gs)) 1)
           (seq 0 (Z.to_nat nv)))
        (flat_map (slot_events (triangle_stores (length gs)) 1)
           (seq 0 (Z.to_nat nt))))
     (Ok (mesh_of (length gs)))) ->
  (~ (rows_ok to_float vas rv (Z.to_nat nv)
      /\ faces_ok [(0, 1, 2)] ias ri (Z.to_nat nt)) -> lenient Q) ->
  wp (_build_from_indices to_float rv ri) (mkWorld vas ias gs lg) Q.
Proof.
  intros Hv Hi Hnv Hnt Hok Hfail. unfold _build_from_indices.
  unfold C.INT_MAX in *.
  apply wp_bind. eapply wp_run;
    [unfold shape_of_vertices; cbn [vertex_arrays]; now rewrite Hv|].
  cbn [on_ok]. apply wp_bind. eapply wp_run;
    [unfold shape_of_indices; cbn [index_arrays]; now rewrite Hi|].
  cbn [on_ok]. cbv zeta.
  rewrite (to_int_id nv), (to_int_id nt) by (unfold C.INT_MAX; lia).
  rewrite !to_size_t_id by (unfold C.INT_MAX; lia).
  apply wp_bind. run_with rtcNewTriangleMesh_run.
  apply wp_bind. run_with rtcMapBuffer_run. cbn [set_mapped].
  apply wp_bind. apply copy_vertices_wp;
    [intros Hrows; cbn [on_ok]
    |intros Hn; apply lenient_on_ok, Hfail; tauto].
  apply wp_bind. run_with rtcUnmapBuffer_run. cbn [set_mapped].
  apply wp_bind. run_with rtcMapBuffer_run. cbn [set_mapped].
  apply wp_bind. unfold for_range.
  replace (replicate (Z.to_nat nt) blank_triangle)
    with (replicate (1 * Z.to_nat nt) blank_triangle)
    by now rewrite Nat.mul_1_l.
  apply (fill_loop_wp
           (fun ib lg' =>
              Wg vas ias gs
                (mkGeometry RTC_GEOMETRY_STATIC nt nv
                   (flat_map (row_chunk to_float vas rv)
                      (seq 0 (Z.to_nat nv))) ib false true) lg')
           blank_triangle 1
           _ (fun k => forall f, In f [(0, 1, 2)] ->
                       face_ok ias ri (Z.of_nat k) f)
           (faces_chunk [(0, 1, 2)] ias ri)
           (slot_events (triangle_stores (length gs)) 1));
    [reflexivity | | |].
  - intros k done rest lg' Q' Hk Hdone HQ' HF. cbv beta.
    cbn [replicate app].
    apply store_face_wp;
      [lia | intros Hf
      | intros Hn; apply HF; intros Hall; apply Hn, Hall; now left].
    unfold faces_chunk, slot_events in HQ'.
    cbn [map flat_map seq app] in HQ'. rewrite app_nil_r in HQ'.
    rewrite <- !app_assoc. cbn [app].
    eval_of_nat HQ'.
    replace (1 * Z.of_nat k + 0) with (Z.of_nat k) in HQ' by lia.
    apply HQ'. intros f Hin. simpl in Hin.
    repeat (destruct Hin as [<-|Hin]; [assumption|]). contradiction.
  - intros Hhex. cbn [on_ok].
    apply wp_bind. run_with rtcUnmapBuffer_run. cbn [set_mapped].
    apply wp_ret. unfold built in Hok. rewrite <- !app_assoc. cbn [app].
    cbn [app] in Hok. apply Hok. tauto.
  - intros Hn. apply lenient_on_ok, Hfail. tauto.
Qed.

Lemma _build_from_flat_wp rv n (vas : list (ndarray scalar))
    (ias : list (ndarray Z)) (gs : list geometry) lg
    (Q : world -> result TriangleMesh -> Prop) :
  vshape vas rv 0 = Ok n -> 0 <= n -> 3 * n <= C.INT_MAX ->
  (corners_ok to_float vas rv (Z.to_nat n) ->
   Q (built vas ias gs lg n (3 * n)
        (flat_map (corner_chunk to_float vas rv) (seq 0 (Z.to_nat n)))
        (flat_map soup_chunk (seq 0 (Z.to_nat n)))
        (flat_map (slot_events (vertex_stores (length gs)) 3)
           (seq 0 (Z.to_nat n)))
        (flat_map (slot_events (triangle_stores (length gs)) 1)
           (seq 0 (Z.to_nat n))))
     (Ok (mesh_of (length gs)))) ->
  (~ corners_ok to_float vas rv (Z.to_nat n) -> lenient Q) ->
  wp (_build_from_flat to_float rv) (mkWorld vas ias gs lg) Q.
Proof.
  intros Hv Hn Hfit Hok Hfail. unfold _build_from_flat.
  unfold C.INT_MAX in *.
  apply wp_bind. eapply wp_run;
    [unfold shape_of_vertices; cbn [vertex_arrays]; now rewrite Hv|].
  cbn [on_ok]. cbv zeta.
  rewrite (to_int_id n) by (unfold C.INT_MAX; lia).
  rewrite (int_mul_id n 3) by (unfold C.INT_MAX; lia).
  rewrite !to_size_t_id by (unfold C.INT_MAX; lia).
  replace (n * 3) with (3 * n) by lia.
  apply wp_bind. run_with rtcNewTriangleMesh_run.
  apply wp_bind. run_with rtcMapBuffer_run. cbn [set_mapped].
  apply wp_bind. unfold for_range at 1.
  rewrite Z2Nat.inj_mul by lia. change (Z.to_nat 3) with 3%nat.
  apply (fill_loop_wp
           (fun vb lg' =>
              Wg vas ias gs
                (mkGeometry RTC_GEOMETRY_STATIC n (3 * n) vb
                   (replicate (Z.to_nat n) blank_triangle) true false) lg')
           blank_vertex 3
           _ (fun k => corner_ok to_float vas rv (Z.of_nat k) 0
                       /\ corner_ok to_float vas rv (Z.of_nat k) 1
                       /\ corner_ok to_float vas rv (Z.of_nat k) 2)
           (corner_chunk to_float vas rv)
           (slot_events (vertex_stores (length gs)) 3));
    [reflexivity | | |].
  - intros k done rest lg' Q' Hk Hdone HQ' HF. cbv beta.
    unfold for_range. change (Z.to_nat 3) with 3%nat. cbn [for_from].
    change (0 + 1) with 1. change (1 + 1) with 2.
    rewrite (int_mul_id (Z.of_nat k) 3) by (unfold C.INT_MAX; lia).
    rewrite !int_add_id by (unfold C.INT_MAX; lia).
    cbn [replicate app].
    apply wp_bind. apply store_row_wp;
      [rewrite ?length_app; cbn [length]; lia | intros H0; cbn [on_ok]
      | intros Hx; apply lenient_on_ok, HF; unfold corner_ok; tauto].
    apply wp_bind. apply store_row_wp;
      [rewrite ?length_app; cbn [length]; lia | intros H1; cbn [on_ok]
      | intros Hx; apply lenient_on_ok, HF; unfold corner_ok; tauto].
    apply wp_bind. apply store_row_wp;
      [rewrite ?length_app; cbn [length]; lia | intros H2; cbn [on_ok]
      | intros Hx; apply lenient_on_ok, HF; unfold corner_ok; tauto].
    apply wp_ret.
    unfold corner_chunk, vertex_of_corner, slot_events in HQ'.
    cbn [flat_map seq app] in HQ'. rewrite app_nil_r in HQ'.
    rewrite <- !app_assoc. cbn [app].
    eval_of_nat HQ'.
    replace (3 * Z.of_nat k + 0) with (Z.of_nat k * 3 + 0) in HQ' by lia.
    replace (3 * Z.of_nat k + 1) with (Z.of_nat k * 3 + 1) in HQ' by lia.
    replace (3 * Z.of_nat k + 2) with (Z.of_nat k * 3 + 2) in HQ' by lia.
    apply HQ'. unfold corner_ok. tauto.
  - intros Hcorners. cbn [on_ok].
    apply wp_bind. run_with rtcUnmapBuffer_run. cbn [set_mapped].
    apply wp_bind. run_with rtcMapBuffer_run. cbn [set_mapped].
    apply wp_bind. unfold for_range.
    replace (replicate (Z.to_nat n) blank_triangle)
      with (replicate (1 * Z.to_nat n) blank_triangle)
      by now rewrite Nat.mul_1_l.
    apply (fill_loop_wp
             (fun ib lg' =>
                Wg vas ias gs
                  (mkGeometry RTC_GEOMETRY_STATIC n (3 * n)
                     (flat_map (corner_chunk to_float vas rv)
                        (seq 0 (Z.to_nat n))) ib false true) lg')
             blank_triangle 1
             _ (fun _ => True) soup_chunk
             (slot_events (triangle_stores (length gs)) 1));
      [reflexivity | | |].
    + intros k done rest lg' Q' Hk Hdone HQ' HF. cbv beta.
      rewrite (int_mul_id (Z.of_nat k) 3) by (unfold C.INT_MAX; lia).
      rewrite !int_add_id by (unfold C.INT_MAX; lia).
      rewrite !to_unsigned_int_id by (unfold C.INT_MAX; lia).
      cbn [replicate app]. unfold store_v0, store_v1, store_v2.
      apply wp_bind. eapply wp_run;
        [apply store_triangle_run; cbn [index_buffer];
         apply poke_middle; lia|].
      cbn [on_ok set_buffers flags numTriangles numVertices vertex_buffer
           index_buffer vertex_mapped index_mapped].
      apply wp_bind. eapply wp_run;
        [apply store_triangle_run; cbn [index_buffer];
         apply poke_last; lia|].
      cbn [on_ok set_buffers flags numTriangles numVertices vertex_buffer
           index_buffer vertex_mapped index_mapped].
      eapply wp_run;
        [apply store_triangle_run; cbn [index_buffer];
         apply poke_last; lia|].
      cbn [on_ok set_buffers flags numTriangles numVertices vertex_buffer
           index_buffer vertex_mapped index_mapped].
      unfold soup_chunk, slot_events, triangle_stores in HQ'.
      cbn [flat_map seq app] in HQ'. 
      rewrite <- !app_assoc. cbn [app v0 v1 v2 blank_triangle].
      eval_of_nat HQ'.
      replace (1 * Z.of_nat k + 0) with (Z.of_nat k) in HQ' by lia.
      replace (3 * Z.of_nat k) with (Z.of_nat k * 3 + 0) in HQ' by lia.
      replace (Z.of_nat k * 3 + 0 + 1) with (Z.of_nat k * 3 + 1) in HQ'
        by lia.
      replace (Z.of_nat k * 3 + 0 + 2) with (Z.of_nat k * 3 + 2) in HQ'
        by lia.
      apply HQ'. exact I.
    + intros _. cbn [on_ok].
      apply wp_bind. run_with rtcUnmapBuffer_run. cbn [set_mapped].
      apply wp_ret. unfold built in Hok. rewrite <- !app_assoc. cbn [app].
      cbn [app] in Hok. apply Hok. exact Hcorners.
    + intros Hx. exfalso. apply Hx. auto.
  - intros Hx. apply lenient_on_ok, Hfail. exact Hx.
Qed.

(** ** From the rules to runs *)

Lemma wp_total {A} (m : M A) (w wf : world) (a : A) (P : Prop) :
  (forall Q : world -> result A -> Prop,
      (P -> Q wf (Ok a)) -> (~ P -> lenient Q) -> wp m w Q) ->
  P -> m w = (wf, Ok a).
Proof.
  intros H HP.
  specialize (H (fun w' r => w' = wf /\ r = Ok a)). unfold wp in H.
  destruct (m w) as [w' r]. simpl in H.
  destruct H as [-> ->]; [auto | tauto | reflexivity].
Qed.

Lemma wp_partial {A} (m : M A) (w wf w' : world) (a a' : A) (P : Prop) :
  (forall Q : world -> result A -> Prop,
      (P -> Q wf (Ok a)) -> (~ P -> lenient Q) -> wp m w Q) ->
  m w = (w', Ok a') -> P /\ w' = wf /\ a' = a.
Proof.
  intros H Hrun.
  specialize (H (fun w'' r => is_ok r -> P /\ w'' = wf /\ r = Ok a)).
  unfold wp in H. rewrite Hrun in H. simpl in H.
  destruct H as (HP & -> & Ha).
  - intros HP _. auto.
  - intros _ w'' r Hr Hr'. contradiction.
  - exact I.
  - injection Ha as ->. auto.
Qed.

(** ** Reads of arrays of the documented shapes *)

Lemma norm_index_in (n i : Z) : 0 <= i < n -> norm_index n i = Some i.
Proof.
  intros H. unfold norm_index.
  rewrite (proj2 (Z.ltb_ge _ _)) by lia.
  rewrite (proj2 (Z.leb_le _ _)), (proj2 (Z.ltb_lt _ _)) by lia.
  reflexivity.
Qed.

Lemma vitem_row (vas : list (ndarray scalar)) r a n0 n1 i j :
  vas !! r = Some a -> shape a = [n0; n1] ->
  0 <= i < n0 -> 0 <= j < n1 ->
  vitem to_float vas r [i; j] = Ok (to_float (item a [i; j])).
Proof.
  intros Hr Hs Hi Hj. unfold vitem, getitem. rewrite Hr, Hs. simpl.
  now rewrite (norm_index_in n0 i), (norm_index_in n1 j) by lia.
Qed.

Lemma vitem_corner (vas : list (ndarray scalar)) r a n0 n1 n2 i j k :
  vas !! r = Some a -> shape a = [n0; n1; n2] ->
  0 <= i < n0 -> 0 <= j < n1 -> 0 <= k < n2 ->
  vitem to_float vas r [i; j; k] = Ok (to_float (item a [i; j; k])).
Proof.
  intros Hr Hs Hi Hj Hk. unfold vitem, getitem. rewrite Hr, Hs. simpl.
  now rewrite (norm_index_in n0 i), (norm_index_in n1 j),
    (norm_index_in n2 k) by lia.
Qed.

Lemma iitem_entry (ias : list (ndarray Z)) r a n0 n1 i k :
  ias !! r = Some a -> shape a = [n0; n1] ->
  0 <= i < n0 -> 0 <= k < n1 ->
  0 <= item a [i; k] <= C.INT_MAX ->
  iitem ias r i k = Ok (item a [i; k]).
Proof.
  intros Hr Hs Hi Hk Hv. unfold iitem, getitem. rewrite Hr, Hs. simpl.
  rewrite (norm_index_in n0 i) by lia. simpl.
  rewrite (norm_index_in n1 k) by lia. simpl.
  unfold as_int, C.INT_MIN.
  now rewrite (proj2 (Z.leb_le _ _)), (proj2 (Z.leb_le _ _)) by lia.
Qed.

Lemma index_word_entry (z : Z) :
  0 <= z <= C.INT_MAX -> index_word (Ok z) = Some z.
Proof.
  intros Hz. unfold index_word. simpl. now rewrite to_unsigned_int_id.
Qed.

Lemma vshape_dim (vas : list (ndarray scalar)) r a k d :
  vas !! r = Some a -> shape a !! k = Some d -> vshape vas r k = Ok d.
Proof. intros Hr Hs. unfold vshape. now rewrite Hr, Hs. Qed.

Lemma ishape_dim (ias : list (ndarray Z)) r a k d :
  ias !! r = Some a -> shape a !! k = Some d -> ishape ias r k = Ok d.
Proof. intros Hr Hs. unfold ishape. now rewrite Hr, Hs. Qed.

Lemma rows_ok_shape (vas : list (ndarray scalar)) r a nv :
  vas !! r = Some a -> shape a = [nv; 3] ->
  rows_ok to_float vas r (Z.to_nat nv).
Proof.
  intros Hr Hs k Hk. unfold row_ok.
  rewrite !(vitem_row vas r a nv 3) by (auto; lia). simpl. auto.
Qed.

Lemma faces_ok_shape faces (ias : list (ndarray Z)) r a ne d :
  ias !! r = Some a -> shape a = [ne; d] ->
  (forall f, In f faces ->
     let '(x, y, z) := f in 0 <= x < d /\ 0 <= y < d /\ 0 <= z < d) ->
  (forall i k, 0 <= i < ne -> 0 <= k < d ->
     0 <= item a [i; k] <= C.INT_MAX) ->
  faces_ok faces ias r (Z.to_nat ne).
Proof.
  intros Hr Hs Hf Hv k Hk [[x y] z] Hin. specialize (Hf _ Hin). simpl in Hf.
  unfold face_ok.
  rewrite !(iitem_entry ias r a ne d) by (auto; try apply Hv; lia).
  simpl. auto.
Qed.

Lemma lookup_singletons {A} (g : nat -> A) (n i : nat) :
  (i < n)%nat -> flat_map (fun k => [g k]) (seq 0 n) !! i = Some (g i).
Proof.
  intros Hi.
  pose proof (lookup_chunks (fun k => [g k]) 1 n i 0) as H.
  rewrite Nat.mul_1_l, Nat.add_0_r in H. now rewrite H by (auto; lia).
Qed.

(** ** The lowering rules *)

(** C4. Indexed construction: on a vertex array of shape [(nv, 3)] and an
    index array of shape [(nt, 3)] of entries from 0 to [INT_MAX], the
    zero-based indices that the [int] of the source holds, [TriangleMesh]
    succeeds, the geometry it adds to the scene is declared with [nt]
    triangles and [nv] vertices, slot [i] of the vertex buffer is row [i]
    of the vertex array (converted to single precision) and slot [i] of the
    index buffer is row [i] of the index array, for every [i]. *)
Theorem TriangleMesh_indexed_copies_verbatim
    (w : world) (rv ri : nat) (va : ndarray scalar) (ia : ndarray Z)
    (nv nt : Z) :
  vertex_arrays w !! rv = Some va -> index_arrays w !! ri = Some ia ->
  shape va = [nv; 3] -> shape ia = [nt; 3] ->
  0 <= nv <= C.INT_MAX -> 0 <= nt <= C.INT_MAX ->
  (forall i k, 0 <= i < nt -> 0 <= k < 3 ->
     0 <= item ia [i; k] <= C.INT_MAX) ->
  exists w' g,
    TriangleMesh_init to_float rv (Some ri) w
    = (w', Ok (mesh_of (length (geoms w))))
    /\ geoms w' = geoms w ++ [g]
    /\ numTriangles g = nt /\ numVertices g = nv
    /\ length (vertex_buffer g) = Z.to_nat nv
    /\ length (index_buffer g) = Z.to_nat nt
    /\ (forall i, 0 <= i < nv ->
          vertex_buffer g !! Z.to_nat i
          = Some (mkVertex (Some (to_float (item va [i; 0])))
                           (Some (to_float (item va [i; 1])))
                           (Some (to_float (item va [i; 2])))))
    /\ (forall i, 0 <= i < nt ->
          index_buffer g !! Z.to_nat i
          = Some (mkTriangle (Some (item ia [i; 0])) (Some (item ia [i; 1]))
                             (Some (item ia [i; 2])))).
Proof.
  intros Hva Hia Hsv Hsi Hnv Hnt Hfit.
  destruct w as [vas ias gs lg]. simpl in *.
  eexists. eexists. split.
  { apply wp_total with
      (P := rows_ok to_float vas rv (Z.to_nat nv)
            /\ faces_ok [(0, 1, 2)] ias ri (Z.to_nat nt)).
    - intros Q. apply _build_from_indices_wp; auto.
      + apply vshape_dim with va; auto. now rewrite Hsv.
      + apply ishape_dim with ia; auto. now rewrite Hsi.
    - split; [now apply rows_ok_shape with va|].
      apply faces_ok_shape with ia 3; auto.
      intros f [<-|[]]. lia. }
  simpl. split; [reflexivity|]. simpl.
  split; [reflexivity|]. split; [reflexivity|].
  split; [rewrite (length_chunks _ 1); [lia|reflexivity]|].
  split; [rewrite (length_chunks _ 1); [lia|reflexivity]|].
  split.
  - intros i Hi. unfold row_chunk.
    rewrite lookup_singletons by lia. unfold vertex_of_row.
    rewrite Z2Nat.id by lia.
    now rewrite !(vitem_row vas rv va nv 3) by (auto; lia).
  - intros i Hi. unfold faces_chunk. cbn [map].
    rewrite (lookup_singletons
               (fun k => triangle_of_face ias ri (Z.of_nat k) (0, 1, 2)))
      by lia.
    unfold triangle_of_face. rewrite Z2Nat.id by lia.
    rewrite !(iitem_entry ias ri ia nt 3) by (auto; try apply Hfit; lia).
    now rewrite !index_word_entry by (apply Hfit; lia).
Qed.

Lemma ElementMesh_init_quads (w : world) rv ri :
  ishape (index_arrays w) ri 1 = Ok 8 ->
  ElementMesh_init to_float rv ri w = _build_from_quads to_float rv ri w.
Proof.
  intros H. unfold ElementMesh_init, bind at 1, shape_of_indices.
  now rewrite H.
Qed.

Lemma ElementMesh_init_triangles (w : world) rv ri :
  ishape (index_arrays w) ri 1 = Ok 4 ->
  ElementMesh_init to_float rv ri w
  = _build_from_triangles to_float rv ri w.
Proof.
  intros H. unfold ElementMesh_init, bind at 1, shape_of_indices.
  now rewrite H.
Qed.








(** ** What every run keeps *)

Lemma keeps_bind (P : world -> Prop) {A B} (m : M A) (f : A -> M B) :
  keeps P m -> (forall a, keeps P (f a)) -> keeps P (bind m f).
Proof.
  intros Hm Hf w HP. unfold bind. specialize (Hm w HP).
  destruct (m w) as [w' [a| |]]; simpl in *; auto. now apply Hf.
Qed.

Lemma keeps_ret (P : world -> Prop) {A} (a : A) : keeps P (ret a).
Proof. intros w HP. exact HP. Qed.

Lemma keeps_raise (P : world -> Prop) {A} (e : exn) : keeps P (@raise _ _ A e).
Proof. intros w HP. exact HP. Qed.

Lemma keeps_for_from (P : world -> Prop) (body : Z -> M unit) n :
  (forall i, keeps P (body i)) -> forall i, keeps P (for_from i n body).
Proof.
  intros Hb. induction n as [|n IH]; intros i; simpl.
  - apply keeps_ret.
  - apply keeps_bind; auto.
Qed.

Lemma keeps_for_range (P : world -> Prop) (body : Z -> M unit) n :
  (forall i, keeps P (body i)) -> keeps P (for_range n body).
Proof. intros Hb. now apply keeps_for_from. Qed.

Lemma keeps_shape_of_vertices (P : world -> Prop) r k :
  keeps P (shape_of_vertices r k).
Proof. intros w HP. exact HP. Qed.

Lemma keeps_shape_of_indices (P : world -> Prop) r k :
  keeps P (shape_of_indices r k).
Proof. intros w HP. exact HP. Qed.

Lemma keeps_read_vertices (P : world -> Prop) r idx :
  keeps P (read_vertices to_float r idx).
Proof. intros w HP. exact HP. Qed.

Lemma keeps_read_indices (P : world -> Prop) r i k :
  keeps P (read_indices r i k).
Proof. intros w HP. exact HP. Qed.

Lemma keeps_rtcNewTriangleMesh (P : world -> Prop) fl nt nv ts :
  grows P -> keeps P (rtcNewTriangleMesh fl nt nv ts).
Proof. intros HP w Hw. apply HP, Hw. Qed.

Lemma keeps_rtcMapBuffer (P : world -> Prop) m k :
  stable P -> keeps P (rtcMapBuffer m k).
Proof.
  intros HP w Hw. unfold rtcMapBuffer.
  destruct (geoms w !! m); simpl; auto.
  apply HP; auto. apply length_insert.
Qed.

Lemma keeps_rtcUnmapBuffer (P : world -> Prop) m k :
  stable P -> keeps P (rtcUnmapBuffer m k).
Proof.
  intros HP w Hw. unfold rtcUnmapBuffer.
  destruct (geoms w !! m); simpl; auto.
  apply HP; auto. apply length_insert.
Qed.

Lemma keeps_store_vertex (P : world -> Prop) p slot fld f :
  stable P -> keeps P (store_vertex p slot fld f).
Proof.
  intros HP w Hw. unfold store_vertex.
  destruct (p_kind p), (geoms w !! p_mesh p) as [g|]; simpl; auto.
  destruct (poke slot f (vertex_buffer g)); simpl; auto.
  apply HP; auto. apply length_insert.
Qed.

Lemma keeps_store_triangle (P : world -> Prop) p slot fld f :
  stable P -> keeps P (store_triangle p slot fld f).
Proof.
  intros HP w Hw. unfold store_triangle.
  destruct (p_kind p), (geoms w !! p_mesh p) as [g|]; simpl; auto.
  destruct (poke slot f (index_buffer g)); simpl; auto.
  apply HP; auto. apply length_insert.
Qed.

Create HintDb keeps.

#[local] Hint Resolve keeps_ret keeps_raise keeps_for_range
  keeps_shape_of_vertices keeps_shape_of_indices keeps_read_vertices
  keeps_read_indices keeps_rtcMapBuffer keeps_rtcUnmapBuffer
  keeps_store_vertex keeps_store_triangle : keeps.

Ltac keeps_steps :=
  repeat first
    [ apply keeps_bind; [|intros ?]
    | apply keeps_for_range; intros ?
    | progress (unfold store_face, copy_vertices, store_x, store_y, store_z,
                store_v0, store_v1, store_v2)
    | solve [auto with keeps] ].

Lemma keeps_copy_vertices (P : world -> Prop) src p nv :
  stable P -> keeps P (copy_vertices to_float src p nv).
Proof. intros HP. keeps_steps. Qed.

Lemma keeps_store_face (P : world -> Prop) src p slot i a b c :
  stable P -> keeps P (store_face src p slot i a b c).
Proof. intros HP. keeps_steps. Qed.

Lemma keeps_construct (P : world -> Prop) c :
  stable P -> grows P -> keeps P (construct to_float c).
Proof.
  intros HP HG.
  pose proof (keeps_rtcNewTriangleMesh P) as HN.
  destruct c as [v [i|]|v i]; simpl;
    unfold TriangleMesh_init, ElementMesh_init, _build_from_flat,
      _build_from_indices.
  - keeps_steps.
  - keeps_steps.
  - apply keeps_bind; [auto with keeps|]. intros d.
    destruct (d =? 8); [|destruct (d =? 4)];
      unfold _build_from_quads, _build_from_triangles; keeps_steps.
Qed.

Lemma wp_keeps (P : world -> Prop) {A} (m : M A) (w : world)
    (Q : world -> result A -> Prop) :
  keeps P m -> P w -> (forall w' r, P w' -> Q w' r) -> wp m w Q.
Proof. intros Hm Hw HQ. apply HQ, Hm, Hw. Qed.

(** C10. A construction only reads the caller's arrays: whatever the
    inputs and however the construction ends, the vertex arrays and the
    index arrays of the world are the ones it started with. *)
Theorem construction_leaves_input_arrays (w : world) (c : construction) :
  vertex_arrays (fst (construct to_float c w)) = vertex_arrays w
  /\ index_arrays (fst (construct to_float c w)) = index_arrays w.
Proof.
  apply (keeps_construct
           (fun w' => vertex_arrays w' = vertex_arrays w
                      /\ index_arrays w' = index_arrays w)).
  - intros w0 gs ev _ H. exact H.
  - intros w0 g ev H. exact H.
  - split; reflexivity.
Qed.

(** C5. An index array whose second dimension is neither 4 nor 8 makes
    [ElementMesh] raise [NotImplementedError] (the spec's
    UnsupportedElementArity) with the world as it was: no geometry has
    been allocated, no buffer acquired, nothing logged. *)
Theorem ElementMesh_rejects_other_arity
    (w : world) (rv ri : nat) (ia : ndarray Z) (d : Z) :
  index_arrays w !! ri = Some ia -> shape ia !! 1%nat = Some d ->
  d <> 4 -> d <> 8 ->
  ElementMesh_init to_float rv ri w = (w, Raise NotImplementedError).
Proof.
  intros Hia Hd H4 H8. unfold ElementMesh_init, bind, shape_of_indices.
  rewrite (ishape_dim _ _ _ _ _ Hia Hd).
  rewrite (proj2 (Z.eqb_neq _ _) H8), (proj2 (Z.eqb_neq _ _) H4).
  reflexivity.
Qed.

(** ** Errors of the builders *)

Lemma vshape_no_raise (vas : list (ndarray scalar)) r k e :
  vshape vas r k <> Raise e.
Proof.
  unfold vshape. destruct (vas !! r) as [a|]; [|discriminate].
  destruct (shape a !! k); discriminate.
Qed.

Lemma ishape_no_raise (ias : list (ndarray Z)) r k e :
  ishape ias r k <> Raise e.
Proof.
  unfold ishape. destruct (ias !! r) as [a|]; [|discriminate].
  destruct (shape a !! k); discriminate.
Qed.

Lemma stable_allocated_since (w : world) : stable (allocated_since w).
Proof.
  intros w' gs ev Hlen (nt & nv & rest & Hlog & Hg).
  exists nt, nv, (rest ++ [ev]). simpl. split; [|congruence].
  rewrite Hlog. now rewrite <- app_assoc.
Qed.

Ltac shape_step :=
  apply wp_bind; unfold wp at 1;
  try unfold shape_of_vertices; try unfold shape_of_indices; cbn [fst snd];
  match goal with
  | |- on_ok _ _ _ ?r =>
      let E := fresh "E" in
      destruct r as [?d|?e|] eqn:E;
      [ cbn [on_ok]
      | exfalso;
        first [exact (vshape_no_raise _ _ _ _ E)
              |exact (ishape_no_raise _ _ _ _ E)]
      | exact I ]
  end.

Ltac alloc_steps w :=
  apply wp_bind; run_with rtcNewTriangleMesh_run;
  apply wp_bind; run_with rtcMapBuffer_run;
  apply (wp_keeps (allocated_since w));
  [ pose proof (stable_allocated_since w); keeps_steps
  | eexists; eexists; exists []; split;
    [cbn [log Wg]; rewrite <- app_assoc; reflexivity
    | cbn [geoms Wg]; rewrite length_app; cbn [length]; lia]
  | intros w' [a|e|] Hw'; cbn; auto ].

Lemma construct_after_allocation (w : world) (c : construction) :
  wp (construct to_float c) w (after_allocation w).
Proof.
  destruct w as [vas ias gs lg].
  destruct c as [v [i|]|v i]; cbn [construct TriangleMesh_init].
  - unfold _build_from_indices.
    shape_step.
    shape_step.
    cbv zeta. alloc_steps (mkWorld vas ias gs lg).
  - unfold _build_from_flat.
    shape_step.
    cbv zeta. alloc_steps (mkWorld vas ias gs lg).
  - unfold ElementMesh_init.
    shape_step.
    destruct (d =? 8); [|destruct (d =? 4)].
    + unfold _build_from_quads.
      shape_step.
      shape_step.
      cbv zeta. alloc_steps (mkWorld vas ias gs lg).
    + unfold _build_from_triangles.
      shape_step.
      shape_step.
      cbv zeta. alloc_steps (mkWorld vas ias gs lg).
    + cbn. intros H. now elim H.
Qed.

(** C7, as the code has it.  The constructors check no rank and no
    dimension before they use the arrays, apart from the arity test of
    [ElementMesh]: an exception other than that test's is raised by a read
    of the input during a fill, when the geometry has been allocated and
    its vertex buffer acquired. *)
Theorem shape_error_comes_after_allocation
    (w w' : world) (c : construction) (e : exn) :
  construct to_float c w = (w', Raise e) ->
  e <> NotImplementedError ->
  allocated_since w w'.
Proof.
  intros Hrun He.
  pose proof (construct_after_allocation w c) as H.
  unfold wp in H. rewrite Hrun in H. simpl in H. auto.
Qed.

(** ** The vertex buffer after the index buffer is filled *)

Lemma has_vertices_insert m nv vb (w : world) m' g g' gs ev :
  geoms w !! m' = Some g ->
  numVertices g' = numVertices g -> vertex_buffer g' = vertex_buffer g ->
  gs = <[m' := g']> (geoms w) ->
  has_vertices m nv vb w -> has_vertices m nv vb (set_scene w gs ev).
Proof.
  intros Hg Hn Hv -> (g0 & Hm & Hnv & Hvb). unfold has_vertices. simpl.
  destruct (decide (m' = m)) as [->|Hne].
  - exists g'. rewrite list_lookup_insert_eq by (eapply lookup_lt_Some; eauto).
    split; [reflexivity|]. rewrite Hm in Hg. injection Hg as <-.
    split; congruence.
  - exists g0. now rewrite list_lookup_insert_ne by auto.
Qed.

Lemma keeps_has_vertices_map m nv vb m' k :
  keeps (@has_vertices scalar coord m nv vb) (rtcMapBuffer m' k).
Proof.
  intros w Hw. unfold rtcMapBuffer.
  destruct (geoms w !! m') as [g|] eqn:Hg; simpl; auto.
  apply (has_vertices_insert m nv vb w m' g (set_mapped g k true) _ _ Hg);
    [now destruct k | now destruct k | reflexivity | exact Hw].
Qed.

Lemma keeps_has_vertices_unmap m nv vb m' k :
  keeps (@has_vertices scalar coord m nv vb) (rtcUnmapBuffer m' k).
Proof.
  intros w Hw. unfold rtcUnmapBuffer.
  destruct (geoms w !! m') as [g|] eqn:Hg; simpl; auto.
  apply (has_vertices_insert m nv vb w m' g (set_mapped g k false) _ _ Hg);
    [now destruct k | now destruct k | reflexivity | exact Hw].
Qed.

Lemma keeps_has_vertices_store m nv vb p slot fld f :
  keeps (@has_vertices scalar coord m nv vb) (store_triangle p slot fld f).
Proof.
  intros w Hw. unfold store_triangle.
  destruct (p_kind p), (geoms w !! p_mesh p) as [g|] eqn:Hg; simpl; auto.
  destruct (poke slot f (index_buffer g)) as [ib|]; simpl; auto.
  apply (has_vertices_insert m nv vb w (p_mesh p) g
           (set_buffers g (vertex_buffer g) ib) _ _ Hg);
    [reflexivity | reflexivity | reflexivity | exact Hw].
Qed.

Ltac vertices_kept :=
  pose proof keeps_has_vertices_map;
  pose proof keeps_has_vertices_unmap;
  pose proof keeps_has_vertices_store;
  keeps_steps.

Lemma element_vertices_wp (w : world) rv ri va ia nv ne d :
  vertex_arrays w !! rv = Some va -> index_arrays w !! ri = Some ia ->
  shape va = [nv; 3] -> shape ia = [ne; d] -> d = 4 \/ d = 8 ->
  0 <= nv <= C.INT_MAX ->
  wp (ElementMesh_init to_float rv ri) w
     (fun w' _ =>
        has_vertices (length (geoms w)) nv
          (flat_map (row_chunk to_float (vertex_arrays w) rv)
             (seq 0 (Z.to_nat nv))) w').
Proof.
  intros Hva Hia Hsv Hsi Hd Hnv.
  destruct w as [vas ias gs lg]. cbn [vertex_arrays index_arrays geoms] in *.
  assert (Hv0 : vshape vas rv 0 = Ok nv)
    by (apply vshape_dim with va; auto; now rewrite Hsv).
  assert (Hi0 : ishape ias ri 0 = Ok ne)
    by (apply ishape_dim with ia; auto; now rewrite Hsi).
  assert (Hi1 : ishape ias ri 1 = Ok d)
    by (apply ishape_dim with ia; auto; now rewrite Hsi).
  assert (Hrows : rows_ok to_float vas rv (Z.to_nat nv))
    by now apply rows_ok_shape with va.
  unfold ElementMesh_init.
  apply wp_bind. eapply wp_run;
    [unfold shape_of_indices; cbn [index_arrays]; now rewrite Hi1|].
  cbn [on_ok].
  destruct Hd as [-> | ->]; cbn [Z.eqb Pos.eqb];
    unfold _build_from_triangles, _build_from_quads;
    (apply wp_bind; eapply wp_run;
       [unfold shape_of_vertices; cbn [vertex_arrays]; now rewrite Hv0|];
     cbn [on_ok]; apply wp_bind; eapply wp_run;
       [unfold shape_of_indices; cbn [index_arrays]; now rewrite Hi0|];
     cbn [on_ok]; cbv zeta;
     rewrite (to_int_id nv) by lia;
     rewrite (to_size_t_id nv) by lia;
     apply wp_bind; run_with rtcNewTriangleMesh_run;
     apply wp_bind; run_with rtcMapBuffer_run; cbn [set_mapped];
     apply wp_bind; apply copy_vertices_wp; [intros _; cbn [on_ok]|tauto];
     apply (wp_keeps
              (has_vertices (length gs) nv
                 (flat_map (row_chunk to_float vas rv)
                    (seq 0 (Z.to_nat nv)))));
     [ vertices_kept
     | eexists; split; [apply lookup_newest|split; reflexivity]
     | auto ]).
Qed.

(** C9. In both decompositions of [ElementMesh] the vertex buffer is the
    vertex array, row by row: on a vertex array of shape [(nv, 3)] and an
    index array of four or eight columns, the geometry the construction
    adds is declared with [nv] vertices and has an [nv]-slot vertex buffer
    whose slot [i] is row [i] of the array (converted to single
    precision), whatever the index array holds. *)
Theorem ElementMesh_vertex_buffer_is_input
    (w : world) (rv ri : nat) (va : ndarray scalar) (ia : ndarray Z)
    (nv ne d : Z) :
  vertex_arrays w !! rv = Some va -> index_arrays w !! ri = Some ia ->
  shape va = [nv; 3] -> shape ia = [ne; d] -> d = 4 \/ d = 8 ->
  0 <= nv <= C.INT_MAX ->
  exists g,
    geoms (fst (ElementMesh_init to_float rv ri w)) !! length (geoms w)
    = Some g
    /\ numVertices g = nv
    /\ length (vertex_buffer g) = Z.to_nat nv
    /\ (forall i, 0 <= i < nv ->
          vertex_buffer g !! Z.to_nat i
          = Some (mkVertex (Some (to_float (item va [i; 0])))
                           (Some (to_float (item va [i; 1])))
                           (Some (to_float (item va [i; 2]))))).
Proof.
  intros Hva Hia Hsv Hsi Hd Hnv.
  pose proof (element_vertices_wp w rv ri va ia nv ne d
                Hva Hia Hsv Hsi Hd Hnv) as (g & Hg & Hn & Hvb).
  exists g. split; [exact Hg|]. split; [exact Hn|]. rewrite Hvb. split.
  - rewrite (length_chunks _ 1); [lia|reflexivity].
  - intros i Hi. unfold row_chunk.
    rewrite lookup_singletons by lia. unfold vertex_of_row.
    rewrite Z2Nat.id by lia.
    now rewrite !(vitem_row (vertex_arrays w) rv va nv 3) by (auto; lia).
Qed.

End Lowering.

(** ** The protocol on the log of a finished construction *)

Lemma count_events_app p (l1 l2 : list event) :
  count_events p (l1 ++ l2) = (count_events p l1 + count_events p l2)%nat.
Proof. induction l1 as [|ev l1 IH]; simpl; [reflexivity|]. rewrite IH. lia. Qed.

Lemma count_events_none p (q : event -> bool) (l : list event) :
  (forall ev, q ev = true -> p ev = false) ->
  Forall (fun ev => q ev = true) l -> count_events p l = 0%nat.
Proof.
  intros Hpq H. induction H as [|ev l Hev _ IH]; simpl; [reflexivity|].
  now rewrite (Hpq _ Hev), IH.
Qed.

Lemma same_buffer_refl m k : same_buffer m k m k = true.
Proof. unfold same_buffer. rewrite Nat.eqb_refl. now destruct k. Qed.

Lemma same_buffer_other m k m' k' : k <> k' -> same_buffer m k m' k' = false.
Proof.
  intros H. unfold same_buffer. destruct k, k'; try congruence;
    apply andb_false_r.
Qed.

Lemma touches_other m k m' k' slot fld :
  k <> k' -> touches m k (EvStore m' k' slot fld) = false.
Proof. intros H. unfold touches. simpl. now apply same_buffer_other. Qed.

Lemma touches_acquire_other m k m' k' :
  k <> k' -> touches m k (EvMapBuffer m' k') = false.
Proof.
  intros H. unfold touches. simpl. rewrite same_buffer_other by auto.
  reflexivity.
Qed.

Lemma touches_release_other m k m' k' :
  k <> k' -> touches m k (EvUnmapBuffer m' k') = false.
Proof.
  intros H. unfold touches. simpl. rewrite same_buffer_other by auto.
  reflexivity.
Qed.

Lemma Forall_slot_events (P : event -> Prop) (stores : Z -> list event) c n :
  (forall slot, Forall P (stores slot)) ->
  Forall P (flat_map (slot_events stores c) (seq 0 n)).
Proof.
  intros H. apply Forall_flat_map, Forall_forall. intros k _.
  apply Forall_flat_map, Forall_forall. intros t _. apply H.
Qed.

Lemma slot_events_cover (stores : Z -> list event) (c n : nat) slot ev :
  0 <= slot < Z.of_nat c * Z.of_nat n ->
  In ev (stores slot) ->
  In ev (flat_map (slot_events stores c) (seq 0 n)).
Proof.
  intros Hs Hev.
  assert (Hc : 0 < Z.of_nat c) by nia.
  apply in_flat_map. exists (Z.to_nat (slot / Z.of_nat c)). split.
  - apply in_seq. split; [lia|]. simpl.
    apply Nat2Z.inj_lt. rewrite Z2Nat.id by (apply Z.div_pos; lia).
    apply Z.div_lt_upper_bound; lia.
  - unfold slot_events. apply in_flat_map.
    exists (Z.to_nat (slot mod Z.of_nat c)). split.
    + apply in_seq. split; [lia|]. simpl.
      apply Nat2Z.inj_lt. rewrite Z2Nat.id by (apply Z.mod_pos_bound; lia).
      apply Z.mod_pos_bound. lia.
    + rewrite !Z2Nat.id
        by (try apply Z.div_pos; try apply Z.mod_pos_bound; lia).
      now rewrite <- Z.div_mod by lia.
Qed.

Lemma vertex_stores_are_stores m slot :
  Forall (fun ev => is_store m RTC_VERTEX_BUFFER ev = true)
         (vertex_stores m slot).
Proof.
  unfold vertex_stores. repeat constructor; simpl; apply same_buffer_refl.
Qed.

Lemma triangle_stores_are_stores m slot :
  Forall (fun ev => is_store m RTC_INDEX_BUFFER ev = true)
         (triangle_stores m slot).
Proof.
  unfold triangle_stores. repeat constructor; simpl; apply same_buffer_refl.
Qed.

Lemma vertex_stores_elsewhere m slot :
  Forall (fun ev => touches m RTC_INDEX_BUFFER ev = false)
         (vertex_stores m slot).
Proof.
  unfold vertex_stores. repeat constructor; now apply touches_other.
Qed.

Lemma triangle_stores_elsewhere m slot :
  Forall (fun ev => touches m RTC_VERTEX_BUFFER ev = false)
         (triangle_stores m slot).
Proof.
  unfold triangle_stores. repeat constructor; now apply touches_other.
Qed.

Lemma vertex_stores_fields m slot fld :
  In fld (fields_of RTC_VERTEX_BUFFER) ->
  In (EvStore m RTC_VERTEX_BUFFER slot fld) (vertex_stores m slot).
Proof. simpl. intros [<-|[<-|[<-|[]]]]; simpl; auto. Qed.

Lemma triangle_stores_fields m slot fld :
  In fld (fields_of RTC_INDEX_BUFFER) ->
  In (EvStore m RTC_INDEX_BUFFER slot fld) (triangle_stores m slot).
Proof. simpl. intros [<-|[<-|[<-|[]]]]; simpl; auto. Qed.

(** The log of a finished construction follows the protocol on both
    buffers. *)
Lemma built_log_protocol (m : nat) (ntri nvert : Z) (cv kv ci ki : nat) :
  nvert = Z.of_nat cv * Z.of_nat kv -> ntri = Z.of_nat ci * Z.of_nat ki ->
  let vev := flat_map (slot_events (vertex_stores m) cv) (seq 0 kv) in
  let iev := flat_map (slot_events (triangle_stores m) ci) (seq 0 ki) in
  let evs := [EvNewTriangleMesh m ntri nvert;
              EvMapBuffer m RTC_VERTEX_BUFFER] ++ vev
             ++ [EvUnmapBuffer m RTC_VERTEX_BUFFER;
                 EvMapBuffer m RTC_INDEX_BUFFER] ++ iev
             ++ [EvUnmapBuffer m RTC_INDEX_BUFFER] in
  buffer_protocol m RTC_VERTEX_BUFFER nvert evs
  /\ buffer_protocol m RTC_INDEX_BUFFER ntri evs.
Proof.
  intros Hnv Hnt vev iev evs.
  assert (Hvs : Forall (fun ev => is_store m RTC_VERTEX_BUFFER ev = true) vev)
    by apply Forall_slot_events, vertex_stores_are_stores.
  assert (His : Forall (fun ev => is_store m RTC_INDEX_BUFFER ev = true) iev)
    by apply Forall_slot_events, triangle_stores_are_stores.
  assert (Hvi : Forall (fun ev => touches m RTC_INDEX_BUFFER ev = false) vev)
    by apply Forall_slot_events, vertex_stores_elsewhere.
  assert (Hiv : Forall (fun ev => touches m RTC_VERTEX_BUFFER ev = false) iev)
    by apply Forall_slot_events, triangle_stores_elsewhere.
  assert (Hm : Nat.eqb m m = true) by apply Nat.eqb_refl.
  assert (Hacq : forall k ev, is_store m k ev = true ->
                            is_acquire m k ev = false)
    by (intros k [] H; simpl in *; congruence).
  assert (Hrel : forall k ev, is_store m k ev = true ->
                            is_release m k ev = false)
    by (intros k [] H; simpl in *; congruence).
  assert (Hacq' : forall k (ev : event),
             touches m k ev = false -> is_acquire m k ev = false).
  { intros k ev H. unfold touches in H.
    now destruct (is_acquire m k ev). }
  assert (Hrel' : forall k (ev : event),
             touches m k ev = false -> is_release m k ev = false).
  { intros k ev H. unfold touches in H.
    destruct (is_release m k ev); [|reflexivity].
    now rewrite orb_true_r in H. }
  assert (Hcount : forall p q (l : list event),
             (forall ev, q ev = false -> p ev = false) ->
             Forall (fun ev => q ev = false) l -> count_events p l = 0%nat).
  { intros p q l Hpq H. induction H as [|ev l Hev _ IH]; simpl; [easy|].
    now rewrite (Hpq _ Hev), IH. }
  split.
  - split; [|split].
    + subst evs. rewrite !count_events_app.
      rewrite (count_events_none _ _ vev (Hacq RTC_VERTEX_BUFFER) Hvs).
      rewrite (Hcount _ _ iev (Hacq' RTC_VERTEX_BUFFER) Hiv).
      simpl. unfold same_buffer. now rewrite Hm.
    + subst evs. rewrite !count_events_app.
      rewrite (count_events_none _ _ vev (Hrel RTC_VERTEX_BUFFER) Hvs).
      rewrite (Hcount _ _ iev (Hrel' RTC_VERTEX_BUFFER) Hiv).
      simpl. unfold same_buffer. now rewrite Hm.
    + exists [EvNewTriangleMesh m ntri nvert], vev,
        (EvMapBuffer m RTC_INDEX_BUFFER :: iev
         ++ [EvUnmapBuffer m RTC_INDEX_BUFFER]).
      split; [reflexivity|]. split; [now repeat constructor|].
      split; [exact Hvs|]. split.
      * constructor; [now apply touches_acquire_other|].
        apply Forall_app. split; [exact Hiv|].
        constructor; [|constructor]. now apply touches_release_other.
      * intros slot fld Hs Hf. subst vev.
        apply slot_events_cover with slot; [lia|].
        now apply vertex_stores_fields.
  - split; [|split].
    + subst evs. rewrite !count_events_app.
      rewrite (Hcount _ _ vev (Hacq' RTC_INDEX_BUFFER) Hvi).
      rewrite (count_events_none _ _ iev (Hacq RTC_INDEX_BUFFER) His).
      simpl. unfold same_buffer. now rewrite Hm.
    + subst evs. rewrite !count_events_app.
      rewrite (Hcount _ _ vev (Hrel' RTC_INDEX_BUFFER) Hvi).
      rewrite (count_events_none _ _ iev (Hrel RTC_INDEX_BUFFER) His).
      simpl. unfold same_buffer. now rewrite Hm.
    + exists ([EvNewTriangleMesh m ntri nvert;
               EvMapBuffer m RTC_VERTEX_BUFFER] ++ vev
              ++ [EvUnmapBuffer m RTC_VERTEX_BUFFER]), iev, [].
      split; [subst evs; now rewrite <- !app_assoc|].
      split.
      * apply Forall_app. split.
        { constructor; [reflexivity|]. constructor; [|constructor].
          now apply touches_acquire_other. }
        apply Forall_app. split; [exact Hvi|].
        constructor; [|constructor]. now apply touches_release_other.
      * split; [exact His|]. split; [constructor|].
        intros slot fld Hs Hf. subst iev.
        apply slot_events_cover with slot; [lia|].
        now apply triangle_stores_fields.
Qed.



Section Protocol.

Context {scalar coord : Type} (to_float : scalar -> coord).

Local Abbreviation world := (world scalar coord).
Local Abbreviation geometry := (geometry coord).
Local Abbreviation M := (M scalar coord).

Lemma built_follows_protocol (vas : list (ndarray scalar))
    (ias : list (ndarray Z)) (gs : list geometry) lg ntri nvert vb ib
    (cv kv ci ki : nat) (w' : world) :
  nvert = Z.of_nat cv * Z.of_nat kv -> ntri = Z.of_nat ci * Z.of_nat ki ->
  w' = built vas ias gs lg ntri nvert vb ib
         (flat_map (slot_events (vertex_stores (length gs)) cv) (seq 0 kv))
         (flat_map (slot_events (triangle_stores (length gs)) ci) (seq 0 ki)) ->
  exists g evs,
    geoms w' = gs ++ [g] /\ log w' = lg ++ evs
    /\ buffer_protocol (length gs) RTC_VERTEX_BUFFER (numVertices g) evs
    /\ buffer_protocol (length gs) RTC_INDEX_BUFFER (numTriangles g) evs
    /\ vertex_mapped g = false /\ index_mapped g = false.
Proof.
  intros Hnv Hnt ->. eexists. eexists.
  split; [reflexivity|]. split; [reflexivity|]. cbn [numVertices numTriangles].
  pose proof (built_log_protocol (length gs) ntri nvert cv kv ci ki Hnv Hnt)
    as [HV HI].
  split; [exact HV|]. split; [exact HI|]. split; reflexivity.
Qed.

Lemma shape_read_ok {A} (rd : world -> result Z) (f : Z -> M A)
    (w w' : world) (a : A) :
  bind (fun w0 => (w0, rd w0)) f w = (w', Ok a) ->
  exists d, rd w = Ok d /\ f d w = (w', Ok a).
Proof.
  unfold bind. destruct (rd w) as [d| |]; [eauto | discriminate ..].
Qed.

(** C6, as the code has it.  A construction that returns a mesh, on
    arrays whose numbers of rows fit a C [int], has acquired each buffer of
    the new geometry once and released it once, has stored every field of
    every slot of the buffer between the two, has not touched the buffer
    before the acquisition or after the release, and leaves neither buffer
    acquired. *)
Theorem returned_construction_follows_buffer_protocol
    (w w' : world) (c : construction) (msh : TriangleMesh) :
  counts_fit w c ->
  construct to_float c w = (w', Ok msh) ->
  exists g evs,
    msh = mesh_of (length (geoms w))
    /\ geoms w' = geoms w ++ [g] /\ log w' = log w ++ evs
    /\ buffer_protocol (mesh msh) RTC_VERTEX_BUFFER (numVertices g) evs
    /\ buffer_protocol (mesh msh) RTC_INDEX_BUFFER (numTriangles g) evs
    /\ vertex_mapped g = false /\ index_mapped g = false.
Proof.
  intros Hfit Hrun. destruct w as [vas ias gs lg].
  assert (Hgoal : forall ntri nvert vb ib cv kv ci ki,
             nvert = Z.of_nat cv * Z.of_nat kv ->
             ntri = Z.of_nat ci * Z.of_nat ki ->
             w' = built vas ias gs lg ntri nvert vb ib
                    (flat_map (slot_events (vertex_stores (length gs)) cv)
                       (seq 0 kv))
                    (flat_map (slot_events (triangle_stores (length gs)) ci)
                       (seq 0 ki)) ->
             msh = mesh_of (length gs) ->
             exists g evs,
               msh = mesh_of (length gs)
               /\ geoms w' = gs ++ [g] /\ log w' = lg ++ evs
               /\ buffer_protocol (mesh msh) RTC_VERTEX_BUFFER
                    (numVertices g) evs
               /\ buffer_protocol (mesh msh) RTC_INDEX_BUFFER
                    (numTriangles g) evs
               /\ vertex_mapped g = false /\ index_mapped g = false).
  { intros ntri nvert vb ib cv kv ci ki Hnv Hnt Hw Hm.
    destruct (built_follows_protocol vas ias gs lg ntri nvert vb ib
                cv kv ci ki w' Hnv Hnt Hw) as (g & evs & H).
    exists g, evs. rewrite Hm. cbn [mesh mesh_of]. tauto. }
  cbn [geoms log]. destruct c as [v [i|]|v i]; cbn [construct counts_fit] in *.
  - cbn [TriangleMesh_init vertex_arrays index_arrays] in *.
    pose proof Hrun as Hr. unfold _build_from_indices in Hr.
    apply shape_read_ok in Hr as (nv & Hv & Hr).
    apply shape_read_ok in Hr as (nt & Hi & _).
    cbn [vertex_arrays index_arrays] in Hv, Hi.
    destruct (Hfit nv nt Hv Hi) as [Hnv Hnt].
    eapply wp_partial in Hrun as (_ & Hw & Hm);
      [|intros Q; apply _build_from_indices_wp; eauto].
    eapply (Hgoal _ _ _ _ 1%nat _ 1%nat); [| |exact Hw|exact Hm]; lia.
  - cbn [TriangleMesh_init vertex_arrays] in *.
    pose proof Hrun as Hr. unfold _build_from_flat in Hr.
    apply shape_read_ok in Hr as (n & Hv & _).
    cbn [vertex_arrays] in Hv.
    destruct (Hfit n Hv) as [Hn Hn3].
    eapply wp_partial in Hrun as (_ & Hw & Hm);
      [|intros Q; apply _build_from_flat_wp; eauto].
    eapply (Hgoal _ _ _ _ 3%nat _ 1%nat); [| |exact Hw|exact Hm]; lia.
  - cbn [vertex_arrays index_arrays] in *.
    pose proof Hrun as Hr. unfold ElementMesh_init in Hr.
    apply shape_read_ok in Hr as (d & Hd & Hr).
    cbn [index_arrays] in Hd.
    destruct (d =? 8) eqn:E8; [|destruct (d =? 4) eqn:E4].
    + apply Z.eqb_eq in E8. subst d.
      rewrite ElementMesh_init_quads in Hrun by exact Hd.
      unfold _build_from_quads in Hr.
      apply shape_read_ok in Hr as (nv & Hv & Hr).
      apply shape_read_ok in Hr as (ne & Hi & _).
      cbn [vertex_arrays index_arrays] in Hv, Hi.
      destruct (Hfit nv ne Hv Hi) as (Hnv & Hne & Hne12).
      eapply wp_partial in Hrun as (_ & Hw & Hm);
        [|intros Q; apply _build_from_quads_wp; eauto].
      eapply (Hgoal _ _ _ _ 1%nat _ 12%nat); [| |exact Hw|exact Hm]; lia.
    + apply Z.eqb_eq in E4. subst d.
      rewrite ElementMesh_init_triangles in Hrun by exact Hd.
      unfold _build_from_triangles in Hr.
      apply shape_read_ok in Hr as (nv & Hv & Hr).
      apply shape_read_ok in Hr as (ne & Hi & _).
      cbn [vertex_arrays index_arrays] in Hv, Hi.
      destruct (Hfit nv ne Hv Hi) as (Hnv & Hne & Hne12).
      eapply wp_partial in Hrun as (_ & Hw & Hm);
        [|intros Q; apply _build_from_triangles_wp; eauto; lia].
      eapply (Hgoal _ _ _ _ 1%nat _ 4%nat); [| |exact Hw|exact Hm]; lia.
    + discriminate Hr.
Qed.

End Protocol.

(** ** Two runs on equal arrays *)

Section TwoRuns.

Context {scalar coord : Type} (to_float : scalar -> coord).

Local Abbreviation world := (world scalar coord).
Local Abbreviation geometry := (geometry coord).
Local Abbreviation M := (M scalar coord).

(** The references of the two runs: vertex arrays, index arrays (when the
    construction has one) and the handles of the geometries they create. *)
Context (v1 v2 : nat) (i1 i2 : option nat) (m1 m2 : nat).

Local Abbreviation alike :=
  (alike (scalar:=scalar) (coord:=coord) v1 v2 i1 i2 m1 m2).
Local Abbreviation sim :=
  (sim (scalar:=scalar) (coord:=coord) v1 v2 i1 i2 m1 m2).
Local Abbreviation ptr_rel := (ptr_rel m1 m2).
Local Abbreviation mesh_rel := (mesh_rel m1 m2).
Local Abbreviation end_alike :=
  (end_alike (scalar:=scalar) (coord:=coord) v1 v2 i1 i2 m1 m2).

Lemma sim_bind {A B} (RA : A -> A -> Prop) (RB : B -> B -> Prop)
    (c1 c2 : M A) (f1 f2 : A -> M B) :
  sim RA c1 c2 -> (forall a b, RA a b -> sim RB (f1 a) (f2 b)) ->
  sim RB (bind c1 f1) (bind c2 f2).
Proof.
  intros Hc Hf w1 w2 Hw. unfold bind. specialize (Hc w1 w2 Hw).
  destruct (c1 w1) as [w1' [a| |]], (c2 w2) as [w2' [b| |]];
    simpl in *; try tauto.
  destruct Hc as [Hw' Hab]. now apply Hf.
Qed.

Lemma sim_ret {A} (RA : A -> A -> Prop) (a b : A) :
  RA a b -> sim RA (ret a) (ret b).
Proof. intros H w1 w2 Hw. simpl. auto. Qed.

Lemma sim_for_from (b1 b2 : Z -> M unit) n :
  (forall i, sim eq (b1 i) (b2 i)) ->
  forall i, sim eq (for_from i n b1) (for_from i n b2).
Proof.
  intros Hb. induction n as [|n IH]; intros i; simpl.
  - now apply sim_ret.
  - eapply sim_bind; [apply Hb|]. intros _ _ _. apply IH.
Qed.

Lemma sim_for_range (b1 b2 : Z -> M unit) n :
  (forall i, sim eq (b1 i) (b2 i)) ->
  sim eq (for_range n b1) (for_range n b2).
Proof. intros Hb. now apply sim_for_from. Qed.

Lemma sim_shape_of_vertices k :
  sim eq (shape_of_vertices v1 k) (shape_of_vertices v2 k).
Proof.
  intros w1 w2 Hw. split; [exact Hw|]. simpl. unfold vshape.
  destruct Hw as (-> & _). destruct (vertex_arrays w2 !! v2) as [a|]; simpl;
    [destruct (shape a !! k); simpl|]; auto.
Qed.

Lemma sim_read_vertices idx :
  sim eq (read_vertices to_float v1 idx) (read_vertices to_float v2 idx).
Proof.
  intros w1 w2 Hw. split; [exact Hw|]. simpl. unfold vitem.
  destruct Hw as (-> & _). destruct (vertex_arrays w2 !! v2) as [a|]; simpl;
    [|auto].
  destruct (getitem a idx) as [e| |]; simpl; auto.
  destruct (scalar_of e); simpl; auto.
Qed.

Lemma res_rel_refl {A} (r : result A) : res_rel eq r r.
Proof. destruct r; simpl; auto. Qed.

Lemma sim_shape_of_indices a b k :
  i1 = Some a -> i2 = Some b ->
  sim eq (shape_of_indices a k) (shape_of_indices b k).
Proof.
  intros Ha Hb w1 w2 Hw. split; [exact Hw|]. simpl. unfold ishape.
  destruct Hw as (_ & Hi & _). rewrite Ha, Hb in Hi. rewrite Hi.
  apply res_rel_refl.
Qed.

Lemma sim_read_indices a b i k :
  i1 = Some a -> i2 = Some b ->
  sim eq (read_indices a i k) (read_indices b i k).
Proof.
  intros Ha Hb w1 w2 Hw. split; [exact Hw|]. simpl. unfold iitem.
  destruct Hw as (_ & Hi & _). rewrite Ha, Hb in Hi. rewrite Hi.
  apply res_rel_refl.
Qed.

Lemma alike_insert (w1 w2 : world) (g g' : geometry) ev1 ev2 :
  alike w1 w2 -> geoms w1 !! m1 = Some g -> geoms w2 !! m2 = Some g ->
  alike (set_scene w1 (<[m1 := g']> (geoms w1)) ev1)
        (set_scene w2 (<[m2 := g']> (geoms w2)) ev2).
Proof.
  intros (Hv & Hi & _) H1 H2. split; [exact Hv|]. split; [exact Hi|].
  simpl. rewrite !list_lookup_insert_eq by (eapply lookup_lt_Some; eauto).
  reflexivity.
Qed.

Lemma sim_rtcMapBuffer k :
  sim (ptr_rel k) (rtcMapBuffer m1 k) (rtcMapBuffer m2 k).
Proof.
  intros w1 w2 Hw. unfold rtcMapBuffer. pose proof Hw as (_ & _ & Hg).
  destruct (geoms w1 !! m1) as [g|] eqn:H1; rewrite <- Hg; simpl.
  - split; [now apply alike_insert with g|]. now split.
  - auto.
Qed.

Lemma sim_rtcUnmapBuffer k :
  sim eq (rtcUnmapBuffer m1 k) (rtcUnmapBuffer m2 k).
Proof.
  intros w1 w2 Hw. unfold rtcUnmapBuffer. pose proof Hw as (_ & _ & Hg).
  destruct (geoms w1 !! m1) as [g|] eqn:H1; rewrite <- Hg; simpl.
  - split; [now apply alike_insert with g|]. reflexivity.
  - auto.
Qed.

Lemma sim_store_vertex k slot fld f :
  sim eq (store_vertex (mkPointer m1 k) slot fld f)
         (store_vertex (mkPointer m2 k) slot fld f).
Proof.
  intros w1 w2 Hw. unfold store_vertex. pose proof Hw as (_ & _ & Hg).
  cbn [p_kind p_mesh].
  destruct k; [simpl; auto|].
  destruct (geoms w1 !! m1) as [g|] eqn:H1; rewrite <- Hg; simpl; auto.
  destruct (poke slot f (vertex_buffer g)); simpl; auto.
  split; [now apply alike_insert with g|]. reflexivity.
Qed.

Lemma sim_store_triangle k slot fld f :
  sim eq (store_triangle (mkPointer m1 k) slot fld f)
         (store_triangle (mkPointer m2 k) slot fld f).
Proof.
  intros w1 w2 Hw. unfold store_triangle. pose proof Hw as (_ & _ & Hg).
  cbn [p_kind p_mesh].
  destruct k; [|simpl; auto].
  destruct (geoms w1 !! m1) as [g|] eqn:H1; rewrite <- Hg; simpl; auto.
  destruct (poke slot f (index_buffer g)); simpl; auto.
  split; [now apply alike_insert with g|]. reflexivity.
Qed.

Lemma two_shape_reads (rd1 rd2 : world -> result Z)
    (f1 f2 : Z -> M TriangleMesh) (w1 w2 : world) :
  alike w1 w2 -> rd1 w1 = rd2 w2 ->
  (forall d, end_alike (f1 d w1) (f2 d w2)) ->
  end_alike (bind (fun w => (w, rd1 w)) f1 w1)
            (bind (fun w => (w, rd2 w)) f2 w2).
Proof.
  intros Hw Hrd Hf. unfold bind. rewrite Hrd.
  destruct (rd2 w2) as [d|e|]; [apply Hf | split; simpl; auto ..].
Qed.

Lemma two_allocations (f1 f2 : nat -> M TriangleMesh) fl nt nv ts
    (w1 w2 : world) :
  alike w1 w2 -> m1 = length (geoms w1) -> m2 = length (geoms w2) ->
  sim mesh_rel (f1 m1) (f2 m2) ->
  end_alike (bind (rtcNewTriangleMesh fl nt nv ts) f1 w1)
            (bind (rtcNewTriangleMesh fl nt nv ts) f2 w2).
Proof.
  intros (Hv & Hi & _) H1 H2 Hf. unfold bind, rtcNewTriangleMesh.
  rewrite <- H1, <- H2. apply Hf.
  split; [exact Hv|]. split; [exact Hi|]. simpl.
  rewrite H1, H2. now rewrite !lookup_newest.
Qed.

Lemma alike_initially (w1 w2 : world) :
  vertex_arrays w1 !! v1 = vertex_arrays w2 !! v2 ->
  match i1, i2 with
  | Some a, Some b => index_arrays w1 !! a = index_arrays w2 !! b
  | None, None => True
  | _, _ => False
  end ->
  m1 = length (geoms w1) -> m2 = length (geoms w2) ->
  alike w1 w2.
Proof.
  intros Hv Hi -> ->. split; [exact Hv|]. split; [exact Hi|].
  now rewrite !(proj2 (lookup_ge_None _ _)) by lia.
Qed.

Ltac sim_step :=
  lazymatch goal with
  | |- sim _ (bind _ _) (bind _ _) => eapply sim_bind
  | |- sim _ (read_vertices _ _ _) _ => apply sim_read_vertices
  | |- sim _ (read_indices _ _ _) _ => apply sim_read_indices; assumption
  | |- sim _ (rtcMapBuffer _ _) _ => apply sim_rtcMapBuffer
  | |- sim _ (rtcUnmapBuffer _ _) _ => apply sim_rtcUnmapBuffer
  | |- sim _ (store_vertex _ _ _ _) _ => apply sim_store_vertex
  | |- sim _ (store_triangle _ _ _ _) _ => apply sim_store_triangle
  | |- sim _ (for_range _ _) _ => apply sim_for_range; intros ?
  | |- sim _ (ret _) _ => apply sim_ret; split; reflexivity
  | |- sim _ (store_face _ _ _ _ _ _ _) _ => unfold store_face
  | |- sim _ (copy_vertices _ _ _ _) _ => unfold copy_vertices
  | |- sim _ (store_x _ _ _) _ => unfold store_x
  | |- sim _ (store_y _ _ _) _ => unfold store_y
  | |- sim _ (store_z _ _ _) _ => unfold store_z
  | |- sim _ (store_v0 _ _ _) _ => unfold store_v0
  | |- sim _ (store_v1 _ _ _) _ => unfold store_v1
  | |- sim _ (store_v2 _ _ _) _ => unfold store_v2
  | |- forall _ _, ptr_rel _ _ _ -> _ => intros ? ? [-> ->]
  | |- forall _ _, _ = _ -> _ => intros ? ? ->
  | |- sim _ (let _ := _ in _) _ => cbv zeta
  end.

Ltac sim_steps := repeat sim_step.

Lemma two_build_from_flat (w1 w2 : world) :
  alike w1 w2 -> m1 = length (geoms w1) -> m2 = length (geoms w2) ->
  end_alike (_build_from_flat to_float v1 w1)
            (_build_from_flat to_float v2 w2).
Proof.
  intros Hw H1 H2. unfold _build_from_flat.
  apply (two_shape_reads
           (fun w => vshape (vertex_arrays w) v1 0)
           (fun w => vshape (vertex_arrays w) v2 0)); [exact Hw| |].
  { destruct Hw as (Hv & _). unfold vshape. now rewrite Hv. }
  intros d. cbv zeta. apply two_allocations; auto. sim_steps.
Qed.

Lemma two_build_from_indices a b (w1 w2 : world) :
  i1 = Some a -> i2 = Some b ->
  alike w1 w2 -> m1 = length (geoms w1) -> m2 = length (geoms w2) ->
  end_alike (_build_from_indices to_float v1 a w1)
            (_build_from_indices to_float v2 b w2).
Proof.
  intros Ha Hb Hw H1 H2. unfold _build_from_indices.
  pose proof Hw as (Hv & Hi & _). rewrite Ha, Hb in Hi.
  apply (two_shape_reads
           (fun w => vshape (vertex_arrays w) v1 0)
           (fun w => vshape (vertex_arrays w) v2 0)); [exact Hw| |].
  { unfold vshape. now rewrite Hv. }
  intros d.
  apply (two_shape_reads
           (fun w => ishape (index_arrays w) a 0)
           (fun w => ishape (index_arrays w) b 0)); [exact Hw| |].
  { unfold ishape. now rewrite Hi. }
  intros d'. cbv zeta. apply two_allocations; auto. sim_steps.
Qed.

Lemma two_build_from_quads a b (w1 w2 : world) :
  i1 = Some a -> i2 = Some b ->
  alike w1 w2 -> m1 = length (geoms w1) -> m2 = length (geoms w2) ->
  end_alike (_build_from_quads to_float v1 a w1)
            (_build_from_quads to_float v2 b w2).
Proof.
  intros Ha Hb Hw H1 H2. unfold _build_from_quads.
  pose proof Hw as (Hv & Hi & _). rewrite Ha, Hb in Hi.
  apply (two_shape_reads
           (fun w => vshape (vertex_arrays w) v1 0)
           (fun w => vshape (vertex_arrays w) v2 0)); [exact Hw| |].
  { unfold vshape. now rewrite Hv. }
  intros d.
  apply (two_shape_reads
           (fun w => ishape (index_arrays w) a 0)
           (fun w => ishape (index_arrays w) b 0)); [exact Hw| |].
  { unfold ishape. now rewrite Hi. }
  intros d'. cbv zeta. apply two_allocations; auto. sim_steps.
Qed.

Lemma two_build_from_triangles a b (w1 w2 : world) :
  i1 = Some a -> i2 = Some b ->
  alike w1 w2 -> m1 = length (geoms w1) -> m2 = length (geoms w2) ->
  end_alike (_build_from_triangles to_float v1 a w1)
            (_build_from_triangles to_float v2 b w2).
Proof.
  intros Ha Hb Hw H1 H2. unfold _build_from_triangles.
  pose proof Hw as (Hv & Hi & _). rewrite Ha, Hb in Hi.
  apply (two_shape_reads
           (fun w => vshape (vertex_arrays w) v1 0)
           (fun w => vshape (vertex_arrays w) v2 0)); [exact Hw| |].
  { unfold vshape. now rewrite Hv. }
  intros d.
  apply (two_shape_reads
           (fun w => ishape (index_arrays w) a 0)
           (fun w => ishape (index_arrays w) b 0)); [exact Hw| |].
  { unfold ishape. now rewrite Hi. }
  intros d'. cbv zeta. apply two_allocations; auto. sim_steps.
Qed.

Lemma two_ElementMesh_init a b (w1 w2 : world) :
  i1 = Some a -> i2 = Some b ->
  alike w1 w2 -> m1 = length (geoms w1) -> m2 = length (geoms w2) ->
  end_alike (ElementMesh_init to_float v1 a w1)
            (ElementMesh_init to_float v2 b w2).
Proof.
  intros Ha Hb Hw H1 H2. unfold ElementMesh_init.
  pose proof Hw as (Hv & Hi & _). rewrite Ha, Hb in Hi.
  apply (two_shape_reads
           (fun w => ishape (index_arrays w) a 1)
           (fun w => ishape (index_arrays w) b 1)); [exact Hw| |].
  { unfold ishape. now rewrite Hi. }
  intros d. destruct (d =? 8); [|destruct (d =? 4)].
  - now apply two_build_from_quads.
  - now apply two_build_from_triangles.
  - split; simpl; auto.
Qed.

End TwoRuns.

Section Determinism.

Context {scalar coord : Type} (to_float : scalar -> coord).

Local Abbreviation world := (world scalar coord).

(** C8. Construction is a function of the arrays: two runs of the same
    constructor on equal vertex arrays and equal index arrays, in any two
    scenes, end the same way (both return the mesh of the geometry they
    created, or both raise the same exception), and the geometries they
    create are equal: same declared counts, same vertex buffer, same index
    buffer. *)
Theorem construction_is_deterministic
    (w1 w2 : world) (c1 c2 : construction) :
  same_inputs w1 w2 c1 c2 ->
  res_rel (fun a b => a = mesh_of (length (geoms w1))
                      /\ b = mesh_of (length (geoms w2)))
          (snd (construct to_float c1 w1)) (snd (construct to_float c2 w2))
  /\ geoms (fst (construct to_float c1 w1)) !! length (geoms w1)
     = geoms (fst (construct to_float c2 w2)) !! length (geoms w2).
Proof.
  intros Hin.
  assert (H : forall v1 v2 i1 i2 (r1 r2 : world * result TriangleMesh),
             end_alike v1 v2 i1 i2 (length (geoms w1)) (length (geoms w2))
               r1 r2 ->
             res_rel (fun a b => a = mesh_of (length (geoms w1))
                                 /\ b = mesh_of (length (geoms w2)))
                     (snd r1) (snd r2)
             /\ geoms (fst r1) !! length (geoms w1)
                = geoms (fst r2) !! length (geoms w2)).
  { intros v1 v2 i1 i2 r1 r2 [(_ & _ & Hg) Hr]. split; [exact Hr|exact Hg]. }
  destruct c1 as [v1 [i1|]|v1 i1], c2 as [v2 [i2|]|v2 i2];
    cbn [same_inputs] in Hin; try contradiction; cbn [construct].
  - destruct Hin as [Hv Hi].
    apply (H v1 v2 (Some i1) (Some i2)).
    apply two_build_from_indices; auto. now apply alike_initially.
  - apply (H v1 v2 None None).
    apply two_build_from_flat; auto. now apply alike_initially.
  - destruct Hin as [Hv Hi].
    apply (H v1 v2 (Some i1) (Some i2)).
    apply two_ElementMesh_init; auto. now apply alike_initially.
Qed.

End Determinism.

(** * The scenarios of the spec *)

Ltac entry_cases k Hk :=
  repeat (destruct Hk as [-> | Hk]; [simpl; unfold C.INT_MAX; lia|]);
  subst k; simpl; unfold C.INT_MAX; lia.



(** Two triangles sharing an edge, indexed: 4 vertices and 2 triangles,
    as given. *)
Lemma shared_edge_is_copied :
  vertex_arrays quad_world !! 0%nat = Some quad_vertices
  /\ index_arrays quad_world !! 0%nat = Some quad_triangles
  /\ shape quad_vertices = [4; 3] /\ shape quad_triangles = [2; 3]
  /\ 0 <= 4 <= C.INT_MAX /\ 0 <= 2 <= C.INT_MAX
  /\ (forall i k, 0 <= i < 2 -> 0 <= k < 3 ->
        0 <= item quad_triangles [i; k] <= C.INT_MAX)
  /\ exists w' g,
       TriangleMesh_init to_single 0 (Some 0%nat) quad_world
       = (w', Ok (mesh_of 0))
       /\ geoms w' = [g] /\ numTriangles g = 2 /\ numVertices g = 4
       /\ vertex_buffer g !! 2%nat
          = Some (mkVertex (Some 1) (Some 1) (Some 0))
       /\ index_buffer g !! 1%nat
          = Some (mkTriangle (Some 0) (Some 2) (Some 3)).
Proof.
  assert (Hent : forall i k, 0 <= i < 2 -> 0 <= k < 3 ->
                   0 <= item quad_triangles [i; k] <= C.INT_MAX).
  { intros i k Hi Hk.
    assert (Hi' : i = 0 \/ i = 1) by lia.
    assert (Hk' : k = 0 \/ k = 1 \/ k = 2) by lia.
    destruct Hi' as [-> | ->]; entry_cases k Hk'. }
  assert (H4 : 0 <= 4 <= C.INT_MAX) by (unfold C.INT_MAX; lia).
  assert (H2 : 0 <= 2 <= C.INT_MAX) by (unfold C.INT_MAX; lia).
  repeat (split; [first [reflexivity | assumption]|]).
  destruct (TriangleMesh_indexed_copies_verbatim to_single quad_world
              0 0 quad_vertices quad_triangles 4 2
              eq_refl eq_refl eq_refl eq_refl H4 H2 Hent)
    as (w' & g & Hrun & Hg & Hnt & Hnv & _ & _ & Hvb & Hib).
  exists w', g. repeat (split; [assumption|]). split.
  - apply (Hvb 2). lia.
  - apply (Hib 1). lia.
Defined.


(** An index array of three columns is no element mesh. *)
Lemma three_columns_are_rejected :
  index_arrays quad_world !! 0%nat = Some quad_triangles
  /\ shape quad_triangles !! 1%nat = Some 3
  /\ 3 <> 4 /\ 3 <> 8
  /\ ElementMesh_init to_single 0 0 quad_world
     = (quad_world, Raise NotImplementedError).
Proof.
  assert (H4 : 3 <> 4) by lia. assert (H8 : 3 <> 8) by lia.
  repeat (split; [first [reflexivity | assumption]|]).
  apply (ElementMesh_rejects_other_arity to_single quad_world 0 0
           quad_triangles 3 eq_refl eq_refl H4 H8).
Defined.

(** The vertex buffer of the cube is the eight corners, in input order. *)
Lemma cube_vertices_are_copied :
  vertex_arrays cube_world !! 0%nat = Some cube_vertices
  /\ index_arrays cube_world !! 0%nat = Some cube_elements
  /\ shape cube_vertices = [8; 3] /\ shape cube_elements = [1; 8]
  /\ (8 = 4 \/ 8 = 8) /\ 0 <= 8 <= C.INT_MAX
  /\ exists g,
       geoms (fst (ElementMesh_init to_single 0 0 cube_world)) !! 0%nat
       = Some g
       /\ numVertices g = 8
       /\ vertex_buffer g !! 6%nat
          = Some (mkVertex (Some 1) (Some 1) (Some 1)).
Proof.
  assert (H8 : 0 <= 8 <= C.INT_MAX) by (unfold C.INT_MAX; lia).
  assert (Hd : 8 = 4 \/ 8 = 8) by (right; reflexivity).
  repeat (split; [first [reflexivity | assumption]|]).
  destruct (ElementMesh_vertex_buffer_is_input to_single cube_world
              0 0 cube_vertices cube_elements 8 1 8
              eq_refl eq_refl eq_refl eq_refl Hd H8)
    as (g & Hg & Hnv & _ & Hvb).
  exists g. repeat (split; [assumption|]). apply (Hvb 6). lia.
Defined.

(** The construction of the cube follows the protocol on both buffers. *)
Lemma cube_construction_follows_protocol :
  counts_fit cube_world (NewElementMesh 0 0)
  /\ construct to_single (NewElementMesh 0 0) cube_world
     = (fst (construct to_single (NewElementMesh 0 0) cube_world),
        Ok (mesh_of 0))
  /\ exists g evs,
       geoms (fst (construct to_single (NewElementMesh 0 0) cube_world))
       = [g]
       /\ log (fst (construct to_single (NewElementMesh 0 0) cube_world))
          = evs
       /\ buffer_protocol 0 RTC_VERTEX_BUFFER (numVertices g) evs
       /\ buffer_protocol 0 RTC_INDEX_BUFFER (numTriangles g) evs
       /\ vertex_mapped g = false /\ index_mapped g = false.
Proof.
  assert (Hfit : counts_fit cube_world (NewElementMesh 0 0)).
  { intros nv ne Hv Hi. vm_compute in Hv, Hi.
    injection Hv as <-. injection Hi as <-. unfold C.INT_MAX. lia. }
  assert (Hrun : construct to_single (NewElementMesh 0 0) cube_world
                 = (fst (construct to_single (NewElementMesh 0 0)
                           cube_world),
                    Ok (mesh_of 0))) by (vm_compute; reflexivity).
  split; [exact Hfit|]. split; [exact Hrun|].
  destruct (returned_construction_follows_buffer_protocol to_single
              cube_world _ (NewElementMesh 0 0) (mesh_of 0) Hfit Hrun)
    as (g & evs & _ & Hg & Hlog & HV & HI & Hm).
  exists g, evs. split; [exact Hg|]. split; [exact Hlog|].
  split; [exact HV|]. split; [exact HI|]. exact Hm.
Defined.

(** Rows that are one coordinate short are found out when the third
    coordinate of the first row is read: the geometry is there, and its
    vertex buffer is acquired. *)
Lemma short_rows_fail_after_allocation :
  construct to_single (NewTriangleMesh 0 (Some 0%nat)) short_world
  = (fst (construct to_single (NewTriangleMesh 0 (Some 0%nat)) short_world),
     Raise IndexError)
  /\ IndexError <> NotImplementedError
  /\ allocated_since short_world
       (fst (construct to_single (NewTriangleMesh 0 (Some 0%nat))
               short_world)).
Proof.
  assert (Hrun : construct to_single (NewTriangleMesh 0 (Some 0%nat))
                   short_world
                 = (fst (construct to_single
                           (NewTriangleMesh 0 (Some 0%nat)) short_world),
                    Raise IndexError)) by (vm_compute; reflexivity).
  assert (He : IndexError <> NotImplementedError) by discriminate.
  split; [exact Hrun|]. split; [exact He|].
  apply (shape_error_comes_after_allocation to_single short_world _
           (NewTriangleMesh 0 (Some 0%nat)) IndexError Hrun He).
Defined.

(** The cube built in an empty scene and in a scene that has a geometry
    already, from other references: the same geometry. *)
Lemma cube_is_the_same_in_a_busy_scene :
  same_inputs cube_world busy_world (NewElementMesh 0 0) (NewElementMesh 1 1)
  /\ geoms (fst (construct to_single (NewElementMesh 0 0) cube_world))
       !! 0%nat
     = geoms (fst (construct to_single (NewElementMesh 1 1) busy_world))
         !! 1%nat.
Proof.
  assert (Hin : same_inputs cube_world busy_world
                  (NewElementMesh 0 0) (NewElementMesh 1 1))
    by (split; reflexivity).
  split; [exact Hin|].
  apply (construction_is_deterministic to_single cube_world busy_world
           (NewElementMesh 0 0) (NewElementMesh 1 1) Hin).
Defined.

(** C6, as the spec has it, fails.  A construction that fails while it
    fills the vertex buffer returns with that buffer acquired once and
    never released. *)
Lemma failed_construction_leaves_buffer_acquired :
  snd (TriangleMesh_init to_single 0 (Some 0%nat) short_world)
  = Raise IndexError
  /\ count_events (is_acquire 0 RTC_VERTEX_BUFFER)
       (log (fst (TriangleMesh_init to_single 0 (Some 0%nat) short_world)))
     = 1%nat
  /\ count_events (is_release 0 RTC_VERTEX_BUFFER)
       (log (fst (TriangleMesh_init to_single 0 (Some 0%nat) short_world)))
     = 0%nat
  /\ option_map vertex_mapped
       (geoms (fst (TriangleMesh_init to_single 0 (Some 0%nat) short_world))
          !! 0%nat)
     = Some true.
Proof. vm_compute. repeat split; reflexivity. Qed.

(** C7, as the spec has it, fails.  Rows that are one coordinate short
    are reported by an [IndexError] when the geometry has been allocated,
    its vertex buffer acquired and two coordinates stored; rows that have
    two coordinates too many are not reported at all. *)
Lemma shape_mismatch_is_not_checked_first :
  shape short_vertices = [3; 2]
  /\ snd (TriangleMesh_init to_single 0 (Some 0%nat) short_world)
     = Raise IndexError
  /\ log (fst (TriangleMesh_init to_single 0 (Some 0%nat) short_world))
     = [EvNewTriangleMesh 0 1 3; EvMapBuffer 0 RTC_VERTEX_BUFFER;
        EvStore 0 RTC_VERTEX_BUFFER 0 f_x; EvStore 0 RTC_VERTEX_BUFFER 0 f_y]
  /\ length (geoms (fst (TriangleMesh_init to_single 0 (Some 0%nat)
                           short_world))) = 1%nat
  /\ shape wide_vertices = [3; 5]
  /\ snd (TriangleMesh_init to_single 0 (Some 0%nat) wide_world)
     = Ok (mesh_of 0).
Proof. vm_compute. repeat split; reflexivity. Qed.

(** * Further properties of the constructors *)

Section Edges.

Context {scalar coord : Type} (to_float : scalar -> coord).

Local Abbreviation world := (world scalar coord).
Local Abbreviation geometry := (geometry coord).
Local Abbreviation M := (M scalar coord).

(** X1. Arrays without rows are accepted on every path: the construction
    returns the mesh of a geometry declared with no triangles and no
    vertices, whose buffers are empty, after acquiring and releasing both
    buffers. *)
Theorem no_rows_make_an_empty_geometry (w : world) (c : construction) :
  no_rows w c ->
  construct to_float c w
  = (mkWorld (vertex_arrays w) (index_arrays w)
       (geoms w ++ [mkGeometry RTC_GEOMETRY_STATIC 0 0 [] [] false false])
       (log w ++ [EvNewTriangleMesh (length (geoms w)) 0 0;
                  EvMapBuffer (length (geoms w)) RTC_VERTEX_BUFFER;
                  EvUnmapBuffer (length (geoms w)) RTC_VERTEX_BUFFER;
                  EvMapBuffer (length (geoms w)) RTC_INDEX_BUFFER;
                  EvUnmapBuffer (length (geoms w)) RTC_INDEX_BUFFER]),
     Ok (mesh_of (length (geoms w)))).
Proof.
  intros Hno. destruct w as [vas ias gs lg].
  assert (H0 : 0 <= 0 <= C.INT_MAX) by (unfold C.INT_MAX; lia).
  assert (Hrows : forall r, rows_ok to_float vas r (Z.to_nat 0))
    by (intros r k Hk; simpl in Hk; lia).
  assert (Hfaces : forall faces r, faces_ok faces ias r (Z.to_nat 0))
    by (intros faces r k Hk; simpl in Hk; lia).
  destruct c as [v [i|]|v i]; cbn [no_rows construct TriangleMesh_init
    vertex_arrays index_arrays geoms log] in *.
  - destruct Hno as [Hv Hi]. eapply eq_trans.
    { apply wp_total with
        (P := rows_ok to_float vas v (Z.to_nat 0)
              /\ faces_ok [(0, 1, 2)] ias i (Z.to_nat 0)); [|auto].
      intros Q. apply _build_from_indices_wp; auto. }
    reflexivity.
  - eapply eq_trans.
    { apply wp_total with (P := corners_ok to_float vas v (Z.to_nat 0)).
      - intros Q. apply _build_from_flat_wp; auto; lia.
      - intros k Hk. simpl in Hk. lia. }
    reflexivity.
  - destruct Hno as (Hv & Hi & [Hd | Hd]).
    + rewrite ElementMesh_init_triangles by exact Hd. eapply eq_trans.
      { apply wp_total with
          (P := rows_ok to_float vas v (Z.to_nat 0)
                /\ faces_ok tet_faces ias i (Z.to_nat 0)); [|auto].
        intros Q. apply _build_from_triangles_wp; auto; lia. }
      reflexivity.
    + rewrite ElementMesh_init_quads by exact Hd. eapply eq_trans.
      { apply wp_total with
          (P := rows_ok to_float vas v (Z.to_nat 0)
                /\ faces_ok hex_faces ias i (Z.to_nat 0)); [|auto].
        intros Q. apply _build_from_quads_wp; auto; lia. }
      reflexivity.
Qed.

(** X2. The indexed path reads three columns of each array and no more: on a
    vertex array of [cv >= 3] columns and an index array of [ci >= 3]
    columns the construction succeeds as on arrays of three columns, and
    the columns after the third are left out of the buffers. *)
Theorem TriangleMesh_indexed_ignores_further_columns
    (w : world) (rv ri : nat) (va : ndarray scalar) (ia : ndarray Z)
    (nv nt cv ci : Z) :
  vertex_arrays w !! rv = Some va -> index_arrays w !! ri = Some ia ->
  shape va = [nv; cv] -> shape ia = [nt; ci] -> 3 <= cv -> 3 <= ci ->
  0 <= nv <= C.INT_MAX -> 0 <= nt <= C.INT_MAX ->
  (forall i k, 0 <= i < nt -> 0 <= k < 3 ->
     0 <= item ia [i; k] <= C.INT_MAX) ->
  exists w' g,
    TriangleMesh_init to_float rv (Some ri) w
    = (w', Ok (mesh_of (length (geoms w))))
    /\ geoms w' = geoms w ++ [g]
    /\ numTriangles g = nt /\ numVertices g = nv
    /\ length (vertex_buffer g) = Z.to_nat nv
    /\ length (index_buffer g) = Z.to_nat nt
    /\ (forall i, 0 <= i < nv ->
          vertex_buffer g !! Z.to_nat i
          = Some (mkVertex (Some (to_float (item va [i; 0])))
                           (Some (to_float (item va [i; 1])))
                           (Some (to_float (item va [i; 2])))))
    /\ (forall i, 0 <= i < nt ->
          index_buffer g !! Z.to_nat i
          = Some (mkTriangle (Some (item ia [i; 0])) (Some (item ia [i; 1]))
                             (Some (item ia [i; 2])))).
Proof.
  intros Hva Hia Hsv Hsi Hcv Hci Hnv Hnt Hfit.
  destruct w as [vas ias gs lg]. simpl in *.
  eexists. eexists. split.
  { apply wp_total with
      (P := rows_ok to_float vas rv (Z.to_nat nv)
            /\ faces_ok [(0, 1, 2)] ias ri (Z.to_nat nt)).
    - intros Q. apply _build_from_indices_wp; auto.
      + apply vshape_dim with va; auto. now rewrite Hsv.
      + apply ishape_dim with ia; auto. now rewrite Hsi.
    - split.
      + intros k Hk. unfold row_ok.
        rewrite !(vitem_row to_float vas rv va nv cv) by (auto; lia).
        simpl. auto.
      + intros k Hk f [<-|[]]. unfold face_ok.
        rewrite !(iitem_entry ias ri ia nt ci)
          by (auto; try apply Hfit; lia).
        simpl. auto. }
  simpl. split; [reflexivity|]. simpl.
  split; [reflexivity|]. split; [reflexivity|].
  split; [rewrite (length_chunks _ 1); [lia|reflexivity]|].
  split; [rewrite (length_chunks _ 1); [lia|reflexivity]|].
  split.
  - intros i Hi. unfold row_chunk.
    rewrite lookup_singletons by lia. unfold vertex_of_row.
    rewrite Z2Nat.id by lia.
    now rewrite !(vitem_row to_float vas rv va nv cv) by (auto; lia).
  - intros i Hi. unfold faces_chunk. cbn [map].
    rewrite (lookup_singletons
               (fun k => triangle_of_face ias ri (Z.of_nat k) (0, 1, 2)))
      by lia.
    unfold triangle_of_face. rewrite Z2Nat.id by lia.
    rewrite !(iitem_entry ias ri ia nt ci)
      by (auto; try apply Hfit; lia).
    now rewrite !index_word_entry by (apply Hfit; lia).
Qed.

(** X3. The flat path reads three corners of each triangle and three
    coordinates of each corner and no more: on an array of shape
    [(n, a, b)] with [a >= 3] and [b >= 3] the construction succeeds as on
    [(n, 3, 3)], and the further corners and coordinates are left out. *)
Theorem TriangleMesh_flat_ignores_further_corners
    (w : world) (rv : nat) (va : ndarray scalar) (n a b : Z) :
  vertex_arrays w !! rv = Some va ->
  shape va = [n; a; b] -> 3 <= a -> 3 <= b ->
  0 <= n -> 3 * n <= C.INT_MAX ->
  exists w' g,
    TriangleMesh_init to_float rv None w
    = (w', Ok (mesh_of (length (geoms w))))
    /\ geoms w' = geoms w ++ [g]
    /\ numTriangles g = n /\ numVertices g = 3 * n
    /\ length (vertex_buffer g) = Z.to_nat (3 * n)
    /\ (forall i j, 0 <= i < n -> 0 <= j < 3 ->
          vertex_buffer g !! Z.to_nat (3 * i + j)
          = Some (mkVertex (Some (to_float (item va [i; j; 0])))
                           (Some (to_float (item va [i; j; 1])))
                           (Some (to_float (item va [i; j; 2]))))).
Proof.
  intros Hva Hsv Ha Hb Hn Hfit.
  destruct w as [vas ias gs lg]. simpl in *.
  eexists. eexists. split.
  { apply wp_total with (P := corners_ok to_float vas rv (Z.to_nat n)).
    - intros Q. apply _build_from_flat_wp; auto.
      apply vshape_dim with va; auto. now rewrite Hsv.
    - intros k Hk. unfold corner_ok.
      rewrite !(vitem_corner to_float vas rv va n a b) by (auto; lia).
      simpl. auto. }
  simpl. split; [reflexivity|]. simpl.
  split; [reflexivity|]. split; [reflexivity|].
  split; [rewrite (length_chunks _ 3); [lia|reflexivity]|].
  intros i j Hi Hj.
  replace (Z.to_nat (3 * i + j)) with (3 * Z.to_nat i + Z.to_nat j)%nat
    by lia.
  rewrite (lookup_chunks _ 3) by (try lia; reflexivity).
  unfold corner_chunk, vertex_of_corner. rewrite Z2Nat.id by lia.
  rewrite !(vitem_corner to_float vas rv va n a b) by (auto; lia).
  assert (Hj' : j = 0 \/ j = 1 \/ j = 2) by lia.
  destruct Hj' as [->|[->| ->]]; reflexivity.
Qed.

End Edges.

(** ** A construction keeps to the geometry it creates *)

Lemma poke_length {A} (slot : Z) (f : A -> A) (l l' : list A) :
  poke slot f l = Some l' -> length l' = length l.
Proof.
  unfold poke. destruct (0 <=? slot); [|discriminate].
  destruct (l !! Z.to_nat slot); [|discriminate].
  intros [= <-]. apply length_insert.
Qed.

Lemma poke_in_range {A} (slot : Z) (f : A -> A) (l : list A) :
  0 <= slot < Z.of_nat (length l) -> poke slot f l <> None.
Proof.
  intros H. unfold poke. rewrite (proj2 (Z.leb_le _ _)) by lia.
  destruct (l !! Z.to_nat slot) eqn:E; [discriminate|].
  apply lookup_ge_None in E. lia.
Qed.

Section Confinement.

Context {scalar coord : Type} (to_float : scalar -> coord).

Local Abbreviation world := (world scalar coord).
Local Abbreviation geometry := (geometry coord).
Local Abbreviation M := (M scalar coord).

Lemma obeys_bind F (I : world -> Prop) {A B} (RA : A -> Prop)
    (RB : B -> Prop) (m : M A) (f : A -> M B) :
  obeys F I RA m -> (forall a, RA a -> obeys F I RB (f a)) ->
  obeys F I RB (bind m f).
Proof.
  intros Hm Hf w Hw. unfold bind. specialize (Hm w Hw).
  destruct (m w) as [w' [a| |]]; simpl in *; [|tauto ..].
  destruct Hm as [Hw' Ha]. now apply Hf.
Qed.

Lemma obeys_ret F (I : world -> Prop) {A} (RA : A -> Prop) (a : A) :
  RA a -> obeys F I RA (ret a).
Proof. intros Ha w Hw. simpl. auto. Qed.

Lemma obeys_for_from F (I : world -> Prop) (body : Z -> M unit) n i0 :
  (forall k, (k < n)%nat -> obeys F I (fun _ => True) (body (i0 + Z.of_nat k))) ->
  obeys F I (fun _ => True) (for_from i0 n body).
Proof.
  revert i0. induction n as [|n IH]; intros i0 Hb; simpl.
  - now apply obeys_ret.
  - eapply obeys_bind.
    + specialize (Hb 0%nat). rewrite Z.add_0_r in Hb. apply Hb. lia.
    + intros _ _. apply IH. intros k Hk.
      replace (i0 + 1 + Z.of_nat k) with (i0 + Z.of_nat (S k)) by lia.
      apply Hb. lia.
Qed.

Lemma obeys_for_range F (I : world -> Prop) (body : Z -> M unit) n :
  (forall i, 0 <= i < n -> obeys F I (fun _ => True) (body i)) ->
  obeys F I (fun _ => True) (for_range n body).
Proof.
  intros Hb. apply obeys_for_from. intros k Hk. apply Hb. lia.
Qed.

Lemma vitem_no_fault (vas : list (ndarray scalar)) r a idx :
  vas !! r = Some a -> vitem to_float vas r idx <> Fault.
Proof.
  intros Hr. unfold vitem, getitem. rewrite Hr.
  destruct (locate (shape a) idx); simpl; [|discriminate].
  unfold scalar_of. simpl. destruct (drop (length idx) (shape a));
    discriminate.
Qed.

Lemma iitem_no_fault (ias : list (ndarray Z)) r a i k :
  ias !! r = Some a -> iitem ias r i k <> Fault.
Proof.
  intros Hr. unfold iitem, getitem. rewrite Hr.
  destruct (locate (shape a) [i]); simpl; [|discriminate].
  destruct (locate _ [k]); simpl; [|discriminate].
  unfold scalar_of. simpl.
  destruct (drop 1 (drop 1 (shape a))); simpl; [|discriminate].
  unfold as_int. destruct (_ && _); discriminate.
Qed.

Section InSlot.

Context (F : Prop) (vas : list (ndarray scalar)) (ias : list (ndarray Z))
  (gs0 : list geometry) (lg0 : list event) (nvn ntn : nat).

Local Abbreviation I := (in_slot vas ias gs0 lg0 nvn ntn).

Lemma obeys_read_vertices r idx :
  F \/ vas !! r <> None ->
  obeys F I (fun _ => True) (read_vertices to_float r idx).
Proof.
  intros HF w Hw. split; [exact Hw|]. simpl.
  destruct Hw as (Hv & _). rewrite Hv.
  destruct (vitem to_float vas r idx) eqn:E; auto.
  destruct HF as [HF|Hr]; [exact HF|].
  destruct (vas !! r) as [a|] eqn:Ha; [|congruence].
  now elim (vitem_no_fault vas r a idx).
Qed.

Lemma obeys_read_indices r i k :
  F \/ ias !! r <> None ->
  obeys F I (fun _ => True) (read_indices r i k).
Proof.
  intros HF w Hw. split; [exact Hw|]. simpl.
  destruct Hw as (_ & Hi & _). rewrite Hi.
  destruct (iitem ias r i k) eqn:E; auto.
  destruct HF as [HF|Hr]; [exact HF|].
  destruct (ias !! r) as [a|] eqn:Ha; [|congruence].
  now elim (iitem_no_fault ias r a i k).
Qed.

Lemma in_slot_update (w : world) (g g' : geometry) ev :
  I w -> geoms w = gs0 ++ [g] ->
  length (vertex_buffer g') = length (vertex_buffer g) ->
  length (index_buffer g') = length (index_buffer g) ->
  event_mesh ev = length gs0 ->
  I (set_scene w (<[length gs0 := g']> (geoms w)) ev).
Proof.
  intros (Hv & Hi & (g0 & Hg0 & Hnv & Hnt) & evs & Hlog & Hevs) Hg Hl1 Hl2
    Hev.
  rewrite Hg in Hg0. apply app_inj_tail in Hg0 as [_ <-].
  split; [exact Hv|]. split; [exact Hi|]. split.
  - exists g'. simpl. rewrite Hg, insert_newest.
    split; [reflexivity|]. split; congruence.
  - exists (evs ++ [ev]). simpl. rewrite Hlog, <- app_assoc.
    split; [reflexivity|]. apply Forall_app. split; [exact Hevs|].
    now constructor.
Qed.

Lemma obeys_rtcMapBuffer k :
  obeys F I (eq (mkPointer (length gs0) k))
    (rtcMapBuffer (length gs0) k).
Proof.
  intros w Hw. pose proof Hw as (_ & _ & (g & Hg & _) & _).
  unfold rtcMapBuffer. rewrite Hg, lookup_newest. simpl.
  split; [|reflexivity]. rewrite <- Hg.
  apply (in_slot_update w g); auto; now destruct k.
Qed.

Lemma obeys_rtcUnmapBuffer k :
  obeys F I (fun _ => True) (rtcUnmapBuffer (length gs0) k).
Proof.
  intros w Hw. pose proof Hw as (_ & _ & (g & Hg & _) & _).
  unfold rtcUnmapBuffer. rewrite Hg, lookup_newest. simpl.
  split; [|exact Logic.I]. rewrite <- Hg.
  apply (in_slot_update w g); auto; now destruct k.
Qed.

Lemma obeys_store_vertex slot fld f :
  F \/ 0 <= slot < Z.of_nat nvn ->
  obeys F I (fun _ => True)
    (store_vertex (mkPointer (length gs0) RTC_VERTEX_BUFFER) slot fld f).
Proof.
  intros HF w Hw. pose proof Hw as (_ & _ & (g & Hg & Hnv & _) & _).
  unfold store_vertex. cbn [p_kind p_mesh]. rewrite Hg, lookup_newest.
  destruct (poke slot f (vertex_buffer g)) as [vb|] eqn:Hp; simpl.
  - split; [|exact Logic.I]. rewrite <- Hg.
    apply (in_slot_update w g); auto. simpl. now apply poke_length in Hp.
  - split; [exact Hw|]. destruct HF as [HF|Hr]; [exact HF|].
    elim (poke_in_range slot f (vertex_buffer g)); [lia|exact Hp].
Qed.

Lemma obeys_store_triangle slot fld f :
  F \/ 0 <= slot < Z.of_nat ntn ->
  obeys F I (fun _ => True)
    (store_triangle (mkPointer (length gs0) RTC_INDEX_BUFFER) slot fld f).
Proof.
  intros HF w Hw. pose proof Hw as (_ & _ & (g & Hg & _ & Hnt) & _).
  unfold store_triangle. cbn [p_kind p_mesh]. rewrite Hg, lookup_newest.
  destruct (poke slot f (index_buffer g)) as [ib|] eqn:Hp; simpl.
  - split; [|exact Logic.I]. rewrite <- Hg.
    apply (in_slot_update w g); auto. simpl. now apply poke_length in Hp.
  - split; [exact Hw|]. destruct HF as [HF|Hr]; [exact HF|].
    elim (poke_in_range slot f (index_buffer g)); [lia|exact Hp].
Qed.

End InSlot.

Lemma confined_after_new F (vas : list (ndarray scalar))
    (ias : list (ndarray Z)) (gs : list geometry) lg fl nt nv ts
    (f : nat -> M TriangleMesh) :
  obeys F (in_slot vas ias gs (lg ++ [EvNewTriangleMesh (length gs) nt nv])
             (Z.to_nat nv) (Z.to_nat nt))
    (eq (mesh_of (length gs))) (f (length gs)) ->
  confined F (mkWorld vas ias gs lg)
    (bind (rtcNewTriangleMesh fl nt nv ts) f (mkWorld vas ias gs lg)).
Proof.
  intros Hf. unfold bind, rtcNewTriangleMesh, set_scene.
  cbn [geoms log vertex_arrays index_arrays].
  match goal with |- confined _ _ (f _ ?W) => specialize (Hf W) end.
  destruct Hf as [(_ & _ & (g & Hg & _) & evs & Hlog & Hevs) Hr].
  { split; [reflexivity|]. split; [reflexivity|]. split.
    - eexists. split; [reflexivity|]. simpl.
      now rewrite !length_replicate.
    - exists []. split; [now rewrite app_nil_r|constructor]. }
  split.
  - exists [g], (EvNewTriangleMesh (length gs) nt nv :: evs).
    cbn [geoms log]. split; [exact Hg|]. split; [simpl; lia|].
    split; [intros _; split; [reflexivity|eauto]|].
    split; [now rewrite Hlog, <- app_assoc|].
    constructor; [reflexivity|exact Hevs].
  - destruct (snd _) as [a| |]; auto.
Qed.

Lemma confined_shape_read F (rd : world -> result Z)
    (f : Z -> M TriangleMesh) (w : world) :
  (forall d, rd w = Ok d -> confined F w (f d w)) ->
  (rd w = Fault -> F) -> (forall e, rd w <> Raise e) ->
  confined F w (bind (fun w0 => (w0, rd w0)) f w).
Proof.
  intros Hok Hfault Hraise. unfold bind.
  destruct (rd w) as [d|e|] eqn:E; [now apply Hok | now elim (Hraise e) |].
  split; simpl; [|auto].
  exists [], []. rewrite !app_nil_r. split; [reflexivity|].
  split; [simpl; lia|]. split; [intros []|].
  split; [reflexivity|constructor].
Qed.

Lemma vshape_present (vas : list (ndarray scalar)) r k d :
  vshape vas r k = Ok d -> vas !! r <> None.
Proof. unfold vshape. destruct (vas !! r); [discriminate 2|discriminate]. Qed.

Lemma ishape_present (ias : list (ndarray Z)) r k d :
  ishape ias r k = Ok d -> ias !! r <> None.
Proof. unfold ishape. destruct (ias !! r); [discriminate 2|discriminate]. Qed.

Ltac obeys_step side :=
  lazymatch goal with
  | |- obeys _ _ _ (bind _ _) => eapply obeys_bind
  | |- obeys _ _ _ (ret _) => apply obeys_ret; reflexivity
  | |- obeys _ _ _ (for_range _ _) => apply obeys_for_range; intros ? ?
  | |- obeys _ _ _ (read_vertices _ _ _) => apply obeys_read_vertices; side
  | |- obeys _ _ _ (read_indices _ _ _) => apply obeys_read_indices; side
  | |- obeys _ _ _ (rtcMapBuffer _ _) => apply obeys_rtcMapBuffer
  | |- obeys _ _ _ (rtcUnmapBuffer _ _) => apply obeys_rtcUnmapBuffer
  | |- obeys _ _ _ (store_vertex _ _ _ _) => apply obeys_store_vertex; side
  | |- obeys _ _ _ (store_triangle _ _ _ _) =>
      apply obeys_store_triangle; side
  | |- obeys _ _ _ (store_face _ _ _ _ _ _ _) => unfold store_face
  | |- obeys _ _ _ (copy_vertices _ _ _ _) => unfold copy_vertices
  | |- obeys _ _ _ (store_x _ _ _) => unfold store_x
  | |- obeys _ _ _ (store_y _ _ _) => unfold store_y
  | |- obeys _ _ _ (store_z _ _ _) => unfold store_z
  | |- obeys _ _ _ (store_v0 _ _ _) => unfold store_v0
  | |- obeys _ _ _ (store_v1 _ _ _) => unfold store_v1
  | |- obeys _ _ _ (store_v2 _ _ _) => unfold store_v2
  | |- obeys _ _ _ (let _ := _ in _) => cbv zeta
  | |- forall _, _ -> _ => first [intros ? <- | intros ? _]
  end.

Ltac in_range :=
  right;
  first
    [ assumption
    | rewrite ?int_mul_id by (unfold C.INT_MAX; lia);
      rewrite ?int_add_id by (unfold C.INT_MAX; lia); lia ].

Ltac shape_reads HF :=
  apply confined_shape_read;
  [ intros ?d ?Hd
  | let H := fresh in
    intros H; destruct HF as [HF|HF]; [exact HF|];
    cbn [vertex_arrays index_arrays] in *; decompose record HF; congruence
  | first [apply vshape_no_raise | apply ishape_no_raise] ].

Lemma confined_build_from_indices F (w : world) rv ri :
  F \/ (exists nv nt,
          vshape (vertex_arrays w) rv 0 = Ok nv
          /\ ishape (index_arrays w) ri 0 = Ok nt
          /\ 0 <= nv <= C.INT_MAX /\ 0 <= nt <= C.INT_MAX) ->
  confined F w (_build_from_indices to_float rv ri w).
Proof.
  intros HF. destruct w as [vas ias gs lg]. unfold _build_from_indices.
  shape_reads HF. shape_reads HF. cbv zeta.
  cbn [vertex_arrays index_arrays] in *.
  apply confined_after_new.
  destruct HF as [HF|(nv & nt & Hv & Hi & Hnv & Hnt)].
  - repeat obeys_step ltac:(left; exact HF).
  - pose proof (vshape_present _ _ _ _ Hv) as Hpv.
    pose proof (ishape_present _ _ _ _ Hi) as Hpi.
    assert (d = nv) as -> by congruence.
    assert (d0 = nt) as -> by congruence.
    unfold C.INT_MAX in *.
    rewrite !to_int_id, !to_size_t_id by (unfold C.INT_MAX; lia).
    repeat obeys_step in_range.
Qed.

Lemma confined_build_from_flat F (w : world) rv :
  F \/ (exists n, vshape (vertex_arrays w) rv 0 = Ok n
                  /\ 0 <= n /\ 3 * n <= C.INT_MAX) ->
  confined F w (_build_from_flat to_float rv w).
Proof.
  intros HF. destruct w as [vas ias gs lg]. unfold _build_from_flat.
  shape_reads HF. cbv zeta. cbn [vertex_arrays index_arrays] in *.
  apply confined_after_new.
  destruct HF as [HF|(n & Hv & Hn0 & Hn)].
  - repeat obeys_step ltac:(left; exact HF).
  - pose proof (vshape_present _ _ _ _ Hv) as Hpv.
    assert (d = n) as -> by congruence.
    unfold C.INT_MAX in *.
    rewrite !to_int_id by (unfold C.INT_MAX; lia).
    rewrite !int_mul_id by (unfold C.INT_MAX; lia).
    rewrite !to_size_t_id by (unfold C.INT_MAX; lia).
    repeat obeys_step in_range.
Qed.

Lemma confined_build_from_quads F (w : world) rv ri :
  F \/ (exists nv ne,
          vshape (vertex_arrays w) rv 0 = Ok nv
          /\ ishape (index_arrays w) ri 0 = Ok ne
          /\ 0 <= nv <= C.INT_MAX /\ 0 <= ne /\ 12 * ne <= C.INT_MAX) ->
  confined F w (_build_from_quads to_float rv ri w).
Proof.
  intros HF. destruct w as [vas ias gs lg]. unfold _build_from_quads.
  shape_reads HF. shape_reads HF. cbv zeta.
  cbn [vertex_arrays index_arrays] in *.
  apply confined_after_new.
  destruct HF as [HF|(nv & ne & Hv & Hi & Hnv & Hne0 & Hne)].
  - repeat obeys_step ltac:(left; exact HF).
  - pose proof (vshape_present _ _ _ _ Hv) as Hpv.
    pose proof (ishape_present _ _ _ _ Hi) as Hpi.
    assert (d = nv) as -> by congruence.
    assert (d0 = ne) as -> by congruence.
    unfold C.INT_MAX in *.
    rewrite !to_int_id by (unfold C.INT_MAX; lia).
    rewrite (int_mul_id 6 2) by (unfold C.INT_MAX; lia).
    rewrite !int_mul_id by (unfold C.INT_MAX; lia).
    rewrite !to_size_t_id by (unfold C.INT_MAX; lia).
    repeat obeys_step in_range.
Qed.

Lemma confined_build_from_triangles F (w : world) rv ri :
  F \/ (exists nv ne,
          vshape (vertex_arrays w) rv 0 = Ok nv
          /\ ishape (index_arrays w) ri 0 = Ok ne
          /\ 0 <= nv <= C.INT_MAX /\ 0 <= ne /\ 4 * ne <= C.INT_MAX) ->
  confined F w (_build_from_triangles to_float rv ri w).
Proof.
  intros HF. destruct w as [vas ias gs lg]. unfold _build_from_triangles.
  shape_reads HF. shape_reads HF. cbv zeta.
  cbn [vertex_arrays index_arrays] in *.
  apply confined_after_new.
  destruct HF as [HF|(nv & ne & Hv & Hi & Hnv & Hne0 & Hne)].
  - repeat obeys_step ltac:(left; exact HF).
  - pose proof (vshape_present _ _ _ _ Hv) as Hpv.
    pose proof (ishape_present _ _ _ _ Hi) as Hpi.
    assert (d = nv) as -> by congruence.
    assert (d0 = ne) as -> by congruence.
    unfold C.INT_MAX in *.
    rewrite !to_int_id by (unfold C.INT_MAX; lia).
    rewrite !int_mul_id by (unfold C.INT_MAX; lia).
    rewrite !to_size_t_id by (unfold C.INT_MAX; lia).
    repeat obeys_step in_range.
Qed.

Lemma is_ok_value {A} (r : result A) : is_ok r -> exists a, r = Ok a.
Proof. destruct r; simpl; [eauto|contradiction|contradiction]. Qed.

(** Every construction is confined to its own geometry; with [F] false,
    the arrays must be there and the counts must fit. *)
Lemma construct_confined F (w : world) (c : construction) :
  F \/ (has_rows w c /\ counts_fit w c) ->
  confined F w (construct to_float c w).
Proof.
  intros HF. destruct c as [v [i|]|v i]; simpl construct.
  - apply confined_build_from_indices.
    destruct HF as [HF|[[Hv Hi] Hfit]]; [now left|right].
    apply is_ok_value in Hv, Hi. destruct Hv as [nv Hv], Hi as [nt Hi].
    exists nv, nt. destruct (Hfit nv nt Hv Hi). auto.
  - apply confined_build_from_flat.
    destruct HF as [HF|[Hv Hfit]]; [now left|right].
    apply is_ok_value in Hv. destruct Hv as [n Hv].
    exists n. destruct (Hfit n Hv). auto.
  - assert (F \/ exists nv ne d,
              vshape (vertex_arrays w) v 0 = Ok nv
              /\ ishape (index_arrays w) i 0 = Ok ne
              /\ ishape (index_arrays w) i 1 = Ok d
              /\ 0 <= nv <= C.INT_MAX /\ 0 <= ne /\ 12 * ne <= C.INT_MAX)
      as HF'.
    { destruct HF as [HF|[(Hv & Hi & Hd) Hfit]]; [now left|right].
      apply is_ok_value in Hv, Hi, Hd.
      destruct Hv as [nv Hv], Hi as [ne Hi], Hd as [d Hd].
      exists nv, ne, d. destruct (Hfit nv ne Hv Hi) as (? & ? & ?). auto. }
    clear HF. unfold ElementMesh_init.
    apply confined_shape_read;
      [ intros d Hd
      | intros H; destruct HF' as [HF|(nv & ne & d & _ & _ & Hd & _)];
        [exact HF|congruence]
      | apply ishape_no_raise ].
    destruct (d =? 8); [|destruct (d =? 4)].
    + apply confined_build_from_quads.
      destruct HF' as [HF|(nv & ne & d' & Hv & Hi & _ & ? & ? & ?)];
        [now left|right].
      exists nv, ne. auto.
    + apply confined_build_from_triangles.
      destruct HF' as [HF|(nv & ne & d' & Hv & Hi & _ & ? & ? & ?)];
        [now left|right].
      exists nv, ne. repeat split; auto; lia.
    + split; simpl; [|exact Logic.I].
      exists [], []. rewrite !app_nil_r. split; [reflexivity|].
      split; [simpl; lia|]. split; [intros []|].
      split; [reflexivity|constructor].
Qed.

(** X4. Whatever the arrays hold, a construction that runs to its end or
    stops at an exception leaves every geometry of the scene as it was,
    adds at most one geometry at the end, and makes engine calls on that
    geometry only. *)
Theorem construction_touches_only_its_geometry (w : world)
    (c : construction) :
  snd (construct to_float c w) <> Fault ->
  exists rest evs,
    geoms (fst (construct to_float c w)) = geoms w ++ rest
    /\ (length rest <= 1)%nat
    /\ log (fst (construct to_float c w)) = log w ++ evs
    /\ Forall (fun ev => event_mesh ev = length (geoms w)) evs.
Proof.
  intros _.
  destruct (construct_confined True w c (or_introl Logic.I))
    as [(rest & evs & Hg & Hle & _ & Hlog & Hevs) _].
  now exists rest, evs.
Qed.

(** X5. The mesh of a construction that runs to its end records the
    geometry that this construction allocated: the scene has one geometry
    more, the first call of the construction is the allocation whose
    handle the mesh holds, every further call is on that handle, and the
    two pointers of the mesh are those of the buffers of that handle;
    whatever the sizes of the arrays. *)
Theorem completed_construction_holds_its_geometry (w : world)
    (c : construction) (t : TriangleMesh) :
  snd (construct to_float c w) = Ok t ->
  vertices t = mkPointer (mesh t) RTC_VERTEX_BUFFER
  /\ indices t = mkPointer (mesh t) RTC_INDEX_BUFFER
  /\ exists g nt nv evs,
       geoms (fst (construct to_float c w)) = geoms w ++ [g]
       /\ log (fst (construct to_float c w))
          = log w ++ EvNewTriangleMesh (mesh t) nt nv :: evs
       /\ Forall (fun ev => event_mesh ev = mesh t) evs.
Proof.
  intros Hok.
  destruct (construct_confined True w c (or_introl Logic.I))
    as [(rest & evs & Hg & _ & Hone & Hlog & Hevs) Hr].
  rewrite Hok in Hr, Hone. subst t. cbn [mesh vertices indices mesh_of].
  destruct (Hone Logic.I) as (Hlen & nt & nv & evs' & ->).
  split; [reflexivity|]. split; [reflexivity|].
  destruct rest as [|g [|g' rest]]; try discriminate Hlen.
  exists g, nt, nv, evs'. split; [exact Hg|]. split; [exact Hlog|].
  now inversion Hevs.
Qed.

(** X6. After a construction has run to its end, a further construction
    in the same scene that runs to its end or stops at an exception leaves
    the geometry of the first mesh as it is. *)
Theorem later_construction_keeps_earlier_mesh (w : world)
    (c1 c2 : construction) (t1 : TriangleMesh) :
  snd (construct to_float c1 w) = Ok t1 ->
  let w1 := fst (construct to_float c1 w) in
  let r2 := construct to_float c2 w1 in
  snd r2 <> Fault ->
  is_Some (geoms w1 !! mesh t1)
  /\ geoms (fst r2) !! mesh t1 = geoms w1 !! mesh t1.
Proof.
  intros Hok w1 r2 _.
  destruct (construct_confined True w c1 (or_introl Logic.I))
    as [(rest1 & evs1 & Hg1 & _ & Hone1 & _) Hr1].
  rewrite Hok in Hr1, Hone1. destruct (Hone1 Logic.I) as [Hlen1 _].
  subst t1.
  destruct (construct_confined True w1 c2 (or_introl Logic.I))
    as [(rest2 & evs2 & Hg2 & _) _].
  fold r2 in Hg2.
  assert (length (geoms w1) = S (length (geoms w))) as Hlen.
  { unfold w1. rewrite Hg1, length_app, Hlen1. lia. }
  cbn [mesh mesh_of]. split.
  - apply lookup_lt_is_Some. lia.
  - rewrite Hg2. apply lookup_app_l. lia.
Qed.

(** X7. When the arrays of a construction are there and the numbers of
    their rows fit, every store of the construction lands in a slot of
    the buffer it was given: the construction returns or raises, it
    never faults, whatever the arrays hold. *)
Theorem construction_stays_within_buffers (w : world)
    (c : construction) :
  has_rows w c -> counts_fit w c ->
  snd (construct to_float c w) <> Fault.
Proof.
  intros Hrows Hfit Hfault.
  destruct (construct_confined False w c (or_intror (conj Hrows Hfit)))
    as [_ Hr].
  now rewrite Hfault in Hr.
Qed.

End Confinement.

(** ** The buffers at the end of a construction *)

Section Buffers.

Context {scalar coord : Type} (to_float : scalar -> coord).

Local Abbreviation world := (world scalar coord).
Local Abbreviation geometry := (geometry coord).
Local Abbreviation M := (M scalar coord).

Lemma hoare_bind {A B} (P Q R : world -> Prop) E (m : M A) (f : A -> M B) :
  hoare P m Q E -> (forall a, hoare Q (f a) R E) -> hoare P (bind m f) R E.
Proof.
  intros Hm Hf w HP. specialize (Hm w HP). unfold bind.
  destruct (m w) as [w' [a|e|]]; simpl in *; auto.
  now apply Hf.
Qed.

Lemma hoare_ret {A} (P : world -> Prop) E (a : A) : hoare P (ret a) P E.
Proof. now intros w HP. Qed.

Lemma hoare_for_from (P : world -> Prop) E (body : Z -> M unit) n :
  (forall i, hoare P (body i) P E) ->
  forall i, hoare P (for_from i n body) P E.
Proof.
  intros Hbody. induction n as [|n IH]; intros i; simpl.
  - apply hoare_ret.
  - eapply hoare_bind; [apply Hbody|]. intros _. apply IH.
Qed.

Lemma hoare_for_range (P : world -> Prop) E (body : Z -> M unit) n :
  (forall i, hoare P (body i) P E) -> hoare P (for_range n body) P E.
Proof. intros Hbody. now apply hoare_for_from. Qed.

Lemma vitem_raises (vas : list (ndarray scalar)) r idx :
  vitem to_float vas r idx <> Raise NotImplementedError.
Proof.
  unfold vitem, getitem. destruct (vas !! r) as [a|]; [|discriminate].
  destruct (locate (shape a) idx); simpl; [|discriminate].
  unfold scalar_of. simpl. destruct (drop (length idx) (shape a));
    discriminate.
Qed.

Lemma iitem_raises (ias : list (ndarray Z)) r i k :
  iitem ias r i k <> Raise NotImplementedError.
Proof.
  unfold iitem, getitem. destruct (ias !! r) as [a|]; [|discriminate].
  destruct (locate (shape a) [i]); simpl; [|discriminate].
  destruct (locate _ [k]); simpl; [|discriminate].
  unfold scalar_of. simpl.
  destruct (drop 1 (drop 1 (shape a))); simpl; [|discriminate].
  unfold as_int. destruct (_ && _); discriminate.
Qed.

Lemma hoare_read_vertices (P : world -> Prop) (E : exn -> world -> Prop)
    r idx :
  (forall e w, e <> NotImplementedError -> P w -> E e w) ->
  hoare P (read_vertices to_float r idx) P E.
Proof.
  intros HE w HP. unfold read_vertices. simpl.
  pose proof (vitem_raises (vertex_arrays w) r idx) as Hr.
  destruct (vitem _ _ _ _) as [c|e|]; auto.
  apply HE; [congruence|exact HP].
Qed.

Lemma hoare_read_indices (P : world -> Prop) (E : exn -> world -> Prop)
    r i k :
  (forall e w, e <> NotImplementedError -> P w -> E e w) ->
  hoare P (@read_indices scalar coord r i k) P E.
Proof.
  intros HE w HP. unfold read_indices. simpl.
  pose proof (iitem_raises (index_arrays w) r i k) as Hr.
  destruct (iitem _ _ _ _) as [c|e|]; auto.
  apply HE; [congruence|exact HP].
Qed.

Lemma hoare_shape_of_vertices (P : world -> Prop) E r k :
  hoare P (@shape_of_vertices scalar coord r k) P E.
Proof.
  intros w HP. unfold shape_of_vertices. simpl.
  pose proof (vshape_no_raise (vertex_arrays w) r k) as Hr.
  destruct (vshape _ _ _) as [c|e|]; auto. now elim (Hr e).
Qed.

Lemma hoare_shape_of_indices (P : world -> Prop) E r k :
  hoare P (@shape_of_indices scalar coord r k) P E.
Proof.
  intros w HP. unfold shape_of_indices. simpl.
  pose proof (ishape_no_raise (index_arrays w) r k) as Hr.
  destruct (ishape _ _ _) as [c|e|]; auto. now elim (Hr e).
Qed.

(** A change of geometry [m'] that keeps its two flags keeps [held]. *)
Lemma held_insert m a b m' (g g' : geometry) (w : world) lg :
  geoms w !! m' = Some g ->
  vertex_mapped g' = vertex_mapped g -> index_mapped g' = index_mapped g ->
  held m a b w ->
  held m a b (set_scene w (<[m' := g']> (geoms w)) lg).
Proof.
  intros Hg Hv Hi (g0 & Hg0 & Ha & Hb). unfold held.
  cbn [geoms set_scene].
  destruct (decide (m = m')) as [->|Hne].
  - exists g'. rewrite list_lookup_insert_eq
      by (apply lookup_lt_is_Some; eauto).
    split; [reflexivity|]. split; congruence.
  - exists g0. rewrite list_lookup_insert_ne by congruence. auto.
Qed.

Lemma hoare_store_vertex m a b E p slot fld f :
  hoare (held m a b) (@store_vertex scalar coord p slot fld f)
        (held m a b) E.
Proof.
  intros w HP. unfold store_vertex.
  destruct (p_kind p); simpl; auto.
  destruct (geoms w !! p_mesh p) as [g|] eqn:Hg; simpl; auto.
  destruct (poke _ _ _); cbn [fst snd]; auto.
  now apply (held_insert _ _ _ _ g).
Qed.

Lemma hoare_store_triangle m a b E p slot fld f :
  hoare (held m a b) (@store_triangle scalar coord p slot fld f)
        (held m a b) E.
Proof.
  intros w HP. unfold store_triangle.
  destruct (p_kind p); simpl; auto.
  destruct (geoms w !! p_mesh p) as [g|] eqn:Hg; simpl; auto.
  destruct (poke _ _ _); cbn [fst snd]; auto.
  now apply (held_insert _ _ _ _ g).
Qed.

Lemma held_set m a b (w : world) (g : geometry) k v ev :
  geoms w !! m = Some g ->
  vertex_mapped (set_mapped g k v) = a ->
  index_mapped (set_mapped g k v) = b ->
  held m a b (set_scene w (<[m := set_mapped g k v]> (geoms w)) ev).
Proof.
  intros Hg Ha Hb. exists (set_mapped g k v). cbn [geoms set_scene].
  rewrite list_lookup_insert_eq by (apply lookup_lt_is_Some; eauto).
  auto.
Qed.

Lemma hoare_map_vertices m a b E :
  hoare (held m a b) (@rtcMapBuffer scalar coord m RTC_VERTEX_BUFFER)
        (held m true b) E.
Proof.
  intros w (g & Hg & Ha & Hb). unfold rtcMapBuffer. rewrite Hg.
  cbn [fst snd]. now apply held_set.
Qed.

Lemma hoare_map_indices m a b E :
  hoare (held m a b) (@rtcMapBuffer scalar coord m RTC_INDEX_BUFFER)
        (held m a true) E.
Proof.
  intros w (g & Hg & Ha & Hb). unfold rtcMapBuffer. rewrite Hg.
  cbn [fst snd]. now apply held_set.
Qed.

Lemma hoare_unmap_vertices m a b E :
  hoare (held m a b) (@rtcUnmapBuffer scalar coord m RTC_VERTEX_BUFFER)
        (held m false b) E.
Proof.
  intros w (g & Hg & Ha & Hb). unfold rtcUnmapBuffer. rewrite Hg.
  cbn [fst snd]. now apply held_set.
Qed.

Lemma hoare_unmap_indices m a b E :
  hoare (held m a b) (@rtcUnmapBuffer scalar coord m RTC_INDEX_BUFFER)
        (held m a false) E.
Proof.
  intros w (g & Hg & Ha & Hb). unfold rtcUnmapBuffer. rewrite Hg.
  cbn [fst snd]. now apply held_set.
Qed.

Lemma hoare_after_new {B} (gs : list geometry) fl nt nv ts
    (f : nat -> M B) R E :
  hoare (held (length gs) false false) (f (length gs)) R E ->
  hoare (fun w => geoms w = gs) (bind (rtcNewTriangleMesh fl nt nv ts) f)
        R E.
Proof.
  intros Hf w Hw. unfold bind, rtcNewTriangleMesh, set_scene. rewrite Hw.
  apply Hf. eexists. cbn [geoms]. split; [apply lookup_newest|].
  split; reflexivity.
Qed.

Ltac hoare_step :=
  lazymatch goal with
  | |- hoare _ (bind (rtcNewTriangleMesh _ _ _ _) _) _ _ =>
      apply hoare_after_new; cbv beta
  | |- hoare _ (bind _ _) _ _ => eapply hoare_bind
  | |- hoare _ (ret _) _ _ => apply hoare_ret
  | |- hoare _ (for_range _ _) _ _ => apply hoare_for_range; intros ?
  | |- hoare _ (shape_of_vertices _ _) _ _ => apply hoare_shape_of_vertices
  | |- hoare _ (shape_of_indices _ _) _ _ => apply hoare_shape_of_indices
  | |- hoare _ (read_vertices _ _ _) _ _ =>
      apply hoare_read_vertices; intros ? ? ? ?; split; auto
  | |- hoare _ (read_indices _ _ _) _ _ =>
      apply hoare_read_indices; intros ? ? ? ?; split; auto
  | |- hoare _ (rtcMapBuffer _ RTC_VERTEX_BUFFER) _ _ =>
      apply hoare_map_vertices
  | |- hoare _ (rtcMapBuffer _ RTC_INDEX_BUFFER) _ _ =>
      apply hoare_map_indices
  | |- hoare _ (rtcUnmapBuffer _ RTC_VERTEX_BUFFER) _ _ =>
      apply hoare_unmap_vertices
  | |- hoare _ (rtcUnmapBuffer _ RTC_INDEX_BUFFER) _ _ =>
      apply hoare_unmap_indices
  | |- hoare _ (store_vertex _ _ _ _) _ _ => apply hoare_store_vertex
  | |- hoare _ (store_triangle _ _ _ _) _ _ => apply hoare_store_triangle
  | |- hoare _ (store_face _ _ _ _ _ _ _) _ _ => unfold store_face
  | |- hoare _ (copy_vertices _ _ _ _) _ _ => unfold copy_vertices
  | |- hoare _ (store_x _ _ _) _ _ => unfold store_x
  | |- hoare _ (store_y _ _ _) _ _ => unfold store_y
  | |- hoare _ (store_z _ _ _) _ _ => unfold store_z
  | |- hoare _ (store_v0 _ _ _) _ _ => unfold store_v0
  | |- hoare _ (store_v1 _ _ _) _ _ => unfold store_v1
  | |- hoare _ (store_v2 _ _ _) _ _ => unfold store_v2
  | |- hoare _ (let _ := _ in _) _ _ => cbv zeta
  | |- forall _, _ => intros ?
  end.

Lemma hoare_build_from_flat (gs : list geometry) rv :
  hoare (fun w => geoms w = gs) (_build_from_flat to_float rv)
        (held (length gs) false false) (one_acquired (length gs)).
Proof. unfold _build_from_flat. cbv zeta. repeat hoare_step. Qed.

Lemma hoare_build_from_indices (gs : list geometry) rv ri :
  hoare (fun w => geoms w = gs) (_build_from_indices to_float rv ri)
        (held (length gs) false false) (one_acquired (length gs)).
Proof. unfold _build_from_indices. cbv zeta. repeat hoare_step. Qed.

Lemma hoare_build_from_quads (gs : list geometry) rv ri :
  hoare (fun w => geoms w = gs) (_build_from_quads to_float rv ri)
        (held (length gs) false false) (one_acquired (length gs)).
Proof. unfold _build_from_quads. cbv zeta. repeat hoare_step. Qed.

Lemma hoare_build_from_triangles (gs : list geometry) rv ri :
  hoare (fun w => geoms w = gs) (_build_from_triangles to_float rv ri)
        (held (length gs) false false) (one_acquired (length gs)).
Proof. unfold _build_from_triangles. cbv zeta. repeat hoare_step. Qed.

(** X8. When a build runs to its end, both buffers of the new geometry
    are released.  [NotImplementedError] is raised before anything is done
    to the scene.  A build that stops at any other exception leaves the
    new geometry in the scene with exactly one of its buffers acquired. *)
Theorem buffers_at_the_end_of_a_construction (w : world)
    (c : construction) :
  let n := length (geoms w) in
  let r := construct to_float c w in
  match snd r with
  | Ok _ => held n false false (fst r)
  | Raise NotImplementedError => fst r = w
  | Raise _ => held n true false (fst r) \/ held n false true (fst r)
  | Fault => True
  end.
Proof.
  intros n r. subst n r.
  assert (forall m : M TriangleMesh,
            hoare (fun w' => geoms w' = geoms w) m
                  (held (length (geoms w)) false false)
                  (one_acquired (length (geoms w))) ->
            match snd (m w) with
            | Ok _ => held (length (geoms w)) false false (fst (m w))
            | Raise NotImplementedError => fst (m w) = w
            | Raise _ =>
                held (length (geoms w)) true false (fst (m w))
                \/ held (length (geoms w)) false true (fst (m w))
            | Fault => True
            end) as Hgen.
  { intros m Hm. specialize (Hm w eq_refl).
    destruct (snd (m w)) as [t|e|]; auto.
    destruct Hm as [He Hm]. destruct e; auto. now elim He. }
  destruct c as [v [i|]|v i]; simpl construct.
  - apply Hgen, hoare_build_from_indices.
  - apply Hgen, hoare_build_from_flat.
  - unfold ElementMesh_init, bind, shape_of_indices.
    destruct (ishape (index_arrays w) i 1) as [d|e|] eqn:Hd.
    + destruct (d =? 8); [|destruct (d =? 4)].
      * apply Hgen, hoare_build_from_quads.
      * apply Hgen, hoare_build_from_triangles.
      * reflexivity.
    + now elim (ishape_no_raise _ _ _ _ Hd).
    + exact Logic.I.
Qed.

(** X9. [NotImplementedError] comes from [ElementMesh] on an index array
    whose second dimension is neither 4 nor 8, and from nowhere else; the
    scene is then as it was. *)
Theorem NotImplementedError_means_other_arity (w : world)
    (c : construction) :
  snd (construct to_float c w) = Raise NotImplementedError ->
  exists v i d,
    c = NewElementMesh v i
    /\ ishape (index_arrays w) i 1 = Ok d /\ d <> 4 /\ d <> 8
    /\ fst (construct to_float c w) = w.
Proof.
  assert (forall m : M TriangleMesh,
            hoare (fun w' => geoms w' = geoms w) m
                  (held (length (geoms w)) false false)
                  (one_acquired (length (geoms w))) ->
            snd (m w) <> Raise NotImplementedError) as Hnot.
  { intros m Hm Hraise. specialize (Hm w eq_refl).
    rewrite Hraise in Hm. destruct Hm as [He _]. now elim He. }
  destruct c as [v [i|]|v i]; simpl construct; intros Hraise.
  - now elim (Hnot _ (hoare_build_from_indices (geoms w) v i)).
  - now elim (Hnot _ (hoare_build_from_flat (geoms w) v)).
  - exists v, i. revert Hraise.
    unfold ElementMesh_init, bind, shape_of_indices.
    destruct (ishape (index_arrays w) i 1) as [d|e|] eqn:Hd;
      [|now elim (ishape_no_raise _ _ _ _ Hd)|discriminate].
    destruct (d =? 8) eqn:E8; [|destruct (d =? 4) eqn:E4]; intros Hraise.
    + now elim (Hnot _ (hoare_build_from_quads (geoms w) v i)).
    + now elim (Hnot _ (hoare_build_from_triangles (geoms w) v i)).
    + exists d. apply Z.eqb_neq in E8, E4. auto.
Qed.

End Buffers.

(** ** What a build that runs to its end has read *)

Section Demands.

Context {scalar coord : Type} (to_float : scalar -> coord).
Context (vas : list (ndarray scalar)) (ias : list (ndarray Z)).

Local Abbreviation world := (world scalar coord).
Local Abbreviation geometry := (geometry coord).
Local Abbreviation M := (M scalar coord).
Local Abbreviation demands := (@demands scalar coord vas ias).

Lemma demands_bind {A B} (req : A -> Prop) (req' : B -> Prop)
    (m : M A) (f : A -> M B) :
  demands req m -> (forall a, req a -> demands req' (f a)) ->
  demands req' (bind m f).
Proof.
  intros Hm Hf w Hv Hi. destruct (Hm w Hv Hi) as [[Hv' Hi'] Ha].
  unfold bind. destruct (m w) as [w' [a|e|]]; simpl in *.
  - apply Hf; auto.
  - split; [auto|discriminate].
  - split; [auto|discriminate].
Qed.

Lemma demands_conseq {A} (req req' : A -> Prop) (m : M A) :
  demands req m -> (forall a, req a -> req' a) -> demands req' m.
Proof.
  intros Hm Himp w Hv Hi. destruct (Hm w Hv Hi) as [Harr Ha].
  split; [exact Harr|]. intros a E. apply Himp, Ha, E.
Qed.

Lemma demands_ret {A} (a : A) : demands (fun _ => True) (ret a).
Proof. intros w Hv Hi. simpl. auto. Qed.

Lemma demands_for_from (body : Z -> M unit) (req : Z -> Prop) count :
  forall lo,
    (forall i, lo <= i < lo + Z.of_nat count ->
               demands (fun _ => req i) (body i)) ->
    demands (fun _ => forall i, lo <= i < lo + Z.of_nat count -> req i)
            (for_from lo count body).
Proof.
  induction count as [|n IH]; intros lo Hbody; simpl for_from.
  - intros w Hv Hi. simpl. split; [auto|]. intros u _ i Hlt. lia.
  - eapply demands_bind; [apply (Hbody lo); lia|]. intros u Hlo. cbv beta in Hlo.
    eapply demands_conseq.
    + apply (IH (lo + 1)). intros i Hlt. apply Hbody. lia.
    + intros u' Hrest i Hlt. cbv beta in Hrest.
      destruct (Z.eq_dec i lo) as [->|Hne]; [exact Hlo|].
      apply Hrest. lia.
Qed.

Lemma demands_for_range (body : Z -> M unit) (req : Z -> Prop) n :
  (forall i, 0 <= i < n -> demands (fun _ => req i) (body i)) ->
  demands (fun _ => forall i, 0 <= i < n -> req i) (for_range n body).
Proof.
  intros Hbody. unfold for_range. eapply demands_conseq.
  - apply (demands_for_from body req (Z.to_nat n) 0).
    intros i Hlt. apply Hbody. lia.
  - intros u Hall i Hlt. cbv beta in Hall. apply Hall. lia.
Qed.

Lemma demands_read_vertices r idx :
  demands (fun c => vitem to_float vas r idx = Ok c)
          (read_vertices to_float r idx).
Proof.
  intros w Hv Hi. unfold read_vertices. cbn [fst snd]. rewrite Hv. auto.
Qed.

Lemma demands_read_indices r i k :
  demands (fun e => iitem ias r i k = Ok e) (read_indices r i k).
Proof.
  intros w Hv Hi. unfold read_indices. cbn [fst snd]. rewrite Hi. auto.
Qed.

Lemma demands_shape_of_vertices r k :
  demands (fun d => vshape vas r k = Ok d) (shape_of_vertices r k).
Proof.
  intros w Hv Hi. unfold shape_of_vertices. cbn [fst snd]. rewrite Hv. auto.
Qed.

Lemma demands_shape_of_indices r k :
  demands (fun d => ishape ias r k = Ok d) (shape_of_indices r k).
Proof.
  intros w Hv Hi. unfold shape_of_indices. cbn [fst snd]. rewrite Hi. auto.
Qed.

Lemma demands_rtcNewTriangleMesh fl nt nv ts :
  demands (fun _ => True) (rtcNewTriangleMesh fl nt nv ts).
Proof. intros w Hv Hi. simpl. auto. Qed.

Lemma demands_rtcMapBuffer m k :
  demands (fun _ => True) (rtcMapBuffer m k).
Proof.
  intros w Hv Hi. unfold rtcMapBuffer.
  destruct (geoms w !! m); simpl; auto.
Qed.

Lemma demands_rtcUnmapBuffer m k :
  demands (fun _ => True) (rtcUnmapBuffer m k).
Proof.
  intros w Hv Hi. unfold rtcUnmapBuffer.
  destruct (geoms w !! m); simpl; auto.
Qed.

Lemma demands_store_vertex p slot fld f :
  demands (fun _ => True) (store_vertex p slot fld f).
Proof.
  intros w Hv Hi. unfold store_vertex.
  destruct (p_kind p); simpl; auto.
  destruct (geoms w !! p_mesh p); simpl; auto.
  destruct (poke _ _ _); simpl; auto.
Qed.

Lemma demands_store_triangle p slot fld f :
  demands (fun _ => True) (store_triangle p slot fld f).
Proof.
  intros w Hv Hi. unfold store_triangle.
  destruct (p_kind p); simpl; auto.
  destruct (geoms w !! p_mesh p); simpl; auto.
  destruct (poke _ _ _); simpl; auto.
Qed.

Ltac demands_prim :=
  lazymatch goal with
  | |- demands _ (ret _) => apply demands_ret
  | |- demands _ (read_vertices _ _ _) => apply demands_read_vertices
  | |- demands _ (read_indices _ _ _) => apply demands_read_indices
  | |- demands _ (shape_of_vertices _ _) =>
      apply demands_shape_of_vertices
  | |- demands _ (shape_of_indices _ _) => apply demands_shape_of_indices
  | |- demands _ (rtcNewTriangleMesh _ _ _ _) =>
      apply demands_rtcNewTriangleMesh
  | |- demands _ (rtcMapBuffer _ _) => apply demands_rtcMapBuffer
  | |- demands _ (rtcUnmapBuffer _ _) => apply demands_rtcUnmapBuffer
  | |- demands _ (store_vertex _ _ _ _) => apply demands_store_vertex
  | |- demands _ (store_triangle _ _ _ _) => apply demands_store_triangle
  end.

(** One statement of a body: its requirement joins the hypotheses. *)
Ltac demands_next :=
  lazymatch goal with
  | |- demands _ (bind _ _) =>
      eapply demands_bind; [demands_prim|intros ? ?; cbv beta in *]
  end.

Ltac demands_last :=
  eapply demands_conseq; [demands_prim|intros ? ?; cbv beta in *].

Ltac by_reads :=
  match goal with
  | H : ?r = Ok _ |- is_ok ?r => rewrite H; exact Logic.I
  end.

Lemma demands_copy_vertices src p nv :
  demands (fun _ => forall i k, 0 <= i < nv -> 0 <= k < 3 ->
                        is_ok (vitem to_float vas src [i; k]))
          (copy_vertices to_float src p nv).
Proof.
  unfold copy_vertices. eapply demands_conseq.
  - apply (demands_for_range _
             (fun i => forall k, 0 <= k < 3 ->
                         is_ok (vitem to_float vas src [i; k]))).
    intros i Hi. unfold store_x, store_y, store_z.
    repeat demands_next. demands_last. intros k Hk.
    assert (k = 0 \/ k = 1 \/ k = 2) as [->|[->| ->]] by lia; by_reads.
  - intros u H i k Hi Hk. cbv beta in H. now apply H.
Qed.

Lemma demands_store_face src p slot i a b c :
  demands (fun _ => is_ok (iitem ias src i a) /\ is_ok (iitem ias src i b)
                      /\ is_ok (iitem ias src i c))
          (store_face src p slot i a b c).
Proof.
  unfold store_face, store_v0, store_v1, store_v2.
  repeat demands_next. demands_last. repeat split; by_reads.
Qed.

Ltac demands_stmt :=
  first [ demands_prim
        | apply demands_copy_vertices
        | apply demands_store_face ].

Ltac demands_seq :=
  lazymatch goal with
  | |- demands _ (bind _ _) =>
      eapply demands_bind; [demands_stmt|intros ? ?; cbv beta in *]
  end.

Ltac demands_end :=
  eapply demands_conseq; [demands_stmt|intros ? ?; cbv beta in *].

Ltac demands_loop req :=
  eapply demands_bind;
  [ apply (demands_for_range _ req); intros ?i ?Hi
  | intros ? ?Hloop; cbv beta in * ].

Ltac split_reads :=
  repeat match goal with
         | H : is_ok _ /\ _ |- _ => destruct H
         end.

Lemma demands_build_from_flat rv :
  demands (fun _ => exists d,
             vshape vas rv 0 = Ok d
             /\ forall i j k, 0 <= i < C.to_int d -> 0 <= j < 3 ->
                  0 <= k < 3 -> is_ok (vitem to_float vas rv [i; j; k]))
          (_build_from_flat to_float rv).
Proof.
  unfold _build_from_flat. demands_seq. cbv zeta. repeat demands_seq.
  demands_loop (fun i => forall j k, 0 <= j < 3 -> 0 <= k < 3 ->
                  is_ok (vitem to_float vas rv [i; j; k])).
  { eapply demands_conseq.
    - apply (demands_for_range _
               (fun j => forall k, 0 <= k < 3 ->
                  is_ok (vitem to_float vas rv [i; j; k]))).
      intros j Hj. unfold store_x, store_y, store_z.
      repeat demands_next. demands_last. intros k Hk.
      assert (k = 0 \/ k = 1 \/ k = 2) as [->|[->| ->]] by lia; by_reads.
    - intros u Hall j k Hj Hk. now apply Hall. }
  repeat demands_seq.
  eapply demands_bind.
  { apply (demands_for_range _ (fun _ => True)). intros i Hi.
    unfold store_v0, store_v1, store_v2.
    repeat demands_next. demands_last. exact Logic.I. }
  intros ? _. repeat demands_seq. demands_end.
  eexists. split; [eassumption|]. intros i j k Hi Hj Hk. now apply Hloop.
Qed.

Lemma demands_build_from_indices rv ri :
  demands (fun _ => exists d d',
             vshape vas rv 0 = Ok d /\ ishape ias ri 0 = Ok d'
             /\ (forall i k, 0 <= i < C.to_int d -> 0 <= k < 3 ->
                   is_ok (vitem to_float vas rv [i; k]))
             /\ forall i k, 0 <= i < C.to_int d' -> 0 <= k < 3 ->
                  is_ok (iitem ias ri i k))
          (_build_from_indices to_float rv ri).
Proof.
  unfold _build_from_indices. demands_seq. demands_seq. cbv zeta.
  repeat demands_seq.
  demands_loop (fun i => forall k, 0 <= k < 3 -> is_ok (iitem ias ri i k)).
  { demands_end. split_reads. intros k Hk.
    assert (k = 0 \/ k = 1 \/ k = 2) as [->|[->| ->]] by lia; assumption. }
  repeat demands_seq. demands_end.
  do 2 eexists. split; [eassumption|]. split; [eassumption|].
  split; [assumption|]. intros i k Hi Hk. now apply Hloop.
Qed.

Lemma demands_build_from_quads rv ri :
  demands (fun _ => exists d d',
             vshape vas rv 0 = Ok d /\ ishape ias ri 0 = Ok d'
             /\ (forall i k, 0 <= i < C.to_int d -> 0 <= k < 3 ->
                   is_ok (vitem to_float vas rv [i; k]))
             /\ forall i k, 0 <= i < C.to_int d' -> 0 <= k < 8 ->
                  is_ok (iitem ias ri i k))
          (_build_from_quads to_float rv ri).
Proof.
  unfold _build_from_quads. demands_seq. demands_seq. cbv zeta.
  repeat demands_seq.
  demands_loop (fun i => forall k, 0 <= k < 8 -> is_ok (iitem ias ri i k)).
  { repeat demands_seq. demands_end. split_reads. intros k Hk.
    assert (k = 0 \/ k = 1 \/ k = 2 \/ k = 3 \/ k = 4 \/ k = 5 \/ k = 6
            \/ k = 7) as Hcase by lia.
    repeat (destruct Hcase as [->|Hcase]; [assumption|]).
    subst k. assumption. }
  repeat demands_seq. demands_end.
  do 2 eexists. split; [eassumption|]. split; [eassumption|].
  split; [assumption|]. intros i k Hi Hk. now apply Hloop.
Qed.

Lemma demands_build_from_triangles rv ri :
  demands (fun _ => exists d d',
             vshape vas rv 0 = Ok d /\ ishape ias ri 0 = Ok d'
             /\ (forall i k, 0 <= i < C.to_int d -> 0 <= k < 3 ->
                   is_ok (vitem to_float vas rv [i; k]))
             /\ forall i k, 0 <= i < C.to_int d' -> 0 <= k < 4 ->
                  is_ok (iitem ias ri i k))
          (_build_from_triangles to_float rv ri).
Proof.
  unfold _build_from_triangles. demands_seq. demands_seq. cbv zeta.
  repeat demands_seq.
  demands_loop (fun i => forall k, 0 <= k < 4 -> is_ok (iitem ias ri i k)).
  { repeat demands_seq. demands_end. split_reads. intros k Hk.
    assert (k = 0 \/ k = 1 \/ k = 2 \/ k = 3) as Hcase by lia.
    repeat (destruct Hcase as [->|Hcase]; [assumption|]).
    subst k. assumption. }
  repeat demands_seq. demands_end.
  do 2 eexists. split; [eassumption|]. split; [eassumption|].
  split; [assumption|]. intros i k Hi Hk. now apply Hloop.
Qed.

End Demands.

Lemma norm_index_some (n i j : Z) :
  0 <= i -> norm_index n i = Some j -> j = i /\ i < n.
Proof.
  intros Hi. unfold norm_index.
  rewrite (proj2 (Z.ltb_ge i 0)) by lia.
  destruct (0 <=? i) eqn:E0; destruct (i <? n) eqn:E1; simpl;
    try discriminate.
  intros [= <-]. apply Z.ltb_lt in E1. auto.
Qed.

Section Validity.

Context {scalar coord : Type} (to_float : scalar -> coord).

Local Abbreviation world := (world scalar coord).

(** An element that can be read at [[i; k]] lies in an array of rank 2. *)
Lemma vitem_ok_rank2 (vas : list (ndarray scalar)) r a i k :
  vas !! r = Some a -> 0 <= i -> 0 <= k ->
  is_ok (vitem to_float vas r [i; k]) ->
  exists d0 d1, shape a = [d0; d1] /\ i < d0 /\ k < d1.
Proof.
  intros Hr Hi Hk. unfold vitem, getitem. rewrite Hr.
  destruct (shape a) as [|d0 [|d1 rest]]; cbn [locate].
  - intros [].
  - destruct (norm_index d0 i); intros [].
  - destruct (norm_index d0 i) as [i'|] eqn:E0; [|intros []].
    destruct (norm_index d1 k) as [k'|] eqn:E1; [|intros []].
    cbn. destruct rest; cbn; [|intros []]. intros _.
    apply norm_index_some in E0, E1; try lia.
    exists d0, d1. intuition.
Qed.

Lemma vitem_ok_rank3 (vas : list (ndarray scalar)) r a i j k :
  vas !! r = Some a -> 0 <= i -> 0 <= j -> 0 <= k ->
  is_ok (vitem to_float vas r [i; j; k]) ->
  exists d0 d1 d2, shape a = [d0; d1; d2] /\ i < d0 /\ j < d1 /\ k < d2.
Proof.
  intros Hr Hi Hj Hk. unfold vitem, getitem. rewrite Hr.
  destruct (shape a) as [|d0 [|d1 [|d2 rest]]]; cbn [locate].
  - intros [].
  - destruct (norm_index d0 i); intros [].
  - destruct (norm_index d0 i); [|intros []].
    destruct (norm_index d1 j); intros [].
  - destruct (norm_index d0 i) as [i'|] eqn:E0; [|intros []].
    destruct (norm_index d1 j) as [j'|] eqn:E1; [|intros []].
    destruct (norm_index d2 k) as [k'|] eqn:E2; [|intros []].
    cbn. destruct rest; cbn; [|intros []]. intros _.
    apply norm_index_some in E0, E1, E2; try lia.
    exists d0, d1, d2. intuition.
Qed.

(** An entry that can be read at [[i][k]] lies in an array of rank 2 and
    is an [int]. *)
Lemma iitem_ok_rank2 (ias : list (ndarray Z)) r a i k :
  ias !! r = Some a -> 0 <= i -> 0 <= k ->
  is_ok (iitem ias r i k) ->
  exists d0 d1, shape a = [d0; d1] /\ i < d0 /\ k < d1
                /\ C.INT_MIN <= item a [i; k] <= C.INT_MAX.
Proof.
  intros Hr Hi Hk. unfold iitem, getitem. rewrite Hr.
  destruct (shape a) as [|d0 [|d1 rest]]; cbn [locate].
  - intros [].
  - destruct (norm_index d0 i); cbn; [|intros []]. intros [].
  - destruct (norm_index d0 i) as [i'|] eqn:E0; [|intros []].
    cbn. destruct (norm_index d1 k) as [k'|] eqn:E1; [|intros []].
    cbn. destruct rest; cbn; [|intros []].
    apply norm_index_some in E0, E1; try lia.
    destruct E0 as [-> ?], E1 as [-> ?].
    unfold as_int.
    destruct (C.INT_MIN <=? item a [i; k]) eqn:Elo;
      destruct (item a [i; k] <=? C.INT_MAX) eqn:Ehi; cbn;
      try (intros []).
    exists d0, d1. apply Z.leb_le in Elo, Ehi. intuition.
Qed.

Lemma rows_readable_shape (vas : list (ndarray scalar)) rv va nv :
  vas !! rv = Some va -> shape va !! 0%nat = Some nv -> 0 < nv ->
  (forall i k, 0 <= i < nv -> 0 <= k < 3 ->
     is_ok (vitem to_float vas rv [i; k])) ->
  exists cv, shape va = [nv; cv] /\ 3 <= cv.
Proof.
  intros Hr Hs Hnv Hall.
  destruct (vitem_ok_rank2 vas rv va 0 2 Hr) as (d0 & d1 & Hsh & _ & Hd1);
    [lia|lia|apply Hall; lia|].
  rewrite Hsh in Hs. injection Hs as ->. exists d1. split; [exact Hsh|lia].
Qed.

Lemma entries_readable_shape (ias : list (ndarray Z)) ri ia ne d :
  ias !! ri = Some ia -> shape ia !! 0%nat = Some ne -> 0 < ne -> 0 < d ->
  (forall i k, 0 <= i < ne -> 0 <= k < d -> is_ok (iitem ias ri i k)) ->
  exists ci, shape ia = [ne; ci] /\ d <= ci
             /\ forall i k, 0 <= i < ne -> 0 <= k < d ->
                  C.INT_MIN <= item ia [i; k] <= C.INT_MAX.
Proof.
  intros Hr Hs Hne Hd Hall.
  destruct (iitem_ok_rank2 ias ri ia 0 (d - 1) Hr)
    as (d0 & d1 & Hsh & _ & Hd1 & _); [lia|lia|apply Hall; lia|].
  rewrite Hsh in Hs. injection Hs as ->. exists d1.
  split; [exact Hsh|]. split; [lia|]. intros i k Hi Hk.
  destruct (iitem_ok_rank2 ias ri ia i k Hr)
    as (_ & _ & _ & _ & _ & Hrange); [lia|lia|apply Hall; lia|].
  exact Hrange.
Qed.

(** X10. On arrays of rank 2, the indexed build runs to its end only if
    the vertex array, when it has rows, has at least three columns, and
    the index array, when it has rows, has at least three columns and, in
    the three columns that are read, entries that an [int] holds. *)
Theorem TriangleMesh_indexed_completes_only_on_valid_arrays
    (w : world) (rv ri : nat) (va : ndarray scalar) (ia : ndarray Z)
    (nv nt cv ci : Z) (t : TriangleMesh) :
  vertex_arrays w !! rv = Some va -> index_arrays w !! ri = Some ia ->
  shape va = [nv; cv] -> shape ia = [nt; ci] ->
  0 <= nv <= C.INT_MAX -> 0 <= nt <= C.INT_MAX ->
  snd (TriangleMesh_init to_float rv (Some ri) w) = Ok t ->
  (0 < nv -> 3 <= cv)
  /\ (0 < nt ->
      3 <= ci
      /\ forall i k, 0 <= i < nt -> 0 <= k < 3 ->
           C.INT_MIN <= item ia [i; k] <= C.INT_MAX).
Proof.
  intros Hva Hia Hsv Hsi Hnv Hnt Hok. cbn [TriangleMesh_init] in Hok.
  assert (Hv0 : shape va !! 0%nat = Some nv) by now rewrite Hsv.
  assert (Hi0 : shape ia !! 0%nat = Some nt) by now rewrite Hsi.
  destruct (demands_build_from_indices to_float _ _ rv ri w
              eq_refl eq_refl) as [_ Hreq].
  destruct (Hreq t Hok) as (d & d' & Hd & Hd' & Hrows & Hfaces).
  rewrite (vshape_dim _ _ _ _ _ Hva Hv0) in Hd. injection Hd as <-.
  rewrite (ishape_dim _ _ _ _ _ Hia Hi0) in Hd'. injection Hd' as <-.
  rewrite to_int_id in Hrows, Hfaces by lia. split.
  - intros Hpos.
    destruct (rows_readable_shape (vertex_arrays w) rv va nv Hva Hv0 Hpos
                Hrows) as (cv' & Hsh & Hcv).
    congruence.
  - intros Hpos.
    destruct (entries_readable_shape (index_arrays w) ri ia nt 3 Hia Hi0
                Hpos) as (ci' & Hsh & Hci & Hent); [lia|exact Hfaces|].
    split; [congruence|exact Hent].
Qed.

(** X11. On an array of rank 3 with rows, the flat build runs to its end
    only if the array has at least three corners to a triangle and three
    coordinates to a corner. *)
Theorem TriangleMesh_flat_completes_only_on_valid_arrays
    (w : world) (rv : nat) (va : ndarray scalar) (n a b : Z)
    (t : TriangleMesh) :
  vertex_arrays w !! rv = Some va -> shape va = [n; a; b] ->
  0 < n <= C.INT_MAX ->
  snd (TriangleMesh_init to_float rv None w) = Ok t ->
  3 <= a /\ 3 <= b.
Proof.
  intros Hva Hsv Hn Hok. cbn [TriangleMesh_init] in Hok.
  assert (Hv0 : shape va !! 0%nat = Some n) by now rewrite Hsv.
  destruct (demands_build_from_flat to_float _ _ rv w eq_refl eq_refl)
    as [_ Hreq].
  destruct (Hreq t Hok) as (d & Hd & Hall).
  rewrite (vshape_dim _ _ _ _ _ Hva Hv0) in Hd. injection Hd as <-.
  rewrite to_int_id in Hall by lia.
  destruct (vitem_ok_rank3 (vertex_arrays w) rv va 0 2 2 Hva)
    as (d0 & d1 & d2 & Hsh & _ & Hd1 & Hd2); [lia|lia|lia|apply Hall; lia|].
  rewrite Hsh in Hsv. injection Hsv as -> -> ->. lia.
Qed.

(** X12. On arrays of rank 2, the build of an [ElementMesh] runs to its
    end only if the index array has four or eight columns and, when it has
    rows, entries that an [int] holds throughout, and the vertex array,
    when it has rows, has at least three columns. *)
Theorem ElementMesh_completes_only_on_valid_arrays
    (w : world) (rv ri : nat) (va : ndarray scalar) (ia : ndarray Z)
    (nv ne cv d : Z) (t : TriangleMesh) :
  vertex_arrays w !! rv = Some va -> index_arrays w !! ri = Some ia ->
  shape va = [nv; cv] -> shape ia = [ne; d] ->
  0 <= nv <= C.INT_MAX -> 0 <= ne <= C.INT_MAX ->
  snd (ElementMesh_init to_float rv ri w) = Ok t ->
  (d = 4 \/ d = 8)
  /\ (0 < nv -> 3 <= cv)
  /\ (0 < ne ->
      forall i k, 0 <= i < ne -> 0 <= k < d ->
        C.INT_MIN <= item ia [i; k] <= C.INT_MAX).
Proof.
  intros Hva Hia Hsv Hsi Hnv Hne Hok.
  assert (Hv0 : shape va !! 0%nat = Some nv) by now rewrite Hsv.
  assert (Hi0 : shape ia !! 0%nat = Some ne) by now rewrite Hsi.
  assert (Hi1 : shape ia !! 1%nat = Some d) by now rewrite Hsi.
  unfold ElementMesh_init, bind, shape_of_indices in Hok.
  rewrite (ishape_dim _ _ _ _ _ Hia Hi1) in Hok.
  assert ((d = 4 \/ d = 8)
          /\ exists d1 d2,
               vshape (vertex_arrays w) rv 0 = Ok d1
               /\ ishape (index_arrays w) ri 0 = Ok d2
               /\ (forall i k, 0 <= i < C.to_int d1 -> 0 <= k < 3 ->
                     is_ok (vitem to_float (vertex_arrays w) rv [i; k]))
               /\ forall i k, 0 <= i < C.to_int d2 -> 0 <= k < d ->
                    is_ok (iitem (index_arrays w) ri i k))
    as (Hcase & d1 & d2 & Hd1 & Hd2 & Hrows & Hfaces).
  { destruct (d =? 8) eqn:E8; [|destruct (d =? 4) eqn:E4].
    - apply Z.eqb_eq in E8. subst d. split; [now right|].
      destruct (demands_build_from_quads to_float _ _ rv ri w
                  eq_refl eq_refl) as [_ Hreq].
      exact (Hreq t Hok).
    - apply Z.eqb_eq in E4. subst d. split; [now left|].
      destruct (demands_build_from_triangles to_float _ _ rv ri w
                  eq_refl eq_refl) as [_ Hreq].
      exact (Hreq t Hok).
    - discriminate Hok. }
  rewrite (vshape_dim _ _ _ _ _ Hva Hv0) in Hd1. injection Hd1 as <-.
  rewrite (ishape_dim _ _ _ _ _ Hia Hi0) in Hd2. injection Hd2 as <-.
  rewrite to_int_id in Hrows, Hfaces by lia.
  split; [exact Hcase|]. split.
  - intros Hpos.
    destruct (rows_readable_shape (vertex_arrays w) rv va nv Hva Hv0 Hpos
                Hrows) as (cv' & Hsh & Hcv).
    congruence.
  - intros Hpos.
    destruct (entries_readable_shape (index_arrays w) ri ia ne d Hia Hi0
                Hpos) as (ci & _ & _ & Hent); [lia|exact Hfaces|].
    exact Hent.
Qed.

End Validity.

(** * Further scenarios *)

(** An element mesh of no vertices and no elements. *)
Lemma empty_arrays_make_an_empty_geometry :
  no_rows empty_world (NewElementMesh 0 0)
  /\ construct to_single (NewElementMesh 0 0) empty_world
     = (mkWorld (vertex_arrays empty_world) (index_arrays empty_world)
          [mkGeometry RTC_GEOMETRY_STATIC 0 0 [] [] false false]
          [EvNewTriangleMesh 0 0 0;
           EvMapBuffer 0 RTC_VERTEX_BUFFER;
           EvUnmapBuffer 0 RTC_VERTEX_BUFFER;
           EvMapBuffer 0 RTC_INDEX_BUFFER;
           EvUnmapBuffer 0 RTC_INDEX_BUFFER],
        Ok (mesh_of 0)).
Proof.
  assert (Hno : no_rows empty_world (NewElementMesh 0 0))
    by (split; [reflexivity|split; [reflexivity|right; reflexivity]]).
  split; [exact Hno|].
  exact (no_rows_make_an_empty_geometry to_single empty_world
           (NewElementMesh 0 0) Hno).
Defined.

(** Three vertices of five columns: the buffer holds the first three
    columns of each. *)
Lemma further_columns_are_left_out :
  vertex_arrays wide_world !! 0%nat = Some wide_vertices
  /\ index_arrays wide_world !! 0%nat = Some (of_rows 3 [[0; 1; 2]])
  /\ shape wide_vertices = [3; 5]
  /\ shape (of_rows 3 [[0; 1; 2]]) = [1; 3]
  /\ 3 <= 5 /\ 3 <= 3
  /\ 0 <= 3 <= C.INT_MAX /\ 0 <= 1 <= C.INT_MAX
  /\ (forall i k, 0 <= i < 1 -> 0 <= k < 3 ->
        0 <= item (of_rows 3 [[0; 1; 2]]) [i; k] <= C.INT_MAX)
  /\ exists w' g,
       TriangleMesh_init to_single 0 (Some 0%nat) wide_world
       = (w', Ok (mesh_of 0))
       /\ geoms w' = [g] /\ numVertices g = 3
       /\ vertex_buffer g !! 1%nat
          = Some (mkVertex (Some 1) (Some 0) (Some 0)).
Proof.
  assert (Hent : forall i k, 0 <= i < 1 -> 0 <= k < 3 ->
                   0 <= item (of_rows 3 [[0; 1; 2]]) [i; k] <= C.INT_MAX).
  { intros i k Hi Hk. assert (i = 0) as -> by lia.
    assert (Hk' : k = 0 \/ k = 1 \/ k = 2) by lia.
    entry_cases k Hk'. }
  assert (H5 : 3 <= 5) by lia. assert (H3 : 3 <= 3) by lia.
  assert (Hnv : 0 <= 3 <= C.INT_MAX) by (unfold C.INT_MAX; lia).
  assert (Hnt : 0 <= 1 <= C.INT_MAX) by (unfold C.INT_MAX; lia).
  repeat (split; [first [reflexivity | assumption]|]).
  destruct (TriangleMesh_indexed_ignores_further_columns to_single
              wide_world 0 0 wide_vertices (of_rows 3 [[0; 1; 2]])
              3 1 5 3 eq_refl eq_refl eq_refl eq_refl H5 H3 Hnv Hnt Hent)
    as (w' & g & Hrun & Hg & _ & Hn & _ & _ & Hvb & _).
  exists w', g. repeat (split; [assumption|]).
  apply (Hvb 1). lia.
Defined.

(** One triangle of four corners of four coordinates: the buffer holds
    three coordinates of three corners. *)
Lemma further_corners_are_left_out :
  vertex_arrays wide_soup_world !! 0%nat = Some wide_soup_vertices
  /\ shape wide_soup_vertices = [1; 4; 4]
  /\ 3 <= 4 /\ 0 <= 1 /\ 3 * 1 <= C.INT_MAX
  /\ exists w' g,
       TriangleMesh_init to_single 0 None wide_soup_world
       = (w', Ok (mesh_of 0))
       /\ geoms w' = [g] /\ numVertices g = 3
       /\ length (vertex_buffer g) = 3%nat
       /\ vertex_buffer g !! 2%nat
          = Some (mkVertex (Some 20) (Some 21) (Some 22)).
Proof.
  assert (H4 : 3 <= 4) by lia. assert (H1 : 0 <= 1) by lia.
  assert (Hfit : 3 * 1 <= C.INT_MAX) by (unfold C.INT_MAX; lia).
  repeat (split; [first [reflexivity | assumption]|]).
  destruct (TriangleMesh_flat_ignores_further_corners to_single
              wide_soup_world 0 wide_soup_vertices 1 4 4
              eq_refl eq_refl H4 H4 H1 Hfit)
    as (w' & g & Hrun & Hg & _ & Hn & Hlen & Hvb).
  exists w', g. repeat (split; [assumption|]).
  apply (Hvb 0 2); lia.
Defined.

(** Rows that are one coordinate short: the construction stops at an
    exception, and what it has done is on its own geometry. *)
Lemma failed_construction_touches_only_its_geometry :
  snd (construct to_single (NewTriangleMesh 0 (Some 0%nat)) short_world)
  <> Fault
  /\ exists rest evs,
       geoms (fst (construct to_single (NewTriangleMesh 0 (Some 0%nat))
                     short_world))
       = geoms short_world ++ rest
       /\ (length rest <= 1)%nat
       /\ log (fst (construct to_single (NewTriangleMesh 0 (Some 0%nat))
                      short_world))
          = log short_world ++ evs
       /\ Forall (fun ev => event_mesh ev = length (geoms short_world)) evs.
Proof.
  assert (Hnf : snd (construct to_single (NewTriangleMesh 0 (Some 0%nat))
                       short_world) <> Fault)
    by (vm_compute; discriminate).
  split; [exact Hnf|].
  exact (construction_touches_only_its_geometry to_single short_world
           (NewTriangleMesh 0 (Some 0%nat)) Hnf).
Defined.

(** The cube built in a scene that has a geometry already: the mesh holds
    the handle of the allocation that the construction made. *)
Lemma cube_in_a_busy_scene_holds_its_geometry :
  snd (construct to_single (NewElementMesh 1 1) busy_world)
  = Ok (mesh_of 1)
  /\ vertices (mesh_of 1) = mkPointer (mesh (mesh_of 1)) RTC_VERTEX_BUFFER
  /\ indices (mesh_of 1) = mkPointer (mesh (mesh_of 1)) RTC_INDEX_BUFFER
  /\ exists g nt nv evs,
       geoms (fst (construct to_single (NewElementMesh 1 1) busy_world))
       = geoms busy_world ++ [g]
       /\ log (fst (construct to_single (NewElementMesh 1 1) busy_world))
          = log busy_world
            ++ EvNewTriangleMesh (mesh (mesh_of 1)) nt nv :: evs
       /\ Forall (fun ev => event_mesh ev = mesh (mesh_of 1)) evs.
Proof.
  assert (Hok : snd (construct to_single (NewElementMesh 1 1) busy_world)
                = Ok (mesh_of 1)) by (vm_compute; reflexivity).
  split; [exact Hok|].
  exact (completed_construction_holds_its_geometry to_single busy_world
           (NewElementMesh 1 1) (mesh_of 1) Hok).
Defined.

(** After the cube, a flat construction on the cube's vertices, which are
    no soup, stops at an exception and leaves the cube's geometry as it
    was. *)
Lemma failed_construction_keeps_the_cube :
  snd (construct to_single (NewElementMesh 0 0) cube_world)
  = Ok (mesh_of 0)
  /\ snd (construct to_single (NewTriangleMesh 0 None)
            (fst (construct to_single (NewElementMesh 0 0) cube_world)))
     <> Fault
  /\ is_Some (geoms (fst (construct to_single (NewElementMesh 0 0)
                            cube_world)) !! 0%nat)
  /\ geoms (fst (construct to_single (NewTriangleMesh 0 None)
                   (fst (construct to_single (NewElementMesh 0 0)
                           cube_world))))
       !! 0%nat
     = geoms (fst (construct to_single (NewElementMesh 0 0) cube_world))
         !! 0%nat.
Proof.
  assert (Hok : snd (construct to_single (NewElementMesh 0 0) cube_world)
                = Ok (mesh_of 0)) by (vm_compute; reflexivity).
  assert (Hnf : snd (construct to_single (NewTriangleMesh 0 None)
                       (fst (construct to_single (NewElementMesh 0 0)
                               cube_world)))
                <> Fault) by (vm_compute; discriminate).
  split; [exact Hok|]. split; [exact Hnf|].
  exact (later_construction_keeps_earlier_mesh to_single cube_world
           (NewElementMesh 0 0) (NewTriangleMesh 0 None) (mesh_of 0)
           Hok Hnf).
Defined.

(** Rows that are one coordinate short: the construction raises, it does
    not fault. *)
Lemma short_rows_do_not_fault :
  has_rows short_world (NewTriangleMesh 0 (Some 0%nat))
  /\ counts_fit short_world (NewTriangleMesh 0 (Some 0%nat))
  /\ snd (construct to_single (NewTriangleMesh 0 (Some 0%nat)) short_world)
     <> Fault.
Proof.
  assert (Hrows : has_rows short_world (NewTriangleMesh 0 (Some 0%nat)))
    by (split; exact Logic.I).
  assert (Hfit : counts_fit short_world (NewTriangleMesh 0 (Some 0%nat))).
  { intros nv nt Hv Hi. vm_compute in Hv, Hi.
    injection Hv as <-. injection Hi as <-. unfold C.INT_MAX. lia. }
  split; [exact Hrows|]. split; [exact Hfit|].
  exact (construction_stays_within_buffers to_single short_world
           (NewTriangleMesh 0 (Some 0%nat)) Hrows Hfit).
Defined.

(** The build of the two triangles that share an edge ran to its end:
    their arrays are as the indexed path needs them. *)
Lemma shared_edge_arrays_are_valid :
  vertex_arrays quad_world !! 0%nat = Some quad_vertices
  /\ index_arrays quad_world !! 0%nat = Some quad_triangles
  /\ shape quad_vertices = [4; 3] /\ shape quad_triangles = [2; 3]
  /\ 0 <= 4 <= C.INT_MAX /\ 0 <= 2 <= C.INT_MAX
  /\ snd (TriangleMesh_init to_single 0 (Some 0%nat) quad_world)
     = Ok (mesh_of 0)
  /\ (0 < 4 -> 3 <= 3)
  /\ (0 < 2 ->
      3 <= 3
      /\ forall i k, 0 <= i < 2 -> 0 <= k < 3 ->
           C.INT_MIN <= item quad_triangles [i; k] <= C.INT_MAX).
Proof.
  assert (Hnv : 0 <= 4 <= C.INT_MAX) by (unfold C.INT_MAX; lia).
  assert (Hnt : 0 <= 2 <= C.INT_MAX) by (unfold C.INT_MAX; lia).
  assert (Hok : snd (TriangleMesh_init to_single 0 (Some 0%nat) quad_world)
                = Ok (mesh_of 0)) by (vm_compute; reflexivity).
  do 4 (split; [reflexivity|]).
  split; [exact Hnv|]. split; [exact Hnt|]. split; [exact Hok|].
  exact (TriangleMesh_indexed_completes_only_on_valid_arrays to_single
           quad_world 0 0 quad_vertices quad_triangles 4 2 3 3
           (mesh_of 0) eq_refl eq_refl eq_refl eq_refl Hnv Hnt Hok).
Defined.

(** The build of the soup of two triangles ran to its end: it has three
    corners of three coordinates. *)
Lemma soup_array_is_valid :
  vertex_arrays soup_world !! 0%nat = Some soup_vertices
  /\ shape soup_vertices = [2; 3; 3]
  /\ 0 < 2 <= C.INT_MAX
  /\ snd (TriangleMesh_init to_single 0 None soup_world) = Ok (mesh_of 0)
  /\ 3 <= 3 /\ 3 <= 3.
Proof.
  assert (Hn : 0 < 2 <= C.INT_MAX) by (unfold C.INT_MAX; lia).
  assert (Hok : snd (TriangleMesh_init to_single 0 None soup_world)
                = Ok (mesh_of 0)) by (vm_compute; reflexivity).
  do 2 (split; [reflexivity|]). split; [exact Hn|]. split; [exact Hok|].
  exact (TriangleMesh_flat_completes_only_on_valid_arrays to_single
           soup_world 0 soup_vertices 2 3 3 (mesh_of 0)
           eq_refl eq_refl Hn Hok).
Defined.

(** The build of the cube ran to its end: its element array has eight
    columns of entries that an [int] holds. *)
Lemma cube_arrays_are_valid :
  vertex_arrays cube_world !! 0%nat = Some cube_vertices
  /\ index_arrays cube_world !! 0%nat = Some cube_elements
  /\ shape cube_vertices = [8; 3] /\ shape cube_elements = [1; 8]
  /\ 0 <= 8 <= C.INT_MAX /\ 0 <= 1 <= C.INT_MAX
  /\ snd (ElementMesh_init to_single 0 0 cube_world) = Ok (mesh_of 0)
  /\ (8 = 4 \/ 8 = 8)
  /\ (0 < 8 -> 3 <= 3)
  /\ (0 < 1 ->
      forall i k, 0 <= i < 1 -> 0 <= k < 8 ->
        C.INT_MIN <= item cube_elements [i; k] <= C.INT_MAX).
Proof.
  assert (Hnv : 0 <= 8 <= C.INT_MAX) by (unfold C.INT_MAX; lia).
  assert (Hne : 0 <= 1 <= C.INT_MAX) by (unfold C.INT_MAX; lia).
  assert (Hok : snd (ElementMesh_init to_single 0 0 cube_world)
                = Ok (mesh_of 0)) by (vm_compute; reflexivity).
  do 4 (split; [reflexivity|]).
  split; [exact Hnv|]. split; [exact Hne|]. split; [exact Hok|].
  exact (ElementMesh_completes_only_on_valid_arrays to_single
           cube_world 0 0 cube_vertices cube_elements 8 1 3 8
           (mesh_of 0) eq_refl eq_refl eq_refl eq_refl Hnv Hne Hok).
Defined.

(** Two triangles given to [ElementMesh]: three columns are neither
    tetrahedra nor hexahedra. *)
Lemma three_columns_raise_and_do_nothing :
  snd (construct to_single (NewElementMesh 0 0) quad_world)
  = Raise NotImplementedError
  /\ exists d, ishape (index_arrays quad_world) 0 1 = Ok d
               /\ d <> 4 /\ d <> 8
               /\ fst (construct to_single (NewElementMesh 0 0) quad_world)
                  = quad_world.
Proof.
  assert (Hraise : snd (construct to_single (NewElementMesh 0 0)
                          quad_world)
                   = Raise NotImplementedError) by (vm_compute; reflexivity).
  split; [exact Hraise|].
  destruct (NotImplementedError_means_other_arity to_single quad_world
              (NewElementMesh 0 0) Hraise)
    as (v & i & d & Hc & Hd & H4 & H8 & Hw).
  injection Hc as <- <-. exists d. auto.
Defined.
